(** * Verification of [src/modelling/transformer.py]

    A shallow embedding of the next-word-prediction transformer module:
    the learning-rate schedule, the attention masks, the positional table,
    the loss, the training loop and the sampling loop.

    Conventions.
    - Python [int] is [Z]; sizes and positions that index tensors are [nat].
    - The formulas of the module (schedule, positional table, cross-entropy,
      softmax) are stated over the real numbers [R]; rounding of their
      values is outside the model.  Where binary64 decides whether the code
      raises or which integer it computes, the model follows binary64: the
      argument of the cosine on line 115 (module [Schedule64]) and the
      number of warm-up steps on line 177 (module [Py]).
    - The control flow of [forward], [train] and [generate] runs against an
      abstract numeric engine (class [Engine]); the scalar losses that
      [train] accumulates and compares, and its [warmup_epochs], are
      binary64 floats ([PrimFloat.float]), as Python's [float].
    - A Python exception is a value of [exn]; a fallible computation
      returns [result]. *)

From Stdlib Require Import String Ascii.
From Stdlib Require Import ZArith List Bool Reals Lra Lia.
From Stdlib Require Import Floats.
Import ListNotations.

(** ** Exceptions *)

Inductive exn : Type :=
| ZeroDivisionError
| UnboundLocalError
| IndexError
| KeyError
| ValueError
| OverflowError
| RuntimeError.

Inductive result (A : Type) : Type :=
| Ok (a : A)
| Raise (e : exn).

Arguments Ok {A} a.
Arguments Raise {A} e.

Definition bind {A B : Type} (c : result A) (k : A -> result B) : result B :=
  match c with
  | Ok a => k a
  | Raise e => Raise e
  end.

Notation "x <- c ;; k" := (bind c (fun x => k))
  (at level 61, c at next level, right associativity).

Definition is_ok {A : Type} (c : result A) : bool :=
  match c with Ok _ => true | Raise _ => false end.

(** ** Float values

    The value of an entry of a float tensor over the reals: a number, or the
    not-a-number that the engine computes for [0 / 0] and for the softmax
    of a row of minus infinities. *)

Inductive scalar : Type :=
| Num (r : R)
| NaN.

(** ** 1. Learning-rate schedule (lines 113-118) *)

Module Schedule.

Local Open Scope R_scope.

(** [a / b] with a Python [float] numerator and [int] denominator:
    raises on a zero denominator. *)
Definition float_div_int (a : R) (b : Z) : result R :=
  if (b =? 0)%Z then Raise ZeroDivisionError else Ok (a / IZR b).

(** [a / b] on two Python [int]s (true division). *)
Definition int_truediv (a b : Z) : result R :=
  float_div_int (IZR a) b.

(** The cosine term [0.5 * (1 + cos(pi * s / max_steps))] as a real. *)
Definition cosine_term (step max_steps : Z) : R :=
  0.5 * (1 + cos (PI * IZR step / IZR max_steps)).

(** [warmup_schedule], line by line. *)
Definition warmup_schedule (step warmup_steps max_steps : Z) : result R :=
  q <- float_div_int (PI * IZR step) max_steps ;;
  let lr_factor := 0.5 * (1 + cos q) in
  if (step <=? warmup_steps)%Z then
    r <- int_truediv step warmup_steps ;;
    Ok (lr_factor * r)
  else
    Ok lr_factor.

(** What the specification's formula gives, as a total real function. *)
Definition factor_spec (step warmup_steps max_steps : Z) : R :=
  if (step <=? warmup_steps)%Z
  then cosine_term step max_steps * (IZR step / IZR warmup_steps)
  else cosine_term step max_steps.

End Schedule.

(** ** 1a. The schedule within the range of Python's floats (line 115)

    [math.pi * step / max_steps] converts [step] and then [max_steps] to
    [float], and [math.cos] refuses an infinite argument.  These are the
    three ways in which line 115 raises besides the division by zero. *)

Module Schedule64.

(** The smallest magnitude of an [int] that does not convert to a [float]:
    the conversion rounds to the nearest binary64 value, ties to even, and
    what would round to [2^1024] raises OverflowError. *)
Definition float_overflow : Z := 2 ^ 1024 - 2 ^ 970.

Definition converts (n : Z) : bool := (Z.abs n <? float_overflow)%Z.

(** The value of [float(n)] for an [int] that converts: [n] rounded to 53
    significant bits, ties to even. *)
Definition round53 (n : Z) : Z :=
  let a := Z.abs n in
  let e := (Z.log2 a - 52)%Z in
  if (e <=? 0)%Z then n
  else
    let q := (a / 2 ^ e)%Z in
    let r := (a mod 2 ^ e)%Z in
    let half := (2 ^ (e - 1))%Z in
    let q := if (half <? r)%Z || ((r =? half)%Z && Z.odd q) then (q + 1)%Z else q in
    (Z.sgn n * (q * 2 ^ e))%Z.

(** [math.pi] is the binary64 value [pi_mantissa / 2^48]. *)
Definition pi_mantissa : Z := 884279719003555.

(** The product [math.pi * step] rounds to an infinity. *)
Definition product_overflows (step : Z) : bool :=
  (float_overflow * 2 ^ 48 <=? pi_mantissa * Z.abs (round53 step))%Z.

(** The argument of the cosine on line 115, as far as exceptions go. *)
Definition cosine_argument (step max_steps : Z) : result unit :=
  if negb (converts step) then Raise OverflowError
  else if negb (converts max_steps) then Raise OverflowError
  else if (max_steps =? 0)%Z then Raise ZeroDivisionError
  else if product_overflows step then Raise ValueError
  else Ok tt.

(** [warmup_schedule]: it raises as binary64 decides and returns the value
    of [Schedule.warmup_schedule]. *)
Definition warmup_schedule (step warmup_steps max_steps : Z) : result R :=
  _ <- cosine_argument step max_steps ;;
  Schedule.warmup_schedule step warmup_steps max_steps.

End Schedule64.

(** ** 2. Tensors as nested lists *)

Module Tensor.

(** [map] with the index of each element, counted from [k]. *)
Fixpoint mapi_from {A B : Type} (k : nat) (f : nat -> A -> B) (l : list A) : list B :=
  match l with
  | [] => []
  | a :: l' => f k a :: mapi_from (S k) f l'
  end.

Definition mapi {A B : Type} (f : nat -> A -> B) (l : list A) : list B :=
  mapi_from 0 f l.

(** [x.size(0)] and [x.size(1)] of a rectangular two-dimensional tensor. *)
Definition size0 {A : Type} (x : list (list A)) : nat := length x.

Definition size1 {A : Type} (x : list (list A)) : nat :=
  match x with
  | [] => 0%nat
  | row :: _ => length row
  end.

(** [torch.ones(n, r, c)]. *)
Definition ones (n r c : nat) : list (list (list float)) :=
  repeat (repeat (repeat 1%float c) r) n.

(** [torch.tril]: in each matrix of the batch keep the entries on and below
    the main diagonal and zero the others. *)
Definition tril (t : list (list (list float))) : list (list (list float)) :=
  map (mapi (fun i row => mapi (fun j v => if (j <=? i)%nat then v else 0%float) row)) t.

(** [t == 0], elementwise. *)
Definition eq_zero (t : list (list (list float))) : list (list (list bool)) :=
  map (map (map (fun v => PrimFloat.eqb v 0%float))) t.

(** Entry [(k, i, j)] of a three-dimensional tensor. *)
Definition entry3 {A : Type} (t : list (list (list A))) (k i j : nat) : option A :=
  match nth_error t k with
  | Some m =>
      match nth_error m i with
      | Some row => nth_error row j
      | None => None
      end
  | None => None
  end.

Definition entry2 {A : Type} (t : list (list A)) (i j : nat) : option A :=
  match nth_error t i with
  | Some row => nth_error row j
  | None => None
  end.

End Tensor.

(** ** 3. Masking strategy (lines 81-86) *)

Module Masks.

Import Tensor.

Section MakeMask.

(** [PAD_TOKEN_IDX] is imported from [.data], which is not part of the
    sources at hand. *)
Variable PAD_TOKEN_IDX : Z.
Variable n_heads : nat.

Definition _make_mask (x : list (list Z))
  : list (list (list bool)) * list (list bool) :=
  let causal_mask := ones (size0 x * n_heads) (size1 x) (size1 x) in
  let causal_mask := eq_zero (tril causal_mask) in
  let padding_mask := map (map (fun tok => (tok =? PAD_TOKEN_IDX)%Z)) x in
  (causal_mask, padding_mask).

End MakeMask.

Local Open Scope R_scope.

(** How the engine's attention consumes boolean masks: a [true] entry
    forbids the key.  Forbidden scores are set to minus infinity before the
    softmax, so the key receives weight zero and does not enter the
    normalising sum. *)
Definition forbidden (mask_row pad_row : list bool) (j : nat) : bool :=
  nth j mask_row false || nth j pad_row false.

(** A query for which each of the [n] keys is forbidden. *)
Definition fully_masked (mask_row pad_row : list bool) (n : nat) : bool :=
  forallb (forbidden mask_row pad_row) (seq 0 n).

(** The softmax of the masked scores of one query.  When every key is
    forbidden all the scores are minus infinity and the softmax is
    not-a-number at every key. *)
Definition attention_weights (mask_row pad_row : list bool) (scores : list R)
  : list scalar :=
  if fully_masked mask_row pad_row (length scores) then map (fun _ => NaN) scores
  else
    let e := mapi (fun j s => if forbidden mask_row pad_row j then 0 else exp s) scores in
    let z := fold_right Rplus 0 e in
    map (fun v => Num (v / z)) e.

End Masks.

(** ** 4. Positional encoder (lines 89-110) *)

Module PosEnc.

Import Tensor.
Local Open Scope R_scope.

(** [arange(n)] and [arange(0, stop, 2)] as reals. *)
Definition arange (n : nat) : list R := map INR (seq 0 n).

Definition arange_by2 (stop : nat) : list R :=
  map (fun i => INR (2 * i)) (seq 0 ((stop + 1) / 2)).

Definition zeros (r c : nat) : list (list R) := repeat (repeat 0 c) r.

(** [position * div_term]: a column times a row, by broadcasting. *)
Definition outer (col row : list R) : list (list R) :=
  map (fun p => map (fun d => p * d) row) col.

(** Number of columns selected by the slice [start::2] in a row of width
    [width]. *)
Definition n_selected (start width : nat) : nat := (width - start + 1) / 2.

(** Write [vals] into every second cell of [row]; [skip] says whether the
    current cell is left alone. *)
Fixpoint put_stride2 (skip : bool) (row vals : list R) : list R :=
  match row with
  | [] => []
  | r :: row' =>
      if skip then r :: put_stride2 false row' vals
      else match vals with
           | v :: vals' => v :: put_stride2 true row' vals'
           | [] => r :: put_stride2 true row' []
           end
  end.

(** A row of one value is broadcast to the width asked for. *)
Definition broadcast_to (n : nat) (vals : list R) : list R :=
  match vals with
  | [v] => repeat v n
  | _ => vals
  end.

(** [t[:, start::2] = v] where [t] is [width] wide and [v] is [vcols]
    wide: the value must have the width of the slice or width one. *)
Definition assign_cols (start : nat) (t : list (list R)) (width : nat)
  (v : list (list R)) (vcols : nat) : result (list (list R)) :=
  let n := n_selected start width in
  if ((vcols =? n) || (vcols =? 1))%nat then
    Ok (map (fun rv => put_stride2 (0 <? start)%nat (fst rv) (broadcast_to n (snd rv)))
          (combine t v))
  else Raise RuntimeError.

Record PositionalEncoding : Type := {
  _dropout : R;
  _pos_encoding : list (list R)
}.

(** [Dropout(p=dropout)], line 94: the constructor of the dropout layer
    refuses a probability outside [0, 1]. *)
Definition Dropout (p : R) : result R :=
  if Rlt_dec p 0 then Raise ValueError
  else if Rlt_dec 1 p then Raise ValueError
  else Ok p.

(** [PositionalEncoding.__init__]. *)
Definition init (size_embed : nat) (dropout : R) (max_seq_len : nat)
  : result PositionalEncoding :=
  _dropout <- Dropout dropout ;;
  let position := arange max_seq_len in
  let div_term :=
    map (fun a => exp (a * (- ln 10000 / INR size_embed))) (arange_by2 size_embed) in
  let pos_encoding := zeros max_seq_len size_embed in
  let angles := outer position div_term in
  pos_encoding <- assign_cols 0 pos_encoding size_embed
                    (map (map sin) angles) (length div_term) ;;
  pos_encoding <- assign_cols 1 pos_encoding size_embed
                    (map (map cos) angles) (length div_term) ;;
  Ok {| _dropout := _dropout; _pos_encoding := pos_encoding |}.

(** The table is registered as a buffer: the module has no parameter for
    the optimiser to update. *)
Definition parameters (pe : PositionalEncoding) : list (list (list R)) := [].

Definition buffers (pe : PositionalEncoding) : list (list (list R)) :=
  [_pos_encoding pe].

End PosEnc.

(** ** 5. Cross-entropy with an ignored index (lines 131-133, 152-154, 174) *)

Module Loss.

Local Open Scope R_scope.

(** [y_pred.permute(0, 2, 1)]: swap the last two dimensions. *)
Definition transpose (m : list (list R)) : list (list R) :=
  map (fun c => map (fun row => nth c row 0) m) (seq 0 (Tensor.size1 m)).

Definition permute_0_2_1 (t : list (list (list R))) : list (list (list R)) :=
  map transpose t.

(** The class scores at position [l] of an input of shape (classes, length). *)
Definition column (m : list (list R)) (l : nat) : list R :=
  map (fun row => nth l row 0) m.

Definition sum (l : list R) : R := fold_right Rplus 0 l.

(** Negative log-likelihood of class [t] under the softmax of [col]. *)
Definition nll (col : list R) (t : Z) : result R :=
  if ((t <? 0) || (Z.of_nat (length col) <=? t))%Z then Raise IndexError
  else Ok (ln (sum (map exp col)) - nth (Z.to_nat t) col 0).

(** The terms of the positions [l, l+1, ...] of one batch element that are
    not ignored. *)
Fixpoint terms_from (ignore_index : Z) (m : list (list R)) (l : nat) (ts : list Z)
  : result (list R) :=
  match ts with
  | [] => Ok []
  | t :: ts' =>
      if (t =? ignore_index)%Z then terms_from ignore_index m (S l) ts'
      else
        v <- nll (column m l) t ;;
        rest <- terms_from ignore_index m (S l) ts' ;;
        Ok (v :: rest)
  end.

Fixpoint terms (ignore_index : Z) (input : list (list (list R))) (target : list (list Z))
  : result (list R) :=
  match input, target with
  | [], [] => Ok []
  | m :: input', ts :: target' =>
      here <- terms_from ignore_index m 0 ts ;;
      rest <- terms ignore_index input' target' ;;
      Ok (here ++ rest)
  | _, _ => Raise ValueError
  end.

(** The sequence length of every element of an input of shape
    (batch, classes, length) against the length of its target. *)
Definition same_lengths (input : list (list (list R))) (target : list (list Z)) : bool :=
  forallb (fun mt => (Tensor.size1 (fst mt) =? length (snd mt))%nat)
    (combine input target).

(** [CrossEntropyLoss(ignore_index=...)] with the default mean reduction:
    the mean of the terms that are not ignored.  The shapes are compared
    before a target is read: the batch sizes must be the same, and so must
    the sequence lengths. *)
Definition CrossEntropyLoss (ignore_index : Z)
  (input : list (list (list R))) (target : list (list Z)) : result scalar :=
  if negb (length input =? length target)%nat then Raise ValueError
  else if negb (same_lengths input target) then Raise RuntimeError
  else
    ts <- terms ignore_index input target ;;
    match ts with
    | [] => Ok NaN
    | _ => Ok (Num (sum ts / INR (length ts)))
    end.

(** The loss of [_train_step] and [_val_step] on the model's output. *)
Definition batch_loss (PAD_TOKEN_IDX : Z)
  (y_pred : list (list (list R))) (y_batch : list (list Z)) : result scalar :=
  CrossEntropyLoss PAD_TOKEN_IDX (permute_0_2_1 y_pred) y_batch.

End Loss.

(** ** 6. The sampling distribution of [generate] (line 244) *)

Module Sampling.

Local Open Scope R_scope.

Definition sum (l : list R) : R := fold_right Rplus 0 l.

(** The probabilities of [Categorical(logits=l)]: the softmax of [l]. *)
Definition softmax (l : list R) : list R :=
  map (fun v => exp v / sum (map exp l)) l.

(** [temperature * token_logits[0, -1]]. *)
Definition scaled_logits (temperature : R) (logits : list R) : list R :=
  map (fun v => temperature * v) logits.

(** The distribution that line 244 samples from. *)
Definition Categorical_probs (temperature : R) (logits : list R) : list R :=
  softmax (scaled_logits temperature logits).

(** The largest probability of a distribution: 1/n for the uniform one,
    and the closer to 1 the sharper the distribution. *)
Definition peak (probs : list R) : R := fold_right Rmax 0 probs.

End Sampling.

(** ** 7. The numeric engine and the external collaborators *)

(** The operations of the tensor library that the module calls.  Tensors,
    parameter contents, gradients, optimiser moments and the state of the
    global random generator are the engine's own. *)
Class Engine : Type := {
  tensor : Type;
  params : Type;
  generator : Type;
  grads : Type;
  adam_state : Type;
  (** [manual_seed] *)
  seed_generator : Z -> generator;
  (** [Embedding.__call__]; raises on a token outside the vocabulary *)
  embedding : params -> list (list Z) -> result tensor;
  (** [out * sqrt(tensor(size_embed))] *)
  scale_sqrt : nat -> tensor -> tensor;
  (** [x + pos_encoding[:seq_len]]; raises on a sequence longer than the table *)
  add_positional : list (list R) -> tensor -> result tensor;
  (** [Dropout.__call__] in training mode *)
  dropout : R -> generator -> tensor -> tensor * generator;
  (** [TransformerDecoderLayer.__call__] in evaluation and in training mode,
      on [tgt], [memory], [tgt_mask], [tgt_key_padding_mask], [memory_mask]
      and [memory_key_padding_mask] *)
  decoder_eval :
    params -> tensor -> tensor ->
    list (list (list bool)) -> list (list bool) ->
    list (list (list bool)) -> list (list bool) -> tensor;
  decoder_train :
    params -> generator -> tensor -> tensor ->
    list (list (list bool)) -> list (list bool) ->
    list (list (list bool)) -> list (list bool) -> tensor * generator;
  (** [Linear.__call__] *)
  linear : params -> tensor -> tensor;
  (** [t.permute(0, 2, 1)] *)
  permute_0_2_1 : tensor -> tensor;
  (** [CrossEntropyLoss(ignore_index=...).__call__] *)
  cross_entropy : Z -> tensor -> list (list Z) -> result tensor;
  (** [t.item()] on a scalar tensor *)
  item : tensor -> float;
  (** [loss.backward()] after [zero_grad]: the gradient of the batch loss at
      the forward pass just made *)
  backward : params -> generator -> list (list Z) -> list (list Z) -> grads;
  (** [clip_grad_norm_] *)
  clip_grad_norm_ : R -> grads -> grads;
  (** [Adam]: fresh moments, and one update at a learning rate *)
  adam_init : adam_state;
  adam_step : R -> grads -> adam_state -> params -> params * adam_state;
  (** [t[0, -1]] *)
  index_0_last : tensor -> result tensor;
  (** [temperature * t] *)
  scale : R -> tensor -> tensor;
  (** [Categorical(logits=t).sample().item()] *)
  categorical_sample : generator -> tensor -> Z * generator
}.

(** What [.data] and [.utils] export; neither file is part of the sources
    at hand. *)
Class Collaborators : Type := {
  PAD_TOKEN_IDX : Z;
  EOS_DELIM : string;
  tokenizer_call : string -> list Z;
  tokens2text : list Z -> list string;
  capitalise_sentences : string -> string -> string;
  _early_stop : list (Z * float) -> bool
}.

(** ** 8. The model object and the store *)

Module Model.

Definition loc : Type := nat.

(** The Python object: its configuration, and the location of the storage
    that its parameter tensors share with every tensor derived from them
    without a copy. *)
Record NextWordPredictionTransformer : Type := {
  _size_vocab : nat;
  _size_embed : nat;
  _n_heads : nat;
  _position_encoder : PosEnc.PositionalEncoding;
  storage : loc
}.

Section Store.

Context {E : Engine} {C : Collaborators}.

(** The mutable world: the contents of every storage, the mode flag of the
    model, and the global random generator. *)
Record world : Type := {
  heap : loc -> params;
  training : bool;
  rng : generator
}.

Definition write (l : loc) (p : params) (h : loc -> params) : loc -> params :=
  fun l' => if (l' =? l)%nat then p else h l'.

(** Computations that read and write the world and may raise; the world
    survives an exception. *)
Definition M (A : Type) : Type := world -> result A * world.

Definition ret {A : Type} (a : A) : M A := fun w => (Ok a, w).

Definition raise {A : Type} (e : exn) : M A := fun w => (Raise e, w).

Definition bindM {A B : Type} (c : M A) (k : A -> M B) : M B :=
  fun w =>
    match c w with
    | (Ok a, w') => k a w'
    | (Raise e, w') => (Raise e, w')
    end.

Definition lift {A : Type} (r : result A) : M A := fun w => (r, w).

(** Reading a storage, the mode flag and the generator. *)
Definition read (l : loc) : M params := fun w => (Ok (heap w l), w).

Definition is_training : M bool := fun w => (Ok (training w), w).

Definition get_rng : M generator := fun w => (Ok (rng w), w).

(** Writing them. *)
Definition store (l : loc) (p : params) : M unit :=
  fun w => (Ok tt, {| heap := write l p (heap w); training := training w; rng := rng w |}).

Definition set_training (b : bool) : M unit :=
  fun w => (Ok tt, {| heap := heap w; training := b; rng := rng w |}).

Definition set_rng (g : generator) : M unit :=
  fun w => (Ok tt, {| heap := heap w; training := training w; rng := g |}).

End Store.

Declare Scope world_scope.
Delimit Scope world_scope with world.

Notation "x <~ c ;; k" := (bindM c (fun x => k))
  (at level 61, c at next level, right associativity) : world_scope.
Notation "c ;;; k" := (bindM c (fun _ => k))
  (at level 61, right associativity) : world_scope.

Local Open Scope world_scope.

Section Forward.

Context {E : Engine} {C : Collaborators}.

(** [manual_seed(s)] *)
Definition manual_seed (s : Z) : M unit := set_rng (seed_generator s).

(** [model.train()] is [set_training true] and [model.eval()] is
    [set_training false].  [model.to(device)] moves the parameters; their
    contents do not change. *)
Definition to_device : M unit := ret tt.

(** A call that draws from the global generator. *)
Definition drawing {A : Type} (f : generator -> A * generator) : M A :=
  g <~ get_rng ;;
  set_rng (snd (f g)) ;;;
  ret (fst (f g)).

(** [PositionalEncoding.forward], lines 103-110. *)
Definition PositionalEncoding_forward (pe : PosEnc.PositionalEncoding) (x : tensor)
  : M tensor :=
  x <~ lift (add_positional (PosEnc._pos_encoding pe) x) ;;
  t <~ is_training ;;
  if t : bool then drawing (fun g => dropout (PosEnc._dropout pe) g x)
  else ret x.

(** The arguments that [forward] hands to the decoder block. *)
Record decoder_call : Type := {
  tgt : tensor;
  memory : tensor;
  tgt_mask : list (list (list bool));
  tgt_key_padding_mask : list (list bool);
  memory_mask : list (list (list bool));
  memory_key_padding_mask : list (list bool)
}.

Definition decoder_args (m : NextWordPredictionTransformer) (x : list (list Z))
  (out : tensor) : decoder_call :=
  let (x_causal_mask, x_padding_mask) :=
    Masks._make_mask PAD_TOKEN_IDX (_n_heads m) x in
  {| tgt := out;
     memory := out;
     tgt_mask := x_causal_mask;
     tgt_key_padding_mask := x_padding_mask;
     memory_mask := x_causal_mask;
     memory_key_padding_mask := x_padding_mask |}.

Definition call_decoder (p : params) (a : decoder_call) : M tensor :=
  t <~ is_training ;;
  if t : bool then
    drawing (fun g =>
      decoder_train p g (tgt a) (memory a) (tgt_mask a) (tgt_key_padding_mask a)
        (memory_mask a) (memory_key_padding_mask a))
  else
    ret (decoder_eval p (tgt a) (memory a) (tgt_mask a) (tgt_key_padding_mask a)
           (memory_mask a) (memory_key_padding_mask a)).

(** [NextWordPredictionTransformer.forward], lines 59-72. *)
Definition forward (m : NextWordPredictionTransformer) (x : list (list Z)) : M tensor :=
  p <~ read (storage m) ;;
  out <~ lift (embedding p x) ;;
  let out := scale_sqrt (_size_embed m) out in
  out <~ PositionalEncoding_forward (_position_encoder m) out ;;
  out <~ call_decoder p (decoder_args m x out) ;;
  let out := linear p out in
  ret out.

End Forward.

End Model.

(** ** 9. Python string methods used by [generate] *)

Module Str.

Local Open Scope string_scope.

(** [str.upper] on ASCII text: the letters a to z are mapped and every
    other character is kept.  Letters outside ASCII are outside the
    model. *)
Definition upper_char (c : ascii) : ascii :=
  let n := nat_of_ascii c in
  if ((97 <=? n) && (n <=? 122))%nat then ascii_of_nat (n - 32) else c.

Fixpoint upper (s : string) : string :=
  match s with
  | EmptyString => EmptyString
  | String c s' => String (upper_char c) (upper s')
  end.

(** [sep.join(l)] *)
Definition join (sep : string) (l : list string) : string := String.concat sep l.

(** [s.replace(old, new)] for a non-empty [old]: occurrences are replaced
    left to right without overlap; [skip] counts the characters of the
    occurrence just replaced that are still to be dropped. *)
Fixpoint replace_from (old new : string) (skip : nat) (s : string) : string :=
  match s with
  | EmptyString => EmptyString
  | String c s' =>
      match skip with
      | S k => replace_from old new k s'
      | O =>
          if prefix old s
          then new ++ replace_from old new (String.length old - 1) s'
          else String c (replace_from old new 0 s')
      end
  end.

(** With an empty [old], [new] goes before every character and at the end. *)
Fixpoint insert_everywhere (new s : string) : string :=
  match s with
  | EmptyString => new
  | String c s' => new ++ String c (insert_everywhere new s')
  end.

Definition replace (old new s : string) : string :=
  match old with
  | EmptyString => insert_everywhere new s
  | _ => replace_from old new 0 s
  end.

End Str.

(** ** 10. Generation (lines 224-251) *)

Module Generate.

Import Model.
Local Open Scope world_scope.

Section Sampler.

Context {E : Engine} {C : Collaborators}.

(** One pass of the loop body, lines 242-245. *)
Definition sample_next (model : NextWordPredictionTransformer) (temperature : R)
  (token_sequence : list Z) : M (list Z) :=
  let x := [token_sequence] in
  token_logits <~ forward model x ;;
  last <~ lift (index_0_last token_logits) ;;
  token_pred <~ drawing (fun g => categorical_sample g (scale temperature last)) ;;
  ret (token_sequence ++ [token_pred]).

(** [for _ in range(n)] around it. *)
Fixpoint sample_loop (model : NextWordPredictionTransformer) (temperature : R)
  (n : nat) (token_sequence : list Z) : M (list Z) :=
  match n with
  | O => ret token_sequence
  | S n' =>
      token_sequence <~ sample_next model temperature token_sequence ;;
      sample_loop model temperature n' token_sequence
  end.

(** The token sequence after line 245. *)
Definition generate_tokens (model : NextWordPredictionTransformer) (prompt : string)
  (output_length : Z) (temperature : R) (random_seed : Z) : M (list Z * list Z) :=
  manual_seed random_seed ;;;
  to_device ;;;
  set_training false ;;;
  let prompt_tokens := tokenizer_call prompt in
  let token_sequence := prompt_tokens in
  token_sequence <~
    sample_loop model temperature (Z.to_nat output_length) token_sequence ;;
  ret (prompt_tokens, token_sequence).

(** Lines 247-251. *)
Definition format_output (prompt : string) (prompt_tokens token_sequence : list Z)
  : string :=
  let new_token_sequence := skipn (length prompt_tokens) token_sequence in
  let new_text := (" " ++ Str.join " " (tokens2text new_token_sequence))%string in
  let new_text := capitalise_sentences new_text EOS_DELIM in
  let new_text := Str.replace EOS_DELIM ". " new_text in
  ("==> " ++ Str.upper prompt ++ new_text ++ "...")%string.

(** [generate]. *)
Definition generate (model : NextWordPredictionTransformer) (prompt : string)
  (output_length : Z) (temperature : R) (random_seed : Z) : M string :=
  pt <~ generate_tokens model prompt output_length temperature random_seed ;;
  ret (format_output prompt (fst pt) (snd pt)).

(** The new tokens of a run, for stating properties of the sequence. *)
Definition generated_tokens (model : NextWordPredictionTransformer) (prompt : string)
  (output_length : Z) (temperature : R) (random_seed : Z) : M (list Z) :=
  pt <~ generate_tokens model prompt output_length temperature random_seed ;;
  ret (skipn (length (fst pt)) (snd pt)).

End Sampler.

End Generate.

(** ** 11. Python dictionaries and floats used by [train] *)

Module Py.

(** A [Dict[int, float]] in insertion order. *)
Definition dict : Type := list (Z * float).

Fixpoint dict_set (k : Z) (v : float) (d : dict) : dict :=
  match d with
  | [] => [(k, v)]
  | (k', v') :: d' =>
      if (k' =? k)%Z then (k, v) :: d' else (k', v') :: dict_set k v d'
  end.

Fixpoint dict_get (k : Z) (d : dict) : result float :=
  match d with
  | [] => Raise KeyError
  | (k', v') :: d' => if (k' =? k)%Z then Ok v' else dict_get k d'
  end.

Definition values (d : dict) : list float := map snd d.

(** [min(iterable)]: the first item is kept until a later one compares
    strictly below it. *)
Definition min (l : list float) : result float :=
  match l with
  | [] => Raise ValueError
  | v :: l' => Ok (fold_left (fun m x => if PrimFloat.ltb x m then x else m) l' v)
  end.

(** [float(n)] for an [int]: the nearest binary64 value, ties to even;
    OverflowError when that is not finite. *)
Definition float_of_int (n : Z) : result float :=
  match binary_normalize prec emax n 0 false with
  | S754_infinity _ => Raise OverflowError
  | x => Ok (SF2Prim x)
  end.

(** [math.floor(x)] on a [float]: an [int]; it raises on an infinity and on
    a not-a-number. *)
Definition floor (x : float) : result Z :=
  match Prim2SF x with
  | S754_nan => Raise ValueError
  | S754_infinity _ => Raise OverflowError
  | S754_zero _ => Ok 0%Z
  | S754_finite s m e =>
      let v := if s then Z.neg m else Z.pos m in
      Ok (if (0 <=? e)%Z then v * 2 ^ e else v / 2 ^ (- e))%Z
  end.

(** [a / n] with a float numerator and the [int] length of a container. *)
Definition div_len (a : float) (n : nat) : result float :=
  match n with
  | O => Raise ZeroDivisionError
  | S _ => Ok (PrimFloat.div a (PrimFloat.of_uint63 (Uint63.of_Z (Z.of_nat n))))
  end.

(** [range(1, n + 1)] *)
Definition range_from_1 (n : Z) : list Z := map Z.of_nat (seq 1 (Z.to_nat n)).

End Py.

(** ** 12. Training (lines 121-221) *)

Module Train.

Import Model.
Local Open Scope world_scope.

Section Loop.

Context {E : Engine} {C : Collaborators}.

Definition batch : Type := (list (list Z) * list (list Z))%type.

(** The optimiser and the scheduler: the learning rate of the parameter
    group, Adam's moments, and the scheduler's step counter. *)
Record trainer : Type := {
  initial_lr : R;
  lr : R;
  moments : adam_state;
  last_epoch : Z
}.

(** [Adam(model.parameters(), lr=learning_rate)]; the optimiser refuses a
    negative learning rate. *)
Definition Adam (learning_rate : R) : result trainer :=
  if Rlt_dec learning_rate 0 then Raise ValueError
  else Ok {| initial_lr := learning_rate;
             lr := learning_rate;
             moments := adam_init;
             last_epoch := (-1)%Z |}.

(** [LambdaLR.step]: advance the counter and set the learning rate to the
    initial one times the schedule's factor at the new count. *)
Definition LambdaLR_step (lrs_fn : Z -> result R) (t : trainer) : result trainer :=
  let e := (last_epoch t + 1)%Z in
  f <- lrs_fn e ;;
  Ok {| initial_lr := initial_lr t;
        lr := (initial_lr t * f)%R;
        moments := moments t;
        last_epoch := e |}.

(** [LambdaLR(optimizer, lrs_fn)]: the constructor takes the first step,
    which evaluates the schedule at step 0. *)
Definition LambdaLR (t : trainer) (lrs_fn : Z -> result R) : result trainer :=
  LambdaLR_step lrs_fn t.

(** [optimizer.step()]: the parameters are updated in place, in their own
    storage. *)
Definition optimizer_step (model : NextWordPredictionTransformer) (g : grads)
  (t : trainer) : M trainer :=
  p <~ read (storage model) ;;
  let (p', mom') := adam_step (lr t) g (moments t) p in
  store (storage model) p' ;;;
  ret {| initial_lr := initial_lr t;
         lr := lr t;
         moments := mom';
         last_epoch := last_epoch t |}.

(** [if clip_grads:] is false for [None] and for [0.0]. *)
Definition clip (clip_grads : option R) (g : grads) : grads :=
  match clip_grads with
  | None => g
  | Some c => if Req_dec_T c 0 then g else clip_grad_norm_ c g
  end.

(** [_train_step], lines 121-142. *)
Definition _train_step (x_batch y_batch : list (list Z))
  (model : NextWordPredictionTransformer) (lrs_fn : Z -> result R)
  (clip_grads : option R) (t : trainer) : M (float * trainer) :=
  set_training true ;;;
  p <~ read (storage model) ;;
  g0 <~ get_rng ;;
  y_pred <~ forward model x_batch ;;
  loss_batch <~ lift (cross_entropy PAD_TOKEN_IDX (permute_0_2_1 y_pred) y_batch) ;;
  let g := backward p g0 x_batch y_batch in
  let g := clip clip_grads g in
  t <~ optimizer_step model g t ;;
  t <~ lift (LambdaLR_step lrs_fn t) ;;
  ret (item loss_batch, t).

(** [_val_step], lines 145-155. *)
Definition _val_step (x_batch y_batch : list (list Z))
  (model : NextWordPredictionTransformer) : M float :=
  set_training false ;;;
  y_pred <~ forward model x_batch ;;
  loss_batch <~ lift (cross_entropy PAD_TOKEN_IDX (permute_0_2_1 y_pred) y_batch) ;;
  ret (item loss_batch).

(** The snapshot of line 207.  [model.state_dict()] maps each name to a
    tensor that shares the parameter's storage, and [dict.copy()] copies the
    dictionary and not the tensors: the entry holds the storage itself. *)
Record checkpoint : Type := {
  ck_state_dict : loc;
  ck_loss : float;
  ck_epoch : Z
}.

Definition state_dict (model : NextWordPredictionTransformer) : loc := storage model.

Definition dict_copy (sd : loc) : loc := sd.

(** [model.load_state_dict(sd)]: each parameter is overwritten in place with
    the contents of the tensor of its name. *)
Definition load_state_dict (model : NextWordPredictionTransformer) (sd : loc) : M unit :=
  p <~ read sd ;;
  store (storage model) p.

(** The variables of [train] that the epoch loop updates. *)
Record progress : Type := {
  opt : trainer;
  train_losses : Py.dict;
  val_losses : Py.dict;
  best_checkpoint : option checkpoint
}.

(** Lines 188-195. *)
Fixpoint train_batches (model : NextWordPredictionTransformer)
  (lrs_fn : Z -> result R) (clip_grads : option R) (data : list batch)
  (loss_train : float) (t : trainer) : M (float * trainer) :=
  match data with
  | [] => ret (loss_train, t)
  | (x, y) :: data' =>
      r <~ _train_step x y model lrs_fn clip_grads t ;;
      train_batches model lrs_fn clip_grads data'
        (PrimFloat.add loss_train (fst r)) (snd r)
  end.

(** Lines 198-201. *)
Fixpoint val_batches (model : NextWordPredictionTransformer) (data : list batch)
  (loss_val : float) : M float :=
  match data with
  | [] => ret loss_val
  | (x, y) :: data' =>
      l <~ _val_step x y model ;;
      val_batches model data' (PrimFloat.add loss_val l)
  end.

(** Lines 206-211. *)
Definition checkpoint_decision (model : NextWordPredictionTransformer) (epoch : Z)
  (val_losses : Py.dict) (best : option checkpoint) : result (option checkpoint) :=
  v <- Py.dict_get epoch val_losses ;;
  replace <- (if (epoch =? 1)%Z then Ok true
              else m <- Py.min (Py.values val_losses) ;; Ok (PrimFloat.ltb v m)) ;;
  if replace : bool then
    Ok (Some {| ck_state_dict := dict_copy (state_dict model);
                ck_loss := v;
                ck_epoch := epoch |})
  else Ok best.

(** The body of the epoch loop, lines 187-211. *)
Definition epoch_body (model : NextWordPredictionTransformer)
  (lrs_fn : Z -> result R) (clip_grads : option R)
  (train_data val_data : list batch) (epoch : Z) (s : progress) : M progress :=
  r <~ train_batches model lrs_fn clip_grads train_data 0%float (opt s) ;;
  loss_val <~ val_batches model val_data 0%float ;;
  tl <~ lift (Py.div_len (fst r) (length train_data)) ;;
  let train_losses := Py.dict_set epoch tl (train_losses s) in
  vl <~ lift (Py.div_len loss_val (length val_data)) ;;
  let val_losses := Py.dict_set epoch vl (val_losses s) in
  best <~ lift (checkpoint_decision model epoch val_losses (best_checkpoint s)) ;;
  ret {| opt := snd r;
         train_losses := train_losses;
         val_losses := val_losses;
         best_checkpoint := best |}.

(** [for epoch in ...], with the [break] of line 214. *)
Fixpoint epoch_loop (model : NextWordPredictionTransformer)
  (lrs_fn : Z -> result R) (clip_grads : option R)
  (train_data val_data : list batch) (epochs : list Z) (s : progress) : M progress :=
  match epochs with
  | [] => ret s
  | epoch :: epochs' =>
      s <~ epoch_body model lrs_fn clip_grads train_data val_data epoch s ;;
      if _early_stop (val_losses s) then ret s
      else epoch_loop model lrs_fn clip_grads train_data val_data epochs' s
  end.

(** Line 177: [math.floor(warmup_epochs * n_batches)], on binary64
    floats as Python computes it. *)
Definition count_warmup_steps (warmup_epochs : float) (n_batches : Z) : result Z :=
  x <- Py.float_of_int n_batches ;;
  Py.floor (PrimFloat.mul warmup_epochs x).

(** Lines 169-185: everything before the epoch loop. *)
Definition setup (train_data : list batch) (n_epochs : Z) (learning_rate : R)
  (warmup_epochs : float) (random_seed : Z) : M ((Z -> result R) * progress) :=
  manual_seed random_seed ;;;
  to_device ;;;
  optimizer <~ lift (Adam learning_rate) ;;
  let n_batches := Z.of_nat (length train_data) in
  n_warmup_steps <~ lift (count_warmup_steps warmup_epochs n_batches) ;;
  let n_steps := (n_epochs * n_batches)%Z in
  let lrs_fn := fun step => Schedule64.warmup_schedule step n_warmup_steps n_steps in
  lrs <~ lift (LambdaLR optimizer lrs_fn) ;;
  ret (lrs_fn,
       {| opt := lrs; train_losses := []; val_losses := []; best_checkpoint := None |}).

(** Lines 216-221.  The name [best_checkpoint] is bound by the first
    assignment of line 207 only. *)
Definition finalize (model : NextWordPredictionTransformer) (s : progress)
  : M (Py.dict * Py.dict) :=
  match best_checkpoint s with
  | None => raise UnboundLocalError
  | Some ck =>
      load_state_dict model (ck_state_dict ck) ;;;
      ret (train_losses s, val_losses s)
  end.

(** Lines 169-214: [train] up to the end of the epoch loop. *)
Definition train_loop (model : NextWordPredictionTransformer)
  (train_data val_data : list batch) (n_epochs : Z) (learning_rate : R)
  (warmup_epochs : float) (clip_grads : option R) (random_seed : Z) : M progress :=
  st <~ setup train_data n_epochs learning_rate warmup_epochs random_seed ;;
  epoch_loop model (fst st) clip_grads train_data val_data
    (Py.range_from_1 n_epochs) (snd st).

(** [train]. *)
Definition train (model : NextWordPredictionTransformer)
  (train_data val_data : list batch) (n_epochs : Z) (learning_rate : R)
  (warmup_epochs : float) (clip_grads : option R) (random_seed : Z)
  : M (Py.dict * Py.dict) :=
  s <~ train_loop model train_data val_data n_epochs learning_rate warmup_epochs
         clip_grads random_seed ;;
  finalize model s.

End Loop.

End Train.

(** ** 13. A small engine to run the control flow on *)

Module Toy.

Import Model.

(** A tensor is an integer.  The parameters are one counter that every
    optimiser step advances; the model's output is the counter, and so is
    its loss, which [item] reads off a table:
    2.0 after one step, 1.0 after two, 3.0 otherwise. *)
Definition engine : Engine := {|
  tensor := Z;
  params := Z;
  generator := Z;
  grads := unit;
  adam_state := unit;
  seed_generator := fun s => s;
  embedding := fun p _ => Ok p;
  scale_sqrt := fun _ t => t;
  add_positional := fun _ t => Ok t;
  dropout := fun _ g t => (t, (g + 1)%Z);
  decoder_eval := fun _ t _ _ _ _ _ => t;
  decoder_train := fun _ g t _ _ _ _ _ => (t, (g + 1)%Z);
  linear := fun _ t => t;
  permute_0_2_1 := fun t => t;
  cross_entropy := fun _ t _ => Ok t;
  item := fun t => match t with
                   | 1%Z => 2%float
                   | 2%Z => 1%float
                   | _ => 3%float
                   end;
  backward := fun _ _ _ _ => tt;
  clip_grad_norm_ := fun _ g => g;
  adam_init := tt;
  adam_step := fun _ _ s p => ((p + 1)%Z, s);
  index_0_last := fun t => Ok t;
  scale := fun _ t => t;
  categorical_sample := fun g t => ((g + t)%Z, (g + 1)%Z)
|}.

Definition collaborators : Collaborators := {|
  PAD_TOKEN_IDX := 0%Z;
  EOS_DELIM := "|";
  tokenizer_call := fun s => map (fun c => Z.of_nat (nat_of_ascii c)) (list_ascii_of_string s);
  tokens2text := map (fun t => if (t <? 50)%Z then "a"%string else "b"%string);
  capitalise_sentences := fun s _ => s;
  _early_stop := fun _ => false
|}.

Definition model : NextWordPredictionTransformer := {|
  _size_vocab := 10;
  _size_embed := 8;
  _n_heads := 1;
  _position_encoder := {| PosEnc._dropout := 0.1%R; PosEnc._pos_encoding := [] |};
  storage := 0%nat
|}.

(** A fresh world: every storage holds the counter 0. *)
Definition world0 : @world engine :=
  @Build_world engine (fun _ => 0%Z) false 0%Z.

(** One batch of one sequence for training and for validation. *)
Definition data : list Train.batch := [([[1%Z; 2%Z]], [[2%Z; 3%Z]])].

End Toy.

(** ** 14. The sum of [PositionalEncoding.forward] over the reals (line 109) *)

Module PosEncSum.

Import PosEnc.
Local Open Scope R_scope.

Fixpoint map_result {A B : Type} (f : A -> result B) (l : list A) : result (list B) :=
  match l with
  | [] => Ok []
  | a :: l' =>
      b <- f a ;;
      bs <- map_result f l' ;;
      Ok (b :: bs)
  end.

(** One dimension of a broadcast operation: the two sizes are equal, or
    one of them is 1 and its only item meets every item of the other. *)
Definition zip_broadcast {A B : Type} (f : A -> A -> result B) (a b : list A)
  : result (list B) :=
  if (length a =? length b)%nat
  then map_result (fun ab => f (fst ab) (snd ab)) (combine a b)
  else match a, b with
       | [u], _ => map_result (f u) b
       | _, [v] => map_result (fun u => f u v) a
       | _, _ => Raise RuntimeError
       end.

Definition add_row (a b : list R) : result (list R) :=
  zip_broadcast (fun u v => Ok (u + v)) a b.

Definition add_matrix (m rows : list (list R)) : result (list (list R)) :=
  zip_broadcast add_row m rows.

(** [x + self._pos_encoding[:seq_len]] with [seq_len = x.size(1)], for [x]
    of shape (batch, seq_len, width).  In evaluation mode the dropout that
    follows is the identity and this is the result of [forward]. *)
Definition forward_sum (pe : PositionalEncoding) (x : list (list (list R)))
  : result (list (list (list R))) :=
  let seq_len := Tensor.size1 x in
  map_result (fun m => add_matrix m (firstn seq_len (_pos_encoding pe))) x.

End PosEncSum.

(** ** 15. Weight initialisation (lines 74-79) *)

Module InitWeights.

Section Loop.

(** A parameter tensor of the engine, its number of dimensions, and the
    in-place Xavier initialiser, which draws from the generator. *)
Variable ptensor : Type.
Variable gen : Type.
Variable dim : ptensor -> nat.
Variable xavier_uniform_ : gen -> ptensor -> ptensor * gen.

(** [for p in self.parameters(): if p.dim() > 1: xavier_uniform_(p)] *)
Fixpoint _init_weights (ps : list ptensor) (g : gen) : list ptensor * gen :=
  match ps with
  | [] => ([], g)
  | p :: ps' =>
      if (1 <? dim p)%nat then
        let (p', g') := xavier_uniform_ g p in
        let (rest, g'') := _init_weights ps' g' in
        (p' :: rest, g'')
      else
        let (rest, g') := _init_weights ps' g in
        (p :: rest, g')
  end.

End Loop.

End InitWeights.

(** * Properties *)

(** ** Learning-rate schedule *)

Section ScheduleFacts.

Import Schedule.
Local Open Scope R_scope.

Lemma IZR_nonzero (z : Z) : z <> 0%Z -> IZR z <> 0.
Proof. intros H Hz. apply H. now apply eq_IZR_R0. Qed.

(** Off the two zero denominators the function returns the formula. *)
Lemma warmup_schedule_defined (step warmup_steps max_steps : Z) :
  max_steps <> 0%Z ->
  (warmup_steps <> 0 \/ warmup_steps < step)%Z ->
  warmup_schedule step warmup_steps max_steps
  = Ok (factor_spec step warmup_steps max_steps).
Proof.
  intros Hm Hw.
  unfold warmup_schedule, factor_spec, cosine_term, int_truediv, float_div_int.
  apply Z.eqb_neq in Hm. rewrite Hm. cbn [bind].
  destruct (step <=? warmup_steps)%Z eqn:Hle.
  - destruct Hw as [Hw | Hw].
    + apply Z.eqb_neq in Hw. rewrite Hw. reflexivity.
    + apply Z.leb_le in Hle. lia.
  - reflexivity.
Qed.

Lemma warmup_schedule_zero_max (step warmup_steps : Z) :
  warmup_schedule step warmup_steps 0 = Raise ZeroDivisionError.
Proof. reflexivity. Qed.





End ScheduleFacts.

(** ** The schedule and the range of floats *)

Section Schedule64Facts.

Import Schedule64.
Local Open Scope Z_scope.

(** The integers that binary64 holds exactly are far inside the range. *)
Lemma converts_exact (n : Z) : Z.abs n < 2 ^ 53 -> converts n = true.
Proof.
  intros H. unfold converts. apply Z.ltb_lt.
  assert (Hc : (2 ^ 53 <? float_overflow) = true) by (vm_compute; reflexivity).
  apply Z.ltb_lt in Hc. lia.
Qed.

Lemma round53_exact (n : Z) : Z.abs n < 2 ^ 53 -> round53 n = n.
Proof.
  intros H. unfold round53.
  assert (He : Z.log2 (Z.abs n) - 52 <= 0).
  { destruct (Z.eq_dec (Z.abs n) 0) as [-> | Hn]; [cbn; lia |].
    assert (Hlog : Z.log2 (Z.abs n) < 53) by (apply Z.log2_lt_pow2; lia).
    lia. }
  apply Z.leb_le in He. now rewrite He.
Qed.

Lemma product_finite_exact (n : Z) : Z.abs n < 2 ^ 53 -> product_overflows n = false.
Proof.
  intros H. unfold product_overflows. rewrite (round53_exact n H).
  apply Z.leb_gt.
  assert (Hc : (pi_mantissa * 2 ^ 53 <? float_overflow * 2 ^ 48) = true)
    by (vm_compute; reflexivity).
  apply Z.ltb_lt in Hc.
  assert (Hp : 0 < pi_mantissa) by reflexivity.
  nia.
Qed.

Lemma cosine_argument_exact (step max_steps : Z) :
  Z.abs step < 2 ^ 53 -> Z.abs max_steps < 2 ^ 53 ->
  cosine_argument step max_steps
  = if max_steps =? 0 then Raise ZeroDivisionError else Ok tt.
Proof.
  intros Hs Hm. unfold cosine_argument.
  rewrite (converts_exact step Hs), (converts_exact max_steps Hm).
  rewrite (product_finite_exact step Hs). reflexivity.
Qed.

(** On the integers that binary64 holds exactly the function is the one
    over the reals. *)
Lemma warmup_schedule_exact (step warmup_steps max_steps : Z) :
  Z.abs step < 2 ^ 53 -> Z.abs max_steps < 2 ^ 53 ->
  warmup_schedule step warmup_steps max_steps
  = Schedule.warmup_schedule step warmup_steps max_steps.
Proof.
  intros Hs Hm. unfold warmup_schedule.
  rewrite (cosine_argument_exact step max_steps Hs Hm).
  destruct (max_steps =? 0) eqn:H0; [| reflexivity].
  apply Z.eqb_eq in H0. subst max_steps. reflexivity.
Qed.

(** A factor that is returned is the factor over the reals. *)
Lemma warmup_schedule_returns (step warmup_steps max_steps : Z) (f : R) :
  warmup_schedule step warmup_steps max_steps = Ok f ->
  Schedule.warmup_schedule step warmup_steps max_steps = Ok f.
Proof.
  unfold warmup_schedule.
  destruct (cosine_argument step max_steps); [now cbn [bind] | discriminate].
Qed.

(** Nothing is returned at step 0 without warm-up steps. *)
Lemma warmup_schedule_zero_zero (max_steps : Z) :
  is_ok (warmup_schedule 0 0 max_steps) = false.
Proof.
  unfold warmup_schedule.
  destruct (cosine_argument 0 max_steps) as [u | e] eqn:Hc; [| reflexivity].
  cbn [bind]. unfold cosine_argument in Hc.
  destruct (negb (converts 0)); [discriminate Hc |].
  destruct (negb (converts max_steps)); [discriminate Hc |].
  destruct (max_steps =? 0) eqn:Hm; [discriminate Hc |].
  unfold Schedule.warmup_schedule, Schedule.int_truediv, Schedule.float_div_int.
  rewrite Hm. reflexivity.
Qed.

End Schedule64Facts.

Section ScheduleClaims.

Import Schedule.
Local Open Scope R_scope.




End ScheduleClaims.

(** ** Masking strategy *)

Section MaskFacts.

Import Tensor.

Lemma nth_error_mapi_from {A B : Type} (f : nat -> A -> B) (l : list A) (k i : nat) :
  nth_error (mapi_from k f l) i = option_map (f (k + i)%nat) (nth_error l i).
Proof.
  revert k i. induction l as [| a l IH]; intros k i.
  - destruct i; reflexivity.
  - destruct i as [| i]; cbn.
    + now rewrite Nat.add_0_r.
    + rewrite IH. now rewrite Nat.add_succ_r.
Qed.

Lemma nth_error_mapi {A B : Type} (f : nat -> A -> B) (l : list A) (i : nat) :
  nth_error (mapi f l) i = option_map (f i) (nth_error l i).
Proof. unfold mapi. now rewrite nth_error_mapi_from. Qed.

(** One matrix of the causal mask: lower triangle of ones, compared with 0. *)
Definition causal_matrix (r c : nat) : list (list bool) :=
  map (map (fun v => PrimFloat.eqb v 0%float))
    (mapi (fun i row => mapi (fun j v => if (j <=? i)%nat then v else 0%float) row)
       (repeat (repeat 1%float c) r)).

Lemma causal_mask_copies (n r c : nat) :
  eq_zero (tril (ones n r c)) = repeat (causal_matrix r c) n.
Proof.
  unfold eq_zero, tril, ones, causal_matrix.
  induction n as [| n IH]; [reflexivity |].
  cbn [repeat map]. now rewrite IH.
Qed.

Lemma causal_matrix_entry (r c i j : nat) :
  (i < r)%nat -> (j < c)%nat ->
  entry2 (causal_matrix r c) i j = Some (i <? j)%nat.
Proof.
  intros Hi Hj. unfold entry2, causal_matrix.
  rewrite nth_error_map, nth_error_mapi, nth_error_repeat by assumption.
  cbn [option_map].
  rewrite nth_error_map, nth_error_mapi, nth_error_repeat by assumption.
  cbn [option_map]. f_equal.
  destruct (j <=? i)%nat eqn:Hle.
  - apply Nat.leb_le in Hle.
    replace (i <? j)%nat with false by (symmetry; apply Nat.ltb_ge; lia).
    reflexivity.
  - apply Nat.leb_gt in Hle.
    replace (i <? j)%nat with true by (symmetry; apply Nat.ltb_lt; lia).
    reflexivity.
Qed.

Lemma causal_matrix_row (r c i : nat) (row : list bool) :
  nth_error (causal_matrix r c) i = Some row ->
  forall j, (j < c)%nat -> nth j row false = (i <? j)%nat.
Proof.
  intros Hrow j Hj.
  assert (Hi : (i < r)%nat).
  { assert (Hrow' : nth_error (causal_matrix r c) i <> None) by congruence.
    apply nth_error_Some in Hrow'. clear Hrow. rename Hrow' into Hrow.
    unfold causal_matrix in Hrow.
    rewrite length_map in Hrow. unfold mapi in Hrow.
    assert (Hlen : forall (A B : Type) (f : nat -> A -> B) l k,
               length (mapi_from k f l) = length l).
    { intros A B f l. induction l as [| a l IH]; intros k; cbn; [reflexivity |].
      now rewrite IH. }
    rewrite Hlen, repeat_length in Hrow. exact Hrow. }
  pose proof (causal_matrix_entry r c i j Hi Hj) as He.
  unfold entry2 in He. rewrite Hrow in He.
  now apply nth_error_nth.
Qed.

End MaskFacts.

Section MaskClaims.

Import Tensor Model.
Context {E : Engine} {C : Collaborators}.

(** The weight of a forbidden key: zero, or not-a-number when the query
    has no key left. *)
Lemma forbidden_weight (mask_row pad_row : list bool) (scores : list R) (j : nat) :
  (j < length scores)%nat ->
  Masks.forbidden mask_row pad_row j = true ->
  nth_error (Masks.attention_weights mask_row pad_row scores) j
  = Some (if Masks.fully_masked mask_row pad_row (length scores) then NaN else Num 0%R).
Proof.
  intros Hj Hf. unfold Masks.attention_weights.
  destruct (nth_error scores j) as [s |] eqn:Hs;
    [| apply nth_error_None in Hs; lia].
  destruct (Masks.fully_masked mask_row pad_row (length scores)).
  - now rewrite nth_error_map, Hs.
  - rewrite nth_error_map, nth_error_mapi, Hs. cbn [option_map]. rewrite Hf.
    do 2 f_equal. unfold Rdiv. apply Rmult_0_l.
Qed.

(** C6: for a batch [x] of shape (batch, seq_len), the causal mask of
    [_make_mask] has [batch * n_heads] matrices, all the same, whose entry
    [(i, j)] is [true] (forbidden) exactly when [j > i]; [forward] passes it
    to both attention paths of the decoder.  There a later key gets
    attention weight zero from a query that has a key to attend to, and a
    query that has none (the padding mask hides every key the causal mask
    leaves) has no weights at all, only not-a-number: no position attends
    to a strictly later one. *)
Theorem make_mask_causal (m : NextWordPredictionTransformer) (x : list (list Z))
  (out : tensor) :
  let causal := fst (Masks._make_mask PAD_TOKEN_IDX (_n_heads m) x) in
  length causal = (size0 x * _n_heads m)%nat
  /\ (forall k i j : nat,
        (k < size0 x * _n_heads m)%nat -> (i < size1 x)%nat -> (j < size1 x)%nat ->
        entry3 causal k i j = Some (i <? j)%nat)
  /\ (forall k k' : nat,
        (k < size0 x * _n_heads m)%nat -> (k' < size0 x * _n_heads m)%nat ->
        nth_error causal k = nth_error causal k')
  /\ tgt_mask (decoder_args m x out) = causal
  /\ memory_mask (decoder_args m x out) = causal
  /\ (forall (k i j : nat) (mat : list (list bool)) (row pad_row : list bool)
        (scores : list R),
        nth_error causal k = Some mat -> nth_error mat i = Some row ->
        (i < j)%nat -> (j < size1 x)%nat -> length scores = size1 x ->
        nth_error (Masks.attention_weights row pad_row scores) j
        = Some (if Masks.fully_masked row pad_row (size1 x) then NaN else Num 0%R)).
Proof.
  cbv zeta. unfold decoder_args, Masks._make_mask. cbn [fst tgt_mask memory_mask].
  rewrite causal_mask_copies.
  split; [| split; [| split; [| split; [reflexivity | split; [reflexivity |]]]]].
  - apply repeat_length.
  - intros k i j Hk Hi Hj. unfold entry3.
    rewrite nth_error_repeat by exact Hk.
    apply (causal_matrix_entry (size1 x) (size1 x) i j Hi Hj).
  - intros k k' Hk Hk'. now rewrite !nth_error_repeat.
  - intros k i j mat row pad_row scores Hmat Hrow Hij Hj Hlen.
    assert (Hk : (k < size0 x * _n_heads m)%nat).
    { assert (Hn : nth_error (repeat (causal_matrix (size1 x) (size1 x))
                                (size0 x * _n_heads m)) k <> None) by congruence.
      apply nth_error_Some in Hn. now rewrite repeat_length in Hn. }
    rewrite nth_error_repeat in Hmat by exact Hk.
    injection Hmat as <-.
    rewrite <- Hlen. apply forbidden_weight; [lia |].
    unfold Masks.forbidden.
    rewrite (causal_matrix_row (size1 x) (size1 x) i row Hrow j Hj).
    replace (i <? j)%nat with true by (symmetry; apply Nat.ltb_lt; exact Hij).
    reflexivity.
Qed.

End MaskClaims.

(** ** Positional encoder *)

Section PosEncFacts.

Import Tensor PosEnc.
Local Open Scope R_scope.

Lemma put_stride2_length (row vals : list R) (skip : bool) :
  length (put_stride2 skip row vals) = length row.
Proof.
  revert vals skip. induction row as [| r row IH]; intros vals skip; [reflexivity |].
  destruct skip; cbn.
  - now rewrite IH.
  - destruct vals; cbn; now rewrite IH.
Qed.

(** Cells written by the slice [0::2], and cells it leaves alone. *)
Lemma put_even_written (i : nat) : forall row vals : list R,
  (2 * i < length row)%nat -> (i < length vals)%nat ->
  nth_error (put_stride2 false row vals) (2 * i) = nth_error vals i.
Proof.
  induction i as [| i IH]; intros row vals Hr Hv.
  - destruct row as [| r row]; [cbn in Hr; lia |].
    destruct vals as [| v vals]; [cbn in Hv; lia |]. reflexivity.
  - destruct row as [| r [| r' row]]; cbn in Hr; try lia.
    destruct vals as [| v vals]; [cbn in Hv; lia |].
    replace (2 * S i)%nat with (S (S (2 * i))) by lia.
    cbn. apply IH; cbn in Hv; lia.
Qed.

Lemma put_odd_written (i : nat) (row vals : list R) :
  (2 * i + 1 < length row)%nat -> (i < length vals)%nat ->
  nth_error (put_stride2 true row vals) (2 * i + 1) = nth_error vals i.
Proof.
  intros Hr Hv.
  destruct row as [| r row]; [cbn in Hr; lia |].
  replace (2 * i + 1)%nat with (S (2 * i)) by lia.
  cbn. apply put_even_written; cbn in Hr; lia.
Qed.

Lemma put_odd_keeps_even (i : nat) : forall row vals : list R,
  nth_error (put_stride2 true row vals) (2 * i) = nth_error row (2 * i).
Proof.
  induction i as [| i IH]; intros row vals.
  - destruct row; reflexivity.
  - destruct row as [| r [| r' row]]; try reflexivity.
    replace (2 * S i)%nat with (S (S (2 * i))) by lia.
    destruct vals as [| v vals]; cbn; apply IH.
Qed.

Lemma broadcast_to_same (n : nat) (vals : list R) :
  length vals = n -> broadcast_to n vals = vals.
Proof.
  intros <-. destruct vals as [| v [| v' vals]]; reflexivity.
Qed.

Lemma nth_error_combine {A B : Type} (l : list A) (l' : list B) (n : nat) (a : A) (b : B) :
  nth_error l n = Some a -> nth_error l' n = Some b ->
  nth_error (combine l l') n = Some (a, b).
Proof.
  revert l l'. induction n as [| n IH]; intros [| x l] [| y l'] Ha Hb;
    cbn in *; try discriminate.
  - now inversion Ha; inversion Hb.
  - now apply IH.
Qed.

Lemma arange_by2_length (stop : nat) : length (arange_by2 stop) = ((stop + 1) / 2)%nat.
Proof. unfold arange_by2. now rewrite length_map, length_seq. Qed.

Lemma arange_by2_nth (stop i : nat) :
  (2 * i < stop)%nat -> nth_error (arange_by2 stop) i = Some (INR (2 * i)).
Proof.
  intros Hi. unfold arange_by2.
  rewrite nth_error_map.
  assert (Hlt : (i < (stop + 1) / 2)%nat).
  { apply Nat.div_le_lower_bound with (b := 2%nat) (q := S i); lia. }
  rewrite nth_error_seq.
  apply Nat.ltb_lt in Hlt. rewrite Hlt. reflexivity.
Qed.

(** The angle of the source is the angle of the specification. *)
Lemma angle_eq (p i size_embed : nat) :
  (2 * i < size_embed)%nat ->
  INR p * exp (INR (2 * i) * (- ln 10000 / INR size_embed))
  = INR p / Rpower 10000 (INR (2 * i) / INR size_embed).
Proof.
  intros Hi.
  assert (HE : INR size_embed <> 0) by (apply not_0_INR; lia).
  unfold Rpower, Rdiv at 2. rewrite <- exp_Ropp.
  do 2 f_equal. field. exact HE.
Qed.

Lemma Dropout_ok (p : R) : 0 <= p <= 1 -> Dropout p = Ok p.
Proof.
  intros [H0 H1]. unfold Dropout.
  destruct (Rlt_dec p 0) as [H | _]; [lra |].
  destruct (Rlt_dec 1 p) as [H | _]; [lra | reflexivity].
Qed.

Lemma Dropout_inv (p q : R) : Dropout p = Ok q -> q = p /\ 0 <= p <= 1.
Proof.
  unfold Dropout. intros H.
  destruct (Rlt_dec p 0) as [| H0]; [discriminate H |].
  destruct (Rlt_dec 1 p) as [| H1]; [discriminate H |].
  injection H as <-. split; [reflexivity | lra].
Qed.

(** A constructor that returns passed the check of the dropout layer, and
    what it built does not depend on the probability. *)
Lemma init_inv (size_embed max_seq_len : nat) (dropout : R) (pe : PositionalEncoding) :
  init size_embed dropout max_seq_len = Ok pe ->
  0 <= dropout <= 1
  /\ forall dropout' : R,
       0 <= dropout' <= 1 ->
       init size_embed dropout' max_seq_len
       = Ok {| _dropout := dropout'; _pos_encoding := _pos_encoding pe |}.
Proof.
  intros Hinit. unfold init in Hinit.
  destruct (Dropout dropout) as [d |] eqn:Hd; [| discriminate Hinit].
  apply Dropout_inv in Hd. destruct Hd as [-> Hrange]. cbn [bind] in Hinit.
  split; [exact Hrange |].
  intros dropout' Hrange'. unfold init. rewrite (Dropout_ok _ Hrange'). cbn [bind].
  destruct (assign_cols 0 _ _ _ _) as [t0 |]; [| discriminate Hinit].
  cbn [bind] in Hinit |- *.
  destruct (assign_cols 1 _ _ _ _) as [t1 |]; [| discriminate Hinit].
  cbn [bind] in Hinit |- *. injection Hinit as <-. reflexivity.
Qed.

End PosEncFacts.

Section PosEncClaims.

Import Tensor PosEnc.
Local Open Scope R_scope.

(** The row of position [p] after both slice assignments. *)
Lemma init_row (size_embed max_seq_len : nat) (dropout : R) (pe : PositionalEncoding)
  (p : nat) :
  init size_embed dropout max_seq_len = Ok pe ->
  (p < max_seq_len)%nat ->
  let angles :=
    map (fun d => INR p * d)
      (map (fun a => exp (a * (- ln 10000 / INR size_embed))) (arange_by2 size_embed)) in
  nth_error (_pos_encoding pe) p
  = Some (put_stride2 true
            (put_stride2 false (repeat 0 size_embed)
               (broadcast_to (n_selected 0 size_embed) (map sin angles)))
            (broadcast_to (n_selected 1 size_embed) (map cos angles))).
Proof.
  intros Hinit Hp angles. unfold init in Hinit.
  destruct (Dropout dropout) as [d |]; [| discriminate Hinit].
  cbn [bind] in Hinit. unfold assign_cols in Hinit.
  destruct ((_ =? n_selected 0 size_embed) || _)%nat; [| discriminate Hinit].
  cbn [bind] in Hinit.
  destruct ((_ =? n_selected 1 size_embed) || _)%nat; [| discriminate Hinit].
  cbn [bind] in Hinit. injection Hinit as <-. cbn [_pos_encoding].
  assert (Hpos : nth_error (arange max_seq_len) p = Some (INR p)).
  { unfold arange. rewrite nth_error_map, nth_error_seq.
    apply Nat.ltb_lt in Hp. now rewrite Hp. }
  assert (Hang : forall f : R -> R,
             nth_error (map (map f)
                          (outer (arange max_seq_len)
                             (map (fun a => exp (a * (- ln 10000 / INR size_embed)))
                                (arange_by2 size_embed)))) p
             = Some (map f angles)).
  { intros f. unfold outer. rewrite !nth_error_map, Hpos. reflexivity. }
  rewrite nth_error_map.
  erewrite nth_error_combine; [reflexivity | | apply Hang].
  rewrite nth_error_map.
  erewrite nth_error_combine; [reflexivity | | apply Hang].
  unfold zeros. now apply nth_error_repeat.
Qed.

Lemma init_even_ok (size_embed max_seq_len : nat) (dropout : R) :
  Nat.Even size_embed -> 0 <= dropout <= 1 ->
  exists pe, init size_embed dropout max_seq_len = Ok pe.
Proof.
  intros [k ->] Hd. unfold init. rewrite (Dropout_ok _ Hd). cbn [bind].
  unfold assign_cols.
  rewrite !length_map, arange_by2_length.
  assert (H0 : ((2 * k + 1) / 2 = n_selected 0 (2 * k))%nat).
  { unfold n_selected. now rewrite Nat.sub_0_r. }
  assert (H1 : ((2 * k + 1) / 2 = n_selected 1 (2 * k))%nat).
  { unfold n_selected.
    replace ((2 * k + 1) / 2)%nat with k
      by (apply Nat.div_unique with (r := 1%nat); lia).
    destruct k as [| k]; [reflexivity |].
    replace (2 * S k - 1 + 1)%nat with (S k * 2)%nat by lia.
    now rewrite Nat.div_mul. }
  rewrite <- H0, Nat.eqb_refl. cbn [orb bind].
  rewrite <- H1, Nat.eqb_refl. cbn [orb bind].
  eexists. reflexivity.
Qed.

(** For an odd [size_embed] of 3 or more the second slice assignment does
    not fit and the constructor raises. *)
Lemma init_odd_raises (k max_seq_len : nat) (dropout : R) :
  (1 <= k)%nat -> 0 <= dropout <= 1 ->
  init (2 * k + 1) dropout max_seq_len = Raise RuntimeError.
Proof.
  intros Hk Hd. unfold init. rewrite (Dropout_ok _ Hd). cbn [bind].
  unfold assign_cols.
  rewrite !length_map, arange_by2_length.
  assert (Hlen : ((2 * k + 1 + 1) / 2 = S k)%nat).
  { symmetry. apply Nat.div_unique with (r := 0%nat); lia. }
  assert (H0 : n_selected 0 (2 * k + 1) = S k).
  { unfold n_selected. now rewrite Nat.sub_0_r. }
  assert (H1 : n_selected 1 (2 * k + 1) = k).
  { unfold n_selected. symmetry. apply Nat.div_unique with (r := 1%nat); lia. }
  rewrite Hlen, H0, H1, Nat.eqb_refl. cbn [orb bind].
  replace (S k =? k)%nat with false by (symmetry; apply Nat.eqb_neq; lia).
  replace (S k =? 1)%nat with false by (symmetry; apply Nat.eqb_neq; lia).
  reflexivity.
Qed.

(** With [size_embed = 1] both assignments fit: the second one writes an
    empty slice. *)
Lemma init_one_ok (max_seq_len : nat) (dropout : R) :
  0 <= dropout <= 1 -> exists pe, init 1 dropout max_seq_len = Ok pe.
Proof.
  intros Hd. unfold init. rewrite (Dropout_ok _ Hd). cbn [bind].
  unfold assign_cols. rewrite !length_map, arange_by2_length.
  eexists. reflexivity.
Qed.

(** The rows of a table that is built are [size_embed] wide. *)
Lemma init_row_length (size_embed max_seq_len : nat) (dropout : R)
  (pe : PositionalEncoding) (p : nat) (row : list R) :
  init size_embed dropout max_seq_len = Ok pe ->
  nth_error (_pos_encoding pe) p = Some row ->
  length row = size_embed.
Proof.
  intros Hinit Hrow.
  assert (Hp : (p < max_seq_len)%nat).
  { destruct (Nat.lt_ge_cases p max_seq_len) as [Hlt | Hge]; [exact Hlt |].
    exfalso.
    assert (Hlen : length (_pos_encoding pe) = max_seq_len).
    { unfold init in Hinit.
      destruct (Dropout dropout) as [d |]; [| discriminate Hinit].
      cbn [bind] in Hinit. unfold assign_cols in Hinit.
      destruct ((_ =? n_selected 0 size_embed) || _)%nat; [| discriminate Hinit].
      cbn [bind] in Hinit.
      destruct ((_ =? n_selected 1 size_embed) || _)%nat; [| discriminate Hinit].
      cbn [bind] in Hinit. injection Hinit as <-. cbn [_pos_encoding].
      unfold zeros, outer, arange.
      rewrite !length_map, !length_combine, !length_map, !length_combine.
      rewrite repeat_length, !length_map, length_seq.
      rewrite !Nat.min_id. reflexivity. }
    assert (Hsome : nth_error (_pos_encoding pe) p <> None) by (rewrite Hrow; discriminate).
    apply nth_error_Some in Hsome. lia. }
  pose proof (init_row size_embed max_seq_len dropout pe p Hinit Hp) as H.
  cbv zeta in H. rewrite H in Hrow. injection Hrow as <-.
  now rewrite !put_stride2_length, repeat_length.
Qed.

(** C8, as stated, fails for an odd embedding size.  With [size_embed = 1]
    the constructor returns a table of one column: the pair (0, 1) has
    [2i < E], and the table has no entry at column 1.  With [size_embed = 3]
    the constructor raises and there is no table at all. *)
Lemma positional_table_odd_size :
  (exists pe, init 1 0.1 2 = Ok pe /\ entry2 (_pos_encoding pe) 0 (2 * 0 + 1) = None)
  /\ init 3 0.1 2 = Raise RuntimeError.
Proof.
  split.
  - destruct (init_one_ok 2 0.1) as [pe Hpe]; [lra |].
    exists pe. split; [exact Hpe |].
    unfold entry2.
    destruct (nth_error (_pos_encoding pe) 0) as [row |] eqn:Hrow; [| reflexivity].
    pose proof (init_row_length 1 2 0.1 pe 0 row Hpe Hrow) as Hlen.
    apply nth_error_None. rewrite Hlen. cbn. lia.
  - apply (init_odd_raises 1 2 0.1); [lia | lra].
Qed.

(** C8, amended: for an even [size_embed] and a dropout probability in
    [0, 1] the constructor returns, and the table holds, at each position
    [p < max_seq_len] and each pair [(2i, 2i+1)] of embedding dimensions
    with [2i < E], [sin(p / 10000^(2i/E))] at the even index and
    [cos(p / 10000^(2i/E))] at the odd one.  The table is a buffer, not a
    parameter, and is a function of [size_embed] and [max_seq_len] alone:
    any other construction with these two arguments gives the same table. *)
Theorem positional_table_entries (size_embed max_seq_len : nat) (dropout : R) :
  Nat.Even size_embed -> 0 <= dropout <= 1 ->
  exists pe : PositionalEncoding,
    init size_embed dropout max_seq_len = Ok pe
    /\ (forall p i : nat, (p < max_seq_len)%nat -> (2 * i < size_embed)%nat ->
          entry2 (_pos_encoding pe) p (2 * i)
          = Some (sin (INR p / Rpower 10000 (INR (2 * i) / INR size_embed)))
          /\ entry2 (_pos_encoding pe) p (2 * i + 1)
             = Some (cos (INR p / Rpower 10000 (INR (2 * i) / INR size_embed))))
    /\ parameters pe = []
    /\ buffers pe = [_pos_encoding pe]
    /\ forall (dropout' : R) (pe' : PositionalEncoding),
         init size_embed dropout' max_seq_len = Ok pe' ->
         _pos_encoding pe' = _pos_encoding pe.
Proof.
  intros Heven Hd.
  destruct (init_even_ok size_embed max_seq_len dropout Heven Hd) as [pe Hinit].
  exists pe. split; [exact Hinit |].
  split; [| split; [reflexivity | split; [reflexivity |]]].
  - intros p i Hp Hi.
    assert (Hodd : (2 * i + 1 < size_embed)%nat).
    { destruct Heven as [k Hk]. lia. }
    pose proof (init_row size_embed max_seq_len dropout pe p Hinit Hp) as Hrow.
    cbv zeta in Hrow. unfold entry2. rewrite Hrow. clear Hrow.
    set (div_term := map (fun a => exp (a * (- ln 10000 / INR size_embed)))
                       (arange_by2 size_embed)).
    set (angles := map (fun d => INR p * d) div_term).
    assert (Hlen : forall f : R -> R,
               length (map f angles) = ((size_embed + 1) / 2)%nat).
    { intros f. unfold angles, div_term. now rewrite !length_map, arange_by2_length. }
    assert (Hnth : forall f : R -> R,
               nth_error (map f angles) i
               = Some (f (INR p / Rpower 10000 (INR (2 * i) / INR size_embed)))).
    { intros f. unfold angles, div_term.
      rewrite !nth_error_map, arange_by2_nth by exact Hi.
      cbn [option_map]. now rewrite angle_eq. }
    assert (Hi2 : (i < (size_embed + 1) / 2)%nat).
    { apply Nat.div_le_lower_bound with (b := 2%nat) (q := S i); lia. }
    assert (Hsel0 : n_selected 0 size_embed = ((size_embed + 1) / 2)%nat).
    { unfold n_selected. now rewrite Nat.sub_0_r. }
    assert (Hsel1 : n_selected 1 size_embed = ((size_embed + 1) / 2)%nat).
    { destruct Heven as [k Hk]. unfold n_selected. subst size_embed.
      replace ((2 * k + 1) / 2)%nat with k
        by (apply Nat.div_unique with (r := 1%nat); lia).
      destruct k as [| k]; [lia |].
      replace (2 * S k - 1 + 1)%nat with (S k * 2)%nat by lia.
      now rewrite Nat.div_mul. }
    split.
    + rewrite put_odd_keeps_even.
      rewrite put_even_written.
      * rewrite broadcast_to_same by (rewrite Hsel0; apply Hlen). apply Hnth.
      * now rewrite repeat_length.
      * rewrite broadcast_to_same by (rewrite Hsel0; apply Hlen).
        now rewrite Hlen.
    + rewrite put_odd_written.
      * rewrite broadcast_to_same by (rewrite Hsel1; apply Hlen). apply Hnth.
      * now rewrite put_stride2_length, repeat_length.
      * rewrite broadcast_to_same by (rewrite Hsel1; apply Hlen).
        now rewrite Hlen.
  - intros dropout' pe' Hinit'.
    destruct (init_inv _ _ _ _ Hinit') as [_ Hsame].
    rewrite (Hsame dropout Hd) in Hinit. injection Hinit as <-. reflexivity.
Qed.

Lemma positional_table_entries_witness :
  exists pe, init 4 0.1 3 = Ok pe
  /\ entry2 (_pos_encoding pe) 2 2 = Some (sin (INR 2 / Rpower 10000 (INR (2 * 1) / INR 4)))
  /\ entry2 (_pos_encoding pe) 2 3 = Some (cos (INR 2 / Rpower 10000 (INR (2 * 1) / INR 4))).
Proof.
  destruct (positional_table_entries 4 3 0.1) as (pe & Hpe & Hent & _);
    [exists 2%nat; reflexivity | lra |].
  exists pe. split; [exact Hpe |].
  destruct (Hent 2%nat 1%nat) as [Hs Hc]; [lia | lia |].
  split; [exact Hs | exact Hc].
Defined.

End PosEncClaims.

(** ** Loss masking *)

Section LossFacts.

Import Loss.
Local Open Scope R_scope.

Lemma nth_map_inside {A B : Type} (g : A -> B) (d : B) (d' : A) (m : list A) (l : nat) :
  (l < length m)%nat -> nth l (map g m) d = g (nth l m d').
Proof.
  revert l. induction m as [| a m IH]; intros l Hl; cbn in Hl; [lia |].
  destruct l as [| l]; [reflexivity |]. cbn. apply IH. lia.
Qed.

(** The class scores that the loss reads at position [l] are the row [l] of
    the model's output. *)
Lemma column_transpose (m : list (list R)) (l : nat) :
  (l < length m)%nat ->
  column (transpose m) l
  = map (fun c => nth c (nth l m []) 0) (seq 0 (Tensor.size1 m)).
Proof.
  intros Hl. unfold column, transpose. rewrite map_map.
  apply map_ext. intros c.
  now rewrite (nth_map_inside (fun row => nth c row 0) 0 []) by exact Hl.
Qed.

(** Two outputs of the same shape that agree at the positions whose target
    is not ignored. *)
Definition agree_off (ignore_index : Z) (m1 m2 : list (list R)) (ts : list Z) : Prop :=
  length m1 = length ts /\ length m2 = length ts
  /\ Tensor.size1 m1 = Tensor.size1 m2
  /\ forall (l : nat) (t : Z),
       nth_error ts l = Some t -> t <> ignore_index -> nth l m1 [] = nth l m2 [].

Lemma terms_from_agree (ignore_index : Z) (m1 m2 : list (list R)) :
  length m1 = length m2 ->
  Tensor.size1 m1 = Tensor.size1 m2 ->
  forall (ts : list Z) (l0 : nat),
    (l0 + length ts <= length m1)%nat ->
    (forall (l : nat) (t : Z),
        nth_error ts l = Some t -> t <> ignore_index ->
        nth (l0 + l) m1 [] = nth (l0 + l) m2 []) ->
    terms_from ignore_index (transpose m1) l0 ts
    = terms_from ignore_index (transpose m2) l0 ts.
Proof.
  intros Hlen Hsz ts. induction ts as [| t ts IH]; intros l0 Hb Hag; [reflexivity |].
  cbn [terms_from]. cbn [length] in Hb.
  assert (Hrest : terms_from ignore_index (transpose m1) (S l0) ts
                  = terms_from ignore_index (transpose m2) (S l0) ts).
  { apply IH; [lia |]. intros l t' Hl Ht'.
    replace (S l0 + l)%nat with (l0 + S l)%nat by lia.
    apply (Hag (S l) t'); assumption. }
  destruct (t =? ignore_index)%Z eqn:Ht; [exact Hrest |].
  rewrite Hrest.
  rewrite !column_transpose by lia.
  specialize (Hag 0%nat t eq_refl). rewrite Nat.add_0_r in Hag.
  rewrite Hag, Hsz; [reflexivity |].
  now apply Z.eqb_neq.
Qed.

Lemma terms_agree (ignore_index : Z) :
  forall (y1 y2 : list (list (list R))) (target : list (list Z)),
    Forall2 (fun m12 ts => agree_off ignore_index (fst m12) (snd m12) ts)
      (combine y1 y2) target ->
    length y1 = length y2 ->
    terms ignore_index (permute_0_2_1 y1) target
    = terms ignore_index (permute_0_2_1 y2) target.
Proof.
  induction y1 as [| m1 y1 IH]; intros [| m2 y2] target HF Hlen;
    cbn in Hlen; try discriminate.
  - reflexivity.
  - cbn [combine] in HF. inversion HF as [| m12 ts c t' Hag HF' Heq1 Heq2]; subst.
    cbn [permute_0_2_1 map terms]. cbn [fst snd] in Hag.
    destruct Hag as (H1 & H2 & Hsz & Hag).
    rewrite (terms_from_agree ignore_index m1 m2) with (l0 := 0%nat);
      [| congruence | exact Hsz | cbn; lia | exact Hag].
    fold (permute_0_2_1 y1). fold (permute_0_2_1 y2).
    rewrite (IH y2 t' HF') by (injection Hlen; auto).
    reflexivity.
Qed.

Lemma terms_from_all_ignored (ignore_index : Z) (m : list (list R)) (ts : list Z) :
  Forall (fun t => t = ignore_index) ts ->
  forall l0 : nat, terms_from ignore_index m l0 ts = Ok [].
Proof.
  induction 1 as [| t ts Ht _ IH]; intros l0; [reflexivity |].
  cbn [terms_from]. subst t. rewrite Z.eqb_refl. apply IH.
Qed.

Lemma terms_all_ignored (ignore_index : Z) :
  forall (input : list (list (list R))) (target : list (list Z)),
    length input = length target ->
    Forall (Forall (fun t => t = ignore_index)) target ->
    terms ignore_index input target = Ok [].
Proof.
  induction input as [| m input IH]; intros [| ts target] Hlen HF;
    cbn in Hlen; try discriminate.
  - reflexivity.
  - inversion HF as [| ? ? Hts HF']; subst.
    cbn [terms]. rewrite terms_from_all_ignored by exact Hts.
    cbn [bind]. rewrite IH by (auto; lia). reflexivity.
Qed.

(** The sequence length of a permuted output. *)
Lemma size1_transpose (m : list (list R)) :
  Tensor.size1 (transpose m)
  = match Tensor.size1 m with O => 0%nat | S _ => length m end.
Proof.
  unfold transpose. destruct (Tensor.size1 m) as [| c]; [reflexivity |].
  cbn [seq map Tensor.size1]. apply length_map.
Qed.

Lemma same_lengths_agree (ignore_index : Z) :
  forall (y1 y2 : list (list (list R))) (target : list (list Z)),
    Forall2 (fun m12 ts => agree_off ignore_index (fst m12) (snd m12) ts)
      (combine y1 y2) target ->
    length y1 = length y2 ->
    same_lengths (permute_0_2_1 y1) target = same_lengths (permute_0_2_1 y2) target.
Proof.
  unfold same_lengths.
  induction y1 as [| m1 y1 IH]; intros [| m2 y2] target HF Hlen;
    cbn in Hlen; try discriminate; [reflexivity |].
  cbn [combine] in HF. inversion HF as [| m12 ts c t' Hag HF' Heq1 Heq2]; subst.
  cbn [permute_0_2_1 map combine forallb fst snd]. cbn [fst snd] in Hag.
  destruct Hag as (H1 & H2 & Hsz & _).
  rewrite !size1_transpose, Hsz, H1, H2.
  fold (permute_0_2_1 y1). fold (permute_0_2_1 y2).
  rewrite (IH y2 t' HF') by (injection Hlen; auto).
  reflexivity.
Qed.

(** Reading a row back entry by entry. *)
Lemma map_nth_seq (row : list R) :
  map (fun c => nth c row 0) (seq 0 (length row)) = row.
Proof.
  apply nth_ext with (d := 0) (d' := 0).
  - now rewrite length_map, length_seq.
  - intros n Hn. rewrite length_map, length_seq in Hn.
    rewrite (nth_map_inside (fun c => nth c row 0) 0 0%nat) by (now rewrite length_seq).
    now rewrite seq_nth.
Qed.

Lemma skipn_cons_nth {A : Type} (d : A) (l : list A) (n : nat) :
  (n < length l)%nat -> skipn n l = nth n l d :: skipn (S n) l.
Proof.
  revert n. induction l as [| a l IH]; intros n Hn; cbn in Hn; [lia |].
  destruct n as [| n]; [reflexivity |].
  cbn [skipn nth]. apply IH. lia.
Qed.

End LossFacts.

Section LossClaims.

Import Loss.
Local Open Scope R_scope.

(** The cross-entropy of the logits [row] of one position with the target
    class [t]. *)
Definition cross_entropy_at (row : list R) (t : Z) : R :=
  ln (sum (map exp row)) - nth (Z.to_nat t) row 0.

(** The cross-entropies of a batch at the positions whose target is not
    [pad], batch element by batch element and position by position. *)
Definition kept_losses (pad : Z) (y : list (list (list R))) (target : list (list Z))
  : list R :=
  flat_map
    (fun mt =>
       flat_map
         (fun rt => if (snd rt =? pad)%Z then []
                    else [cross_entropy_at (fst rt) (snd rt)])
         (combine (fst mt) (snd mt)))
    (combine y target).

(** The mean of a list of numbers; of none, the not-a-number of [0 / 0]. *)
Definition mean (l : list R) : scalar :=
  match l with
  | [] => NaN
  | _ => Num (sum l / INR (length l))
  end.

(** An output of shape (batch, length, [n_classes]) and targets of shape
    (batch, length). *)
Definition shaped (n_classes : nat) (y : list (list (list R))) (target : list (list Z))
  : Prop :=
  Forall2 (fun m ts => length m = length ts
                       /\ Forall (fun row => length row = n_classes) m) y target.

(** Every target is the padding index or a class. *)
Definition in_vocabulary (pad : Z) (n_classes : nat) (target : list (list Z)) : Prop :=
  Forall (Forall (fun t => t = pad \/ (0 <= t < Z.of_nat n_classes)%Z)) target.

Lemma shaped_checks (n_classes : nat) (y : list (list (list R)))
  (target : list (list Z)) :
  (0 < n_classes)%nat -> shaped n_classes y target ->
  length (permute_0_2_1 y) = length target
  /\ same_lengths (permute_0_2_1 y) target = true.
Proof.
  intros Hc. unfold same_lengths.
  induction 1 as [| m ts y target [Hlen Hrows] _ [IHl IHs]]; [split; reflexivity |].
  cbn [permute_0_2_1 map length combine forallb fst snd].
  fold (permute_0_2_1 y). rewrite IHl, IHs. split; [reflexivity |].
  rewrite andb_true_r. apply Nat.eqb_eq.
  rewrite size1_transpose.
  destruct m as [| row m]; [exact Hlen |].
  inversion Hrows; subst. cbn [Tensor.size1].
  destruct (length row); [lia | exact Hlen].
Qed.

Lemma terms_from_kept (pad : Z) (n_classes : nat) (m : list (list R)) :
  Forall (fun row => length row = n_classes) m ->
  forall (ts : list Z) (l0 : nat),
    (l0 + length ts = length m)%nat ->
    Forall (fun t => t = pad \/ (0 <= t < Z.of_nat n_classes)%Z) ts ->
    terms_from pad (transpose m) l0 ts
    = Ok (flat_map
            (fun rt => if (snd rt =? pad)%Z then []
                       else [cross_entropy_at (fst rt) (snd rt)])
            (combine (skipn l0 m) ts)).
Proof.
  intros Hrows ts. induction ts as [| t ts IH]; intros l0 Hlen Hts.
  - cbn [terms_from]. now rewrite combine_nil.
  - cbn [length] in Hlen. inversion Hts as [| ? ? Ht Hts']; subst.
    rewrite (skipn_cons_nth [] m l0) by lia.
    cbn [terms_from combine flat_map fst snd].
    rewrite (IH (S l0)) by (lia || assumption).
    destruct (t =? pad)%Z eqn:Hpad; [reflexivity |].
    destruct Ht as [Ht | Ht]; [apply Z.eqb_neq in Hpad; contradiction |].
    assert (Hrow : length (nth l0 m []) = n_classes).
    { rewrite Forall_forall in Hrows. apply Hrows, nth_In. lia. }
    assert (Hsz : Tensor.size1 m = n_classes).
    { destruct m as [| row m]; [cbn in Hlen; lia |].
      apply Forall_inv in Hrows. exact Hrows. }
    rewrite column_transpose by lia.
    rewrite Hsz, <- Hrow, map_nth_seq.
    unfold nll. rewrite Hrow.
    replace ((t <? 0) || (Z.of_nat n_classes <=? t))%Z with false
      by (symmetry; apply orb_false_iff; split;
          [apply Z.ltb_ge | apply Z.leb_gt]; lia).
    reflexivity.
Qed.

Lemma terms_kept (pad : Z) (n_classes : nat) :
  forall (y : list (list (list R))) (target : list (list Z)),
    shaped n_classes y target -> in_vocabulary pad n_classes target ->
    terms pad (permute_0_2_1 y) target = Ok (kept_losses pad y target).
Proof.
  unfold kept_losses.
  induction 1 as [| m ts y target [Hlen Hrows] _ IH]; intros Hv; [reflexivity |].
  inversion Hv as [| ? ? Hts Hv']; subst.
  cbn [permute_0_2_1 map terms combine flat_map fst snd].
  fold (permute_0_2_1 y).
  rewrite (terms_from_kept pad n_classes m Hrows ts 0) by (cbn; lia || assumption).
  cbn [bind skipn]. rewrite (IH Hv'). reflexivity.
Qed.

(** C5, as stated, fails on its second half: when every target of the
    batch is the padding index there is no term to average, and the mean
    is the not-a-number of [0 / 0] instead of zero. *)
Lemma all_pad_loss_is_nan :
  batch_loss 0 [[[1; 2]]] [[0%Z]] = Ok NaN
  /\ batch_loss 0 [[[1; 2]]] [[0%Z]] <> Ok (Num 0).
Proof.
  assert (H : batch_loss 0 [[[1; 2]]] [[0%Z]] = Ok NaN) by reflexivity.
  split; [exact H |]. rewrite H. discriminate.
Qed.

(** C5, amended: on an output of shape (batch, length, classes) and
    targets of shape (batch, length) that are classes or PAD, the loss of
    [_train_step] and [_val_step] is the mean of the cross-entropies at the
    positions whose target is not PAD.  The positions whose target is PAD
    are ignored: two outputs that agree at the other positions have the
    same loss.  For a batch whose targets are all PAD no position is left:
    the loss is not-a-number whatever the logits are, and not zero. *)
Theorem loss_ignores_pad (pad : Z) (n_classes : nat) (y1 y2 : list (list (list R)))
  (target : list (list Z)) :
  (0 < n_classes)%nat -> shaped n_classes y1 target ->
  (in_vocabulary pad n_classes target ->
   batch_loss pad y1 target = Ok (mean (kept_losses pad y1 target)))
  /\ (length y1 = length y2 ->
      Forall2 (fun m12 ts => agree_off pad (fst m12) (snd m12) ts) (combine y1 y2) target ->
      batch_loss pad y1 target = batch_loss pad y2 target)
  /\ (Forall (Forall (fun t => t = pad)) target ->
      batch_loss pad y1 target = Ok NaN /\ kept_losses pad y1 target = []).
Proof.
  intros Hc Hshape.
  destruct (shaped_checks n_classes y1 target Hc Hshape) as [Hn Hl].
  split; [| split].
  - intros Hv. unfold batch_loss, CrossEntropyLoss.
    rewrite Hn, Nat.eqb_refl, Hl. cbn [negb].
    rewrite (terms_kept pad n_classes y1 target Hshape Hv). cbn [bind].
    unfold mean. destruct (kept_losses pad y1 target); reflexivity.
  - intros Hlen HF. unfold batch_loss, CrossEntropyLoss.
    rewrite <- (same_lengths_agree pad y1 y2 target HF Hlen).
    rewrite <- (terms_agree pad y1 y2 target HF Hlen).
    replace (length (permute_0_2_1 y2)) with (length (permute_0_2_1 y1))
      by (unfold permute_0_2_1; now rewrite !length_map).
    reflexivity.
  - intros HF.
    assert (Hv : in_vocabulary pad n_classes target).
    { unfold in_vocabulary. eapply Forall_impl; [| exact HF].
      intros ts Hts. eapply Forall_impl; [| exact Hts]. intros t Ht. now left. }
    assert (Hterms : terms pad (permute_0_2_1 y1) target = Ok []).
    { apply terms_all_ignored; [exact Hn | exact HF]. }
    rewrite (terms_kept pad n_classes y1 target Hshape Hv) in Hterms.
    injection Hterms as Hkept. split; [| exact Hkept].
    unfold batch_loss, CrossEntropyLoss.
    rewrite Hn, Nat.eqb_refl, Hl. cbn [negb].
    rewrite (terms_kept pad n_classes y1 target Hshape Hv), Hkept. reflexivity.
Qed.

Lemma loss_ignores_pad_witness :
  batch_loss 0 [[[1; 2]; [3; 4]]] [[1%Z; 0%Z]]
  = Ok (Num (sum [ln (sum [exp 1; exp 2]) - 2] / INR 1))
  /\ batch_loss 0 [[[1; 2]; [3; 4]]] [[1%Z; 0%Z]]
     = batch_loss 0 [[[1; 2]; [7; 8]]] [[1%Z; 0%Z]]
  /\ batch_loss 0 [[[1; 2]; [3; 4]]] [[0%Z; 0%Z]] = Ok NaN.
Proof.
  assert (Hshape : forall ts : list Z, length ts = 2%nat ->
            shaped 2 [[[1; 2]; [3; 4]]] [ts]).
  { intros ts Hts. constructor; [| constructor].
    split; [now rewrite Hts | repeat constructor]. }
  destruct (loss_ignores_pad 0 2 [[[1; 2]; [3; 4]]] [[[1; 2]; [7; 8]]] [[1%Z; 0%Z]])
    as (Hmean & Hsame & _); [lia | now apply Hshape |].
  destruct (loss_ignores_pad 0 2 [[[1; 2]; [3; 4]]] [[[1; 2]; [3; 4]]] [[0%Z; 0%Z]])
    as (_ & _ & Hnan); [lia | now apply Hshape |].
  split; [| split].
  - apply Hmean. constructor; [| constructor].
    constructor; [right; lia |]. constructor; [now left | constructor].
  - apply Hsame; [reflexivity |].
    constructor; [| constructor].
    split; [reflexivity | split; [reflexivity | split; [reflexivity |]]].
    intros [| [| l]] t Hl Ht; cbn in Hl.
    + reflexivity.
    + injection Hl as <-. now elim Ht.
    + destruct l; discriminate Hl.
  - apply Hnan. repeat constructor.
Defined.

End LossClaims.

(** ** Temperature *)

Section SamplingFacts.

Import Sampling.
Local Open Scope R_scope.

Lemma sum_exp_pos (l : list R) : l <> [] -> 0 < sum (map exp l).
Proof.
  destruct l as [| a l]; [congruence |]. intros _. cbn.
  assert (H : 0 <= sum (map exp l)).
  { induction l as [| b l IH]; cbn; [lra |].
    pose proof (exp_pos b). unfold sum in IH. lra. }
  pose proof (exp_pos a). unfold sum in H. lra.
Qed.

(** Termwise comparison behind the sharpening: [top] is a largest logit. *)
Lemma scaled_sum_le (t1 t2 top : R) (l : list R) :
  t1 <= t2 -> Forall (fun v => v <= top) l ->
  exp (t1 * top) * sum (map exp (scaled_logits t2 l))
  <= exp (t2 * top) * sum (map exp (scaled_logits t1 l)).
Proof.
  intros Ht HF. induction HF as [| v l Hv _ IH]; cbn; [lra |].
  fold (scaled_logits t1 l). fold (scaled_logits t2 l).
  fold (sum (map exp (scaled_logits t1 l))). fold (sum (map exp (scaled_logits t2 l))).
  assert (Hterm : exp (t1 * top) * exp (t2 * v) <= exp (t2 * top) * exp (t1 * v)).
  { rewrite <- !exp_plus.
    destruct (Rle_lt_or_eq_dec (t1 * top + t2 * v) (t2 * top + t1 * v)) as [Hlt | Heq].
    - nra.
    - left. now apply exp_increasing.
    - rewrite Heq. lra. }
  lra.
Qed.

(** What the code does for every logits vector: raising [temperature]
    never lowers the probability of a most likely token. *)
Lemma temperature_sharpens (t1 t2 : R) (l : list R) (i : nat) :
  t1 <= t2 -> (i < length l)%nat ->
  Forall (fun v => v <= nth i l 0) l ->
  nth i (Categorical_probs t1 l) 0 <= nth i (Categorical_probs t2 l) 0.
Proof.
  intros Ht Hi HF.
  assert (Hne : forall t, scaled_logits t l <> []).
  { intros t. destruct l; [cbn in Hi; lia | discriminate]. }
  pose proof (sum_exp_pos _ (Hne t1)) as H1.
  pose proof (sum_exp_pos _ (Hne t2)) as H2.
  pose proof (scaled_sum_le t1 t2 (nth i l 0) l Ht HF) as Hs.
  unfold Categorical_probs, softmax.
  assert (Hn : forall t z,
             nth i (map (fun v => exp v / z) (scaled_logits t l)) 0
             = exp (t * nth i l 0) / z).
  { intros t z. unfold scaled_logits. rewrite map_map.
    now rewrite (nth_map_inside (fun v => exp (t * v) / z) 0 0) by exact Hi. }
  rewrite !Hn.
  apply Rmult_le_reg_r with (sum (map exp (scaled_logits t1 l))); [exact H1 |].
  apply Rmult_le_reg_r with (sum (map exp (scaled_logits t2 l))); [exact H2 |].
  field_simplify; lra.
Qed.

End SamplingFacts.

Section SamplingClaims.

Import Sampling.
Local Open Scope R_scope.

(** C2 on the logits (0, ln 2): at temperature 1 the distribution is
    (1/3, 2/3), at temperature 2 it is (1/5, 4/5).  The higher temperature
    gives the sharper distribution, further from the uniform (1/2, 1/2):
    line 244 multiplies the logits by the temperature. *)
Theorem higher_temperature_is_sharper :
  Categorical_probs 1 [0; ln 2] = [1 / 3; 2 / 3]
  /\ Categorical_probs 2 [0; ln 2] = [1 / 5; 4 / 5]
  /\ peak (Categorical_probs 1 [0; ln 2]) = 2 / 3
  /\ peak (Categorical_probs 2 [0; ln 2]) = 4 / 5
  /\ peak (Categorical_probs 1 [0; ln 2]) < peak (Categorical_probs 2 [0; ln 2]).
Proof.
  assert (E2 : exp (ln 2) = 2) by (apply exp_ln; lra).
  assert (E4 : exp (2 * ln 2) = 4).
  { replace (2 * ln 2) with (ln 2 + ln 2) by lra. rewrite exp_plus, E2. lra. }
  assert (P1 : Categorical_probs 1 [0; ln 2] = [1 / 3; 2 / 3]).
  { unfold Categorical_probs, softmax, scaled_logits, sum. cbn [map fold_right].
    rewrite Rmult_0_r, Rmult_1_l, exp_0, E2.
    repeat f_equal; lra. }
  assert (P2 : Categorical_probs 2 [0; ln 2] = [1 / 5; 4 / 5]).
  { unfold Categorical_probs, softmax, scaled_logits, sum. cbn [map fold_right].
    rewrite Rmult_0_r, exp_0, E4.
    repeat f_equal; lra. }
  assert (K1 : peak [1 / 3; 2 / 3] = 2 / 3).
  { unfold peak. cbn [fold_right].
    rewrite (Rmax_left (2 / 3) 0) by lra. apply Rmax_right. lra. }
  assert (K2 : peak [1 / 5; 4 / 5] = 4 / 5).
  { unfold peak. cbn [fold_right].
    rewrite (Rmax_left (4 / 5) 0) by lra. apply Rmax_right. lra. }
  rewrite P1, P2, K1, K2.
  repeat split; lra.
Qed.

End SamplingClaims.

(** ** Generation: frame and determinism *)

Section WorldFacts.

Import Model.
Local Open Scope world_scope.
Context {E : Engine} {C : Collaborators}.

(** A computation that leaves every storage and the mode flag as they
    were, whether it returns or raises. *)
Definition frame {A : Type} (c : M A) : Prop :=
  forall w, heap (snd (c w)) = heap w /\ training (snd (c w)) = training w.

Lemma frame_ret {A : Type} (a : A) : frame (ret a).
Proof. intros w. split; reflexivity. Qed.

Lemma frame_lift {A : Type} (r : result A) : frame (lift r).
Proof. intros w. split; reflexivity. Qed.

Lemma frame_read (l : loc) : frame (read l).
Proof. intros w. split; reflexivity. Qed.

Lemma frame_is_training : frame is_training.
Proof. intros w. split; reflexivity. Qed.

Lemma frame_get_rng : frame get_rng.
Proof. intros w. split; reflexivity. Qed.

Lemma frame_set_rng (g : generator) : frame (set_rng g).
Proof. intros w. split; reflexivity. Qed.

Lemma frame_bind {A B : Type} (c : M A) (k : A -> M B) :
  frame c -> (forall a, frame (k a)) -> frame (bindM c k).
Proof.
  intros Hc Hk w. unfold bindM.
  destruct (Hc w) as [Hh Ht].
  destruct (c w) as [[a | e] w1]; cbn [snd] in *.
  - destruct (Hk a w1) as [Hh' Ht']. split; congruence.
  - split; assumption.
Qed.

Lemma frame_drawing {A : Type} (f : generator -> A * generator) : frame (drawing f).
Proof.
  unfold drawing. apply frame_bind; [apply frame_get_rng |]. intros g.
  apply frame_bind; [apply frame_set_rng |]. intros _. apply frame_ret.
Qed.

Lemma frame_forward (m : NextWordPredictionTransformer) (x : list (list Z)) :
  frame (forward m x).
Proof.
  unfold forward, PositionalEncoding_forward, call_decoder.
  repeat (first
    [ apply frame_ret | apply frame_lift | apply frame_read
    | apply frame_is_training | apply frame_drawing
    | apply frame_bind; [| intros ?]
    | match goal with |- frame (if ?b then _ else _) => destruct b end ]).
Qed.

(** Two worlds that a run on model [m] cannot tell apart: the same
    parameters for [m], the same mode, the same generator state. *)
Definition agree (m : NextWordPredictionTransformer) (w1 w2 : world) : Prop :=
  heap w1 (storage m) = heap w2 (storage m)
  /\ training w1 = training w2
  /\ rng w1 = rng w2.

Definition deterministic {A : Type} (m : NextWordPredictionTransformer) (c : M A) : Prop :=
  forall w1 w2, agree m w1 w2 ->
    fst (c w1) = fst (c w2) /\ agree m (snd (c w1)) (snd (c w2)).

Lemma det_ret {A : Type} m (a : A) : deterministic m (ret a).
Proof. intros w1 w2 H. split; [reflexivity | exact H]. Qed.

Lemma det_lift {A : Type} m (r : result A) : deterministic m (lift r).
Proof. intros w1 w2 H. split; [reflexivity | exact H]. Qed.

Lemma det_read m : deterministic m (read (storage m)).
Proof. intros w1 w2 H. split; [cbn; f_equal; apply H | exact H]. Qed.

Lemma det_is_training m : deterministic m is_training.
Proof. intros w1 w2 H. split; [cbn; f_equal; apply H | exact H]. Qed.

Lemma det_get_rng m : deterministic m get_rng.
Proof. intros w1 w2 H. split; [cbn; f_equal; apply H | exact H]. Qed.

Lemma det_set_rng m (g : generator) : deterministic m (set_rng g).
Proof.
  intros w1 w2 (Hh & Ht & Hg). split; [reflexivity |].
  repeat split; assumption || reflexivity.
Qed.

Lemma det_bind {A B : Type} m (c : M A) (k : A -> M B) :
  deterministic m c -> (forall a, deterministic m (k a)) -> deterministic m (bindM c k).
Proof.
  intros Hc Hk w1 w2 H. unfold bindM.
  destruct (Hc w1 w2 H) as [Hr Hw].
  destruct (c w1) as [[a1 | e1] w1'], (c w2) as [[a2 | e2] w2'];
    cbn [fst snd] in *; try discriminate.
  - injection Hr as <-. now apply Hk.
  - injection Hr as <-. split; [reflexivity | assumption].
Qed.

Lemma det_drawing {A : Type} m (f : generator -> A * generator) :
  deterministic m (drawing f).
Proof.
  unfold drawing. apply det_bind; [apply det_get_rng |]. intros g.
  apply det_bind; [apply det_set_rng |]. intros _. apply det_ret.
Qed.

Lemma det_forward (m : NextWordPredictionTransformer) (x : list (list Z)) :
  deterministic m (forward m x).
Proof.
  unfold forward, PositionalEncoding_forward, call_decoder.
  repeat (first
    [ apply det_ret | apply det_lift | apply det_read
    | apply det_is_training | apply det_drawing
    | apply det_bind; [| intros ?]
    | match goal with |- deterministic _ (if ?b then _ else _) => destruct b end ]).
Qed.

End WorldFacts.

Section GenerateClaims.

Import Model Generate.
Local Open Scope world_scope.
Context {E : Engine} {C : Collaborators}.

Lemma frame_sample_loop (model : NextWordPredictionTransformer) (temperature : R)
  (n : nat) : forall ts : list Z, frame (sample_loop model temperature n ts).
Proof.
  induction n as [| n IH]; intros ts; cbn [sample_loop]; [apply frame_ret |].
  apply frame_bind; [| exact IH].
  unfold sample_next.
  apply frame_bind; [apply frame_forward |]. intros logits.
  apply frame_bind; [apply frame_lift |]. intros last.
  apply frame_bind; [apply frame_drawing |]. intros tok.
  apply frame_ret.
Qed.

Lemma det_sample_loop (model : NextWordPredictionTransformer) (temperature : R)
  (n : nat) : forall ts : list Z, deterministic model (sample_loop model temperature n ts).
Proof.
  induction n as [| n IH]; intros ts; cbn [sample_loop]; [apply det_ret |].
  apply det_bind; [| exact IH].
  unfold sample_next.
  apply det_bind; [apply det_forward |]. intros logits.
  apply det_bind; [apply det_lift |]. intros last.
  apply det_bind; [apply det_drawing |]. intros tok.
  apply det_ret.
Qed.

(** Lines 234-237 put the world in a state that depends on the seed and on
    the storages only. *)
Lemma generate_tokens_prelude (model : NextWordPredictionTransformer) (prompt : string)
  (output_length : Z) (temperature : R) (random_seed : Z) (w : world) :
  generate_tokens model prompt output_length temperature random_seed w
  = (ts <~ sample_loop model temperature (Z.to_nat output_length) (tokenizer_call prompt) ;;
     ret (tokenizer_call prompt, ts))
      {| heap := heap w; training := false; rng := seed_generator random_seed |}.
Proof. reflexivity. Qed.

(** C9: two invocations of [generate] with the same model weights, prompt,
    temperature, output length and seed return the same token sequence and
    the same string, whatever the state of the global generator and the
    mode of the model were before each call. *)
Theorem generate_deterministic (model : NextWordPredictionTransformer) (prompt : string)
  (output_length : Z) (temperature : R) (random_seed : Z) (w1 w2 : world) :
  heap w1 (storage model) = heap w2 (storage model) ->
  fst (generated_tokens model prompt output_length temperature random_seed w1)
  = fst (generated_tokens model prompt output_length temperature random_seed w2)
  /\ fst (generate model prompt output_length temperature random_seed w1)
     = fst (generate model prompt output_length temperature random_seed w2).
Proof.
  intros Hw.
  assert (Hloop : deterministic model
                    (ts <~ sample_loop model temperature (Z.to_nat output_length)
                             (tokenizer_call prompt) ;;
                     ret (tokenizer_call prompt, ts))).
  { apply det_bind; [apply det_sample_loop | intros ts; apply det_ret]. }
  assert (Hag : fst (generate_tokens model prompt output_length temperature random_seed w1)
                = fst (generate_tokens model prompt output_length temperature random_seed w2)).
  { rewrite !generate_tokens_prelude. apply Hloop.
    split; [exact Hw | split; reflexivity]. }
  unfold generated_tokens, generate, bindM.
  destruct (generate_tokens model prompt output_length temperature random_seed w1)
    as [[pt1 | e1] u1],
    (generate_tokens model prompt output_length temperature random_seed w2)
    as [[pt2 | e2] u2]; cbn [fst] in Hag; try discriminate Hag.
  - injection Hag as <-. split; reflexivity.
  - injection Hag as <-. split; reflexivity.
Qed.

(** C10: [generate] leaves the contents of every storage, and so every
    parameter of the model, as they were before the call, whether it
    returns or raises; the only change to the model is its mode, which is
    evaluation afterwards. *)
Theorem generate_preserves_parameters (model : NextWordPredictionTransformer)
  (prompt : string) (output_length : Z) (temperature : R) (random_seed : Z) (w : world) :
  let w' := snd (generate model prompt output_length temperature random_seed w) in
  heap w' (storage model) = heap w (storage model)
  /\ heap w' = heap w
  /\ training w' = false.
Proof.
  cbv zeta.
  assert (Hf : frame (ts <~ sample_loop model temperature (Z.to_nat output_length)
                               (tokenizer_call prompt) ;;
                      pt <~ ret (tokenizer_call prompt, ts) ;;
                      ret (format_output prompt (fst pt) (snd pt)))).
  { apply frame_bind; [apply frame_sample_loop |]. intros ts.
    apply frame_bind; [apply frame_ret |]. intros pt. apply frame_ret. }
  specialize (Hf {| heap := heap w; training := false;
                    rng := seed_generator random_seed |}).
  cbn [heap training] in Hf.
  assert (Heq : generate model prompt output_length temperature random_seed w
                = (ts <~ sample_loop model temperature (Z.to_nat output_length)
                            (tokenizer_call prompt) ;;
                   pt <~ ret (tokenizer_call prompt, ts) ;;
                   ret (format_output prompt (fst pt) (snd pt)))
                    {| heap := heap w; training := false;
                       rng := seed_generator random_seed |}).
  { unfold generate. unfold bindM at 1. rewrite generate_tokens_prelude.
    unfold bindM.
    destruct (sample_loop model temperature (Z.to_nat output_length)
                (tokenizer_call prompt) _) as [[ts | e] u]; reflexivity. }
  rewrite Heq. destruct Hf as [Hh Ht].
  split; [now rewrite Hh | split; assumption].
Qed.

End GenerateClaims.

Lemma generate_deterministic_witness :
  fst (@Generate.generate Toy.engine Toy.collaborators Toy.model "ab" 3 1%R 42
         (@Model.Build_world Toy.engine (fun l => if (l =? 0)%nat then 0%Z else 9%Z) true 7%Z))
  = fst (@Generate.generate Toy.engine Toy.collaborators Toy.model "ab" 3 1%R 42
           Toy.world0).
Proof.
  apply (@generate_deterministic Toy.engine Toy.collaborators Toy.model "ab" 3 1%R 42
           (@Model.Build_world Toy.engine (fun l => if (l =? 0)%nat then 0%Z else 9%Z) true 7%Z)
           Toy.world0).
  reflexivity.
Defined.

(** ** Training: the best checkpoint *)

Section PyFacts.

Lemma ltb_irrefl (x : float) : PrimFloat.ltb x x = false.
Proof.
  rewrite ltb_spec. unfold SFltb, SFcompare.
  destruct (Prim2SF x) as [s | s | | s m e]; try reflexivity.
  - destruct s; reflexivity.
  - destruct s; rewrite ?Z.compare_refl; try reflexivity;
      rewrite ?Pos.compare_cont_refl; reflexivity.
Qed.

Definition keys (d : Py.dict) : list Z := map fst d.

Lemma dict_set_fresh (k : Z) (v : float) (d : Py.dict) :
  ~ In k (keys d) -> Py.dict_set k v d = d ++ [(k, v)].
Proof.
  induction d as [| [k' v'] d IH]; intros Hk; [reflexivity |].
  cbn [Py.dict_set]. cbn in Hk.
  destruct (k' =? k)%Z eqn:He.
  - apply Z.eqb_eq in He. tauto.
  - cbn. rewrite IH by tauto. reflexivity.
Qed.

Lemma dict_get_set_same (k : Z) (v : float) (d : Py.dict) :
  ~ In k (keys d) -> Py.dict_get k (Py.dict_set k v d) = Ok v.
Proof.
  induction d as [| [k' v'] d IH]; intros Hk; cbn.
  - now rewrite Z.eqb_refl.
  - cbn in Hk. destruct (k' =? k)%Z eqn:He.
    + apply Z.eqb_eq in He. tauto.
    + cbn. rewrite He. apply IH. tauto.
Qed.

Lemma dict_get_set_other (k k0 : Z) (v : float) (d : Py.dict) :
  k <> k0 -> Py.dict_get k0 (Py.dict_set k v d) = Py.dict_get k0 d.
Proof.
  intros Hk. induction d as [| [k' v'] d IH]; cbn.
  - apply Z.eqb_neq in Hk. now rewrite Hk.
  - destruct (k' =? k)%Z eqn:He; cbn.
    + apply Z.eqb_eq in He. subst k'.
      apply Z.eqb_neq in Hk. now rewrite Hk.
    + destruct (k' =? k0)%Z; [reflexivity | exact IH].
Qed.

(** The minimum of a list never compares above its last item. *)
Lemma last_not_below_min (l : list float) (v m : float) :
  Py.min (l ++ [v]) = Ok m -> PrimFloat.ltb v m = false.
Proof.
  destruct l as [| a l]; cbn.
  - intros H. injection H as <-. apply ltb_irrefl.
  - rewrite fold_left_app. cbn [fold_left].
    intros H. injection H as <-.
    set (m' := fold_left (fun m x => if PrimFloat.ltb x m then x else m) l a).
    destruct (PrimFloat.ltb v m') eqn:Hlt; [apply ltb_irrefl | exact Hlt].
Qed.

Lemma min_nonempty (l : list float) (v : float) : exists m, Py.min (l ++ [v]) = Ok m.
Proof. destruct l; cbn; eexists; reflexivity. Qed.

Lemma range_from_1_cons (n : Z) :
  (1 <= n)%Z ->
  exists rest, Py.range_from_1 n = 1%Z :: rest
               /\ NoDup rest /\ forall e, In e rest -> (2 <= e)%Z.
Proof.
  intros Hn. unfold Py.range_from_1.
  destruct (Z.to_nat n) as [| k] eqn:Hk; [lia |].
  cbn [seq map]. exists (map Z.of_nat (seq 2 k)).
  split; [reflexivity | split].
  - assert (Hnd : forall l : list nat, NoDup l -> NoDup (map Z.of_nat l)).
    { induction 1 as [| a l Ha _ IH]; cbn; constructor; [| exact IH].
      intros Hin. apply in_map_iff in Hin. destruct Hin as (b & Hb & Hin).
      apply Nat2Z.inj in Hb. now subst b. }
    apply Hnd, seq_NoDup.
  - intros e He. apply in_map_iff in He. destruct He as (i & <- & Hi).
    apply in_seq in Hi. lia.
Qed.

Lemma range_from_1_empty (n : Z) : (n <= 0)%Z -> Py.range_from_1 n = [].
Proof.
  intros Hn. unfold Py.range_from_1.
  replace (Z.to_nat n) with 0%nat by lia. reflexivity.
Qed.

End PyFacts.

Section TrainFacts.

Import Model Train.
Local Open Scope world_scope.
Context {E : Engine} {C : Collaborators}.

Lemma bindM_inv {A B : Type} (c : M A) (k : A -> M B) (w w' : world) (b : B) :
  bindM c k w = (Ok b, w') ->
  exists a w1, c w = (Ok a, w1) /\ k a w1 = (Ok b, w').
Proof.
  unfold bindM. destruct (c w) as [[a | e] w1]; intros H.
  - now exists a, w1.
  - discriminate H.
Qed.

Lemma lift_inv {A : Type} (r : result A) (w w' : world) (a : A) :
  lift r w = (Ok a, w') -> r = Ok a /\ w' = w.
Proof. unfold lift. intros H. injection H as -> ->. now split. Qed.

(** The decision at epoch 1 takes the snapshot. *)
Lemma checkpoint_decision_first (model : NextWordPredictionTransformer)
  (d : Py.dict) (best r : option checkpoint) :
  checkpoint_decision model 1 d best = Ok r ->
  exists v, Py.dict_get 1 d = Ok v
            /\ r = Some {| ck_state_dict := storage model; ck_loss := v; ck_epoch := 1 |}.
Proof.
  unfold checkpoint_decision.
  destruct (Py.dict_get 1 d) as [v |]; [| discriminate].
  cbn. intros H. injection H as <-. now exists v.
Qed.

(** At a later epoch the loss just recorded is compared with a minimum
    that already counts it: the comparison is false and the snapshot
    stays. *)
Lemma checkpoint_decision_later (model : NextWordPredictionTransformer)
  (epoch : Z) (v : float) (d : Py.dict) (best : option checkpoint) :
  epoch <> 1%Z -> ~ In epoch (keys d) ->
  checkpoint_decision model epoch (Py.dict_set epoch v d) best = Ok best.
Proof.
  intros H1 Hfresh. unfold checkpoint_decision.
  rewrite dict_get_set_same by exact Hfresh. cbn [bind].
  apply Z.eqb_neq in H1. rewrite H1.
  rewrite dict_set_fresh by exact Hfresh.
  unfold Py.values. rewrite map_app. cbn [map snd].
  destruct (min_nonempty (map snd d) v) as [m Hm].
  rewrite Hm. cbn [bind].
  now rewrite (last_not_below_min _ _ _ Hm).
Qed.

(** What one pass of the epoch loop does to the history and the snapshot. *)
Lemma epoch_body_inv (model : NextWordPredictionTransformer)
  (lrs_fn : Z -> result R) (clip_grads : option R)
  (train_data val_data : list batch) (epoch : Z) (s s' : progress) (w w' : world) :
  epoch_body model lrs_fn clip_grads train_data val_data epoch s w = (Ok s', w') ->
  exists vl,
    val_losses s' = Py.dict_set epoch vl (val_losses s)
    /\ checkpoint_decision model epoch (val_losses s') (best_checkpoint s)
       = Ok (best_checkpoint s').
Proof.
  unfold epoch_body. intros H.
  apply bindM_inv in H. destruct H as (r & w1 & _ & H).
  apply bindM_inv in H. destruct H as (loss_val & w2 & _ & H).
  apply bindM_inv in H. destruct H as (tl & w3 & _ & H).
  apply bindM_inv in H. destruct H as (vl & w4 & _ & H).
  apply bindM_inv in H. destruct H as (best & w5 & Hbest & H).
  apply lift_inv in Hbest. destruct Hbest as [Hbest _].
  unfold ret in H. injection H as <- _.
  exists vl. cbn [val_losses best_checkpoint]. now split.
Qed.

Lemma keys_dict_set_fresh (k : Z) (v : float) (d : Py.dict) :
  ~ In k (keys d) -> keys (Py.dict_set k v d) = keys d ++ [k].
Proof.
  intros H. rewrite dict_set_fresh by exact H.
  unfold keys. now rewrite map_app.
Qed.

(** Epochs after the first never touch the snapshot. *)
Lemma epoch_loop_later (model : NextWordPredictionTransformer)
  (lrs_fn : Z -> result R) (clip_grads : option R) (train_data val_data : list batch) :
  forall (epochs : list Z) (s s' : progress) (w w' : world),
    epoch_loop model lrs_fn clip_grads train_data val_data epochs s w = (Ok s', w') ->
    ~ In 1%Z epochs -> NoDup epochs ->
    (forall e, In e epochs -> ~ In e (keys (val_losses s))) ->
    best_checkpoint s' = best_checkpoint s
    /\ Py.dict_get 1 (val_losses s') = Py.dict_get 1 (val_losses s).
Proof.
  induction epochs as [| epoch epochs IH]; intros s s' w w' H Hno1 Hnd Hfresh.
  - cbn in H. unfold ret in H. injection H as <- _. now split.
  - cbn [epoch_loop] in H.
    apply bindM_inv in H. destruct H as (s1 & w1 & Hbody & H).
    apply epoch_body_inv in Hbody. destruct Hbody as (vl & Hvl & Hdec).
    assert (Hne : epoch <> 1%Z) by (intros ->; apply Hno1; now left).
    assert (Hfr : ~ In epoch (keys (val_losses s))) by (apply Hfresh; now left).
    rewrite Hvl in Hdec.
    rewrite checkpoint_decision_later in Hdec by assumption.
    injection Hdec as Hbest.
    assert (Hget : Py.dict_get 1 (val_losses s1) = Py.dict_get 1 (val_losses s)).
    { rewrite Hvl. now apply dict_get_set_other. }
    destruct (_early_stop (val_losses s1)).
    + unfold ret in H. injection H as <- _. split; [now symmetry | exact Hget].
    + inversion Hnd as [| ? ? Hnotin Hnd']; subst.
      apply IH in H; [| intros Hin; apply Hno1; now right | exact Hnd' |].
      * destruct H as [Hb Hg]. split; congruence.
      * intros e He. rewrite Hvl, keys_dict_set_fresh by exact Hfr.
        intros Hin. apply in_app_or in Hin. destruct Hin as [Hin | [-> | []]].
        -- apply (Hfresh e); [now right | exact Hin].
        -- contradiction.
Qed.

(** Whatever the losses of the later epochs are, the snapshot that the
    loop ends with is the one taken at epoch 1. *)
Lemma epoch_loop_keeps_first (model : NextWordPredictionTransformer)
  (lrs_fn : Z -> result R) (clip_grads : option R) (train_data val_data : list batch)
  (n_epochs : Z) (s s' : progress) (w w' : world) :
  (1 <= n_epochs)%Z -> val_losses s = [] ->
  epoch_loop model lrs_fn clip_grads train_data val_data (Py.range_from_1 n_epochs) s w
  = (Ok s', w') ->
  exists v,
    Py.dict_get 1 (val_losses s') = Ok v
    /\ best_checkpoint s'
       = Some {| ck_state_dict := storage model; ck_loss := v; ck_epoch := 1 |}.
Proof.
  intros Hn Hempty H.
  destruct (range_from_1_cons n_epochs Hn) as (rest & Hr & Hnd & Hge).
  rewrite Hr in H. cbn [epoch_loop] in H.
  apply bindM_inv in H. destruct H as (s1 & w1 & Hbody & H).
  apply epoch_body_inv in Hbody. destruct Hbody as (vl & Hvl & Hdec).
  apply checkpoint_decision_first in Hdec. destruct Hdec as (v & Hv & Hbest).
  exists v.
  destruct (_early_stop (val_losses s1)).
  - unfold ret in H. injection H as <- _. now split.
  - apply epoch_loop_later in H; [| | exact Hnd |].
    + destruct H as [Hb Hg]. split; congruence.
    + intros Hin. apply Hge in Hin. lia.
    + intros e He. rewrite Hvl, Hempty. cbn.
      apply Hge in He. intros [<- | []]. lia.
Qed.

Lemma Adam_nonneg (learning_rate : R) :
  (0 <= learning_rate)%R ->
  Adam learning_rate
  = Ok {| initial_lr := learning_rate;
          lr := learning_rate;
          moments := adam_init;
          last_epoch := (-1)%Z |}.
Proof.
  intros H. unfold Adam. destruct (Rlt_dec learning_rate 0); [lra | reflexivity].
Qed.

Lemma Adam_inv (learning_rate : R) (t : trainer) :
  Adam learning_rate = Ok t ->
  (0 <= learning_rate)%R
  /\ t = {| initial_lr := learning_rate;
            lr := learning_rate;
            moments := adam_init;
            last_epoch := (-1)%Z |}.
Proof.
  unfold Adam. destruct (Rlt_dec learning_rate 0); [discriminate |].
  intros H. injection H as <-. split; [lra | reflexivity].
Qed.

Lemma Adam_negative (learning_rate : R) :
  (learning_rate < 0)%R -> Adam learning_rate = Raise ValueError.
Proof.
  intros H. unfold Adam. destruct (Rlt_dec learning_rate 0); [reflexivity | lra].
Qed.

End TrainFacts.

(** Evaluating a closed run of [train]: the check of the learning rate is
    decided over the reals, the rest computes. *)
Ltac evaluate_run :=
  cbv beta delta [Train.train Train.train_loop Train.setup];
  rewrite Adam_nonneg by lra;
  lazy; reflexivity.

Section TrainClaims.

Import Model Train.
Local Open Scope world_scope.
Context {E : Engine} {C : Collaborators}.

Lemma setup_inv (train_data : list batch) (n_epochs : Z) (learning_rate : R)
  (warmup_epochs : float) (random_seed : Z) (w w1 : world)
  (st : (Z -> result R) * progress) :
  setup train_data n_epochs learning_rate warmup_epochs random_seed w = (Ok st, w1) ->
  val_losses (snd st) = [] /\ best_checkpoint (snd st) = None.
Proof.
  unfold setup. intros H.
  apply bindM_inv in H. destruct H as (u1 & w2 & _ & H).
  apply bindM_inv in H. destruct H as (u2 & w3 & _ & H).
  apply bindM_inv in H. destruct H as (optimizer & w4 & _ & H).
  apply bindM_inv in H. destruct H as (n_warmup_steps & w5 & _ & H).
  apply bindM_inv in H. destruct H as (lrs & w6 & _ & H).
  unfold ret in H. injection H as <- _. now split.
Qed.

(** C4, amended: in every run in which at least one epoch completes
    ([n_epochs >= 1] and the epoch loop ends without an exception) the
    checkpoint is bound, it is the model's own state dictionary, and the
    restoration returns; [train] has no guard for the other case: when the
    set-up succeeds and the range of epochs is empty ([n_epochs <= 0]) it
    reaches line 217 with [best_checkpoint] unbound and raises. *)
Theorem restore_needs_one_epoch (model : NextWordPredictionTransformer)
  (train_data val_data : list batch) (n_epochs : Z) (learning_rate : R)
  (warmup_epochs : float) (clip_grads : option R) (random_seed : Z) (w : world) :
  (forall (s : progress) (w1 : world),
      (1 <= n_epochs)%Z ->
      train_loop model train_data val_data n_epochs learning_rate warmup_epochs
        clip_grads random_seed w = (Ok s, w1) ->
      exists ck w2,
        best_checkpoint s = Some ck
        /\ ck_state_dict ck = state_dict model
        /\ finalize model s w1 = (Ok (train_losses s, val_losses s), w2)
        /\ train model train_data val_data n_epochs learning_rate warmup_epochs
             clip_grads random_seed w = (Ok (train_losses s, val_losses s), w2))
  /\ (forall (st : (Z -> result R) * progress) (w1 : world),
        (n_epochs <= 0)%Z ->
        setup train_data n_epochs learning_rate warmup_epochs random_seed w = (Ok st, w1) ->
        train model train_data val_data n_epochs learning_rate warmup_epochs
          clip_grads random_seed w = (Raise UnboundLocalError, w1)).
Proof.
  split.
  - intros s w1 Hn Hloop.
    pose proof Hloop as Hloop'. unfold train_loop in Hloop'.
    apply bindM_inv in Hloop'. destruct Hloop' as (st & w0 & Hsetup & Hepochs).
    apply setup_inv in Hsetup. destruct Hsetup as [Hempty _].
    destruct (epoch_loop_keeps_first _ _ _ _ _ _ _ _ _ _ Hn Hempty Hepochs)
      as (v & _ & Hbest).
    eexists. eexists.
    split; [exact Hbest |]. split; [reflexivity |].
    assert (Hfin : finalize model s w1
                   = (Ok (train_losses s, val_losses s),
                      snd (load_state_dict model (storage model) w1))).
    { unfold finalize. rewrite Hbest. reflexivity. }
    split; [exact Hfin |].
    unfold train, bindM at 1. rewrite Hloop. exact Hfin.
  - intros st w1 Hn Hsetup.
    unfold train, train_loop, bindM at 1 2. rewrite Hsetup.
    rewrite range_from_1_empty by exact Hn. cbn [epoch_loop ret].
    apply setup_inv in Hsetup. destruct Hsetup as [_ Hnone].
    unfold finalize. rewrite Hnone. reflexivity.
Qed.

End TrainClaims.

(** C4, as stated, fails: nothing in [train] requires a completed epoch.
    With [n_epochs = -1] the loop body never runs and line 217 reads the
    unbound [best_checkpoint]; with [n_epochs = 0] the run stops earlier,
    in the scheduler's constructor, on the division by [max_steps = 0]. *)
Lemma train_reads_unbound_checkpoint :
  fst (@Train.train Toy.engine Toy.collaborators Toy.model Toy.data Toy.data
         (-1) 1%R 1%float None 42 Toy.world0) = Raise UnboundLocalError
  /\ fst (@Train.train Toy.engine Toy.collaborators Toy.model Toy.data Toy.data
            0 1%R 1%float None 42 Toy.world0) = Raise ZeroDivisionError.
Proof. split; evaluate_run. Qed.

Lemma restore_needs_one_epoch_witness :
  (exists r w2,
      @Train.train Toy.engine Toy.collaborators Toy.model Toy.data Toy.data
        3 1%R 1%float None 42 Toy.world0 = (Ok r, w2))
  /\ (exists w1,
         @Train.train Toy.engine Toy.collaborators Toy.model Toy.data Toy.data
           (-1) 1%R 1%float None 42 Toy.world0 = (Raise UnboundLocalError, w1)).
Proof.
  split.
  - destruct (@restore_needs_one_epoch Toy.engine Toy.collaborators Toy.model
                Toy.data Toy.data 3 1%R 1%float None 42 Toy.world0) as [Hok _].
    assert (Hrun : is_ok (fst (@Train.train_loop Toy.engine Toy.collaborators Toy.model
                                 Toy.data Toy.data 3 1%R 1%float None 42 Toy.world0)) = true)
      by evaluate_run.
    destruct (@Train.train_loop Toy.engine Toy.collaborators Toy.model Toy.data Toy.data
                3 1%R 1%float None 42 Toy.world0) as [[s | e] w1];
      [| discriminate Hrun].
    destruct (Hok s w1) as (ck & w2 & _ & _ & _ & Htrain); [lia | reflexivity |].
    eexists. eexists. exact Htrain.
  - destruct (@restore_needs_one_epoch Toy.engine Toy.collaborators Toy.model
                Toy.data Toy.data (-1) 1%R 1%float None 42 Toy.world0) as [_ Hraise].
    assert (Hrun : is_ok (fst (@Train.setup Toy.engine Toy.data
                                 (-1) 1%R 1%float 42 Toy.world0)) = true)
      by evaluate_run.
    destruct (@Train.setup Toy.engine Toy.data
                (-1) 1%R 1%float 42 Toy.world0) as [[st | e] w1];
      [| discriminate Hrun].
    exists w1. apply (Hraise st w1); [lia | reflexivity].
Defined.

(** C1 on a run of three epochs whose validation losses are 2, 1 and 3
    (one training batch and one validation batch per epoch).  After the
    loop the history is [2; 1; 3] with minimum 1, reached at epoch 2, yet
    the retained checkpoint is the one of epoch 1 with loss 2: line 206
    compares the loss of the epoch with a minimum that already counts it,
    so the snapshot is never replaced.  The snapshot holds the model's own
    storage, so the restoration changes nothing: the model that [train]
    leaves has the parameters of the last epoch and validation loss 3. *)
Theorem train_keeps_first_checkpoint :
  let run_loop := @Train.train_loop Toy.engine Toy.collaborators Toy.model
                    Toy.data Toy.data 3 1%R 1%float None 42 Toy.world0 in
  let run := @Train.train Toy.engine Toy.collaborators Toy.model
               Toy.data Toy.data 3 1%R 1%float None 42 Toy.world0 in
  (exists s,
      fst run_loop = Ok s
      /\ Train.val_losses s = [(1%Z, 2%float); (2%Z, 1%float); (3%Z, 3%float)]
      /\ Py.min (Py.values (Train.val_losses s)) = Ok 1%float
      /\ Train.best_checkpoint s
         = Some {| Train.ck_state_dict := 0%nat;
                   Train.ck_loss := 2%float;
                   Train.ck_epoch := 1%Z |})
  /\ fst run = Ok ([(1%Z, 3%float); (2%Z, 2%float); (3%Z, 1%float)],
                   [(1%Z, 2%float); (2%Z, 1%float); (3%Z, 3%float)])
  /\ Model.heap (snd run) (Model.storage Toy.model) = 3%Z
  /\ fst (@Train._val_step Toy.engine Toy.collaborators [[1%Z; 2%Z]] [[2%Z; 3%Z]]
            Toy.model (snd run)) = Ok 3%float.
Proof.
  cbv zeta. split; [| split; [| split]].
  - assert (Hrun : is_ok (fst (@Train.train_loop Toy.engine Toy.collaborators Toy.model
                                 Toy.data Toy.data 3 1%R 1%float None 42 Toy.world0)) = true)
      by evaluate_run.
    assert (Hval : match fst (@Train.train_loop Toy.engine Toy.collaborators Toy.model
                                Toy.data Toy.data 3 1%R 1%float None 42 Toy.world0) with
                   | Ok s => Some (Train.val_losses s, Train.best_checkpoint s)
                   | Raise _ => None
                   end
                   = Some ([(1%Z, 2%float); (2%Z, 1%float); (3%Z, 3%float)],
                           Some {| Train.ck_state_dict := 0%nat;
                                   Train.ck_loss := 2%float;
                                   Train.ck_epoch := 1%Z |}))
      by evaluate_run.
    destruct (fst (@Train.train_loop Toy.engine Toy.collaborators Toy.model
                     Toy.data Toy.data 3 1%R 1%float None 42 Toy.world0)) as [s | e];
      [| discriminate Hrun].
    exists s. injection Hval as Hv Hb.
    split; [reflexivity |]. split; [exact Hv |]. split; [| exact Hb].
    rewrite Hv. lazy. reflexivity.
  - evaluate_run.
  - evaluate_run.
  - evaluate_run.
Qed.

(** C3: [warmup_schedule] has no special case for [warmup_steps = 0].  At
    step 0 the test [step <= warmup_steps] holds, the multiplicative branch
    is taken and [0 / 0] raises ZeroDivisionError; whatever [max_steps] is,
    nothing is returned.  From step 1 on the branch is skipped and the
    factor is the pure cosine term, as the claim says.  Step 0 is the step
    of the scheduler's constructor, and [train] reaches it with its own
    default [warmup_epochs = 0.5] on a loader of one batch, where
    [floor(0.5 * 1) = 0]: the call raises before the first batch. *)
Theorem warmup_schedule_raises_without_warmup :
  Schedule64.warmup_schedule 0 0 10 = Raise ZeroDivisionError
  /\ (forall max_steps : Z, is_ok (Schedule64.warmup_schedule 0 0 max_steps) = false)
  /\ (forall step max_steps : Z,
        (1 <= step < 2 ^ 53)%Z -> (0 < Z.abs max_steps < 2 ^ 53)%Z ->
        Schedule64.warmup_schedule step 0 max_steps
        = Ok (Schedule.cosine_term step max_steps))
  /\ Train.count_warmup_steps 0.5%float 1 = Ok 0%Z
  /\ fst (@Train.train Toy.engine Toy.collaborators Toy.model Toy.data Toy.data
            3 (1 / 1000)%R 0.5%float None 42 Toy.world0) = Raise ZeroDivisionError.
Proof.
  split; [| split; [| split; [| split]]].
  - rewrite warmup_schedule_exact by (vm_compute; reflexivity). reflexivity.
  - apply warmup_schedule_zero_zero.
  - intros step max_steps Hs Hm.
    rewrite warmup_schedule_exact by lia.
    rewrite warmup_schedule_defined by lia.
    unfold Schedule.factor_spec.
    destruct (step <=? 0)%Z eqn:Hle; [apply Z.leb_le in Hle; lia | reflexivity].
  - vm_compute. reflexivity.
  - evaluate_run.
Qed.

Lemma make_mask_causal_witness :
  let causal := fst (Masks._make_mask 0 1 [[5; 6; 7]; [1; 2; 0]]%Z) in
  length causal = 2%nat
  /\ Tensor.entry3 causal 1 0 2 = Some true
  /\ Tensor.entry3 causal 1 2 0 = Some false
  /\ Tensor.entry3 causal 0 1 1 = Some false.
Proof.
  destruct (@make_mask_causal Toy.engine Toy.collaborators Toy.model
              [[5; 6; 7]; [1; 2; 0]]%Z 0%Z) as (Hlen & Hentry & _).
  split; [exact Hlen |].
  split; [apply (Hentry 1 0 2)%nat; cbn; lia |].
  split; [apply (Hentry 1 2 0)%nat; cbn; lia |].
  apply (Hentry 0 1 1)%nat; cbn; lia.
Defined.

(** * Further properties *)

(** ** The schedule: errors, range, end value, decay *)

Section ScheduleMore.

Import Schedule.
Local Open Scope R_scope.

Lemma cosine_term_range (step max_steps : Z) : 0 <= cosine_term step max_steps <= 1.
Proof.
  unfold cosine_term.
  pose proof (COS_bound (PI * IZR step / IZR max_steps)) as [Hl Hu]. lra.
Qed.


(** A returned factor means that neither denominator was zero. *)
Lemma warmup_schedule_ok_inv (step warmup_steps max_steps : Z) (f : R) :
  warmup_schedule step warmup_steps max_steps = Ok f ->
  max_steps <> 0%Z /\ (warmup_steps <> 0 \/ warmup_steps < step)%Z.
Proof.
  unfold warmup_schedule, int_truediv, float_div_int.
  destruct (max_steps =? 0)%Z eqn:Hm; cbn [bind]; [discriminate |].
  apply Z.eqb_neq in Hm. intros H. split; [exact Hm |].
  destruct (step <=? warmup_steps)%Z eqn:Hle.
  - destruct (warmup_steps =? 0)%Z eqn:Hw; cbn [bind] in H; [discriminate H |].
    left. now apply Z.eqb_neq.
  - right. now apply Z.leb_gt.
Qed.

(** The exceptions of the function over the reals: its two zero
    denominators. *)
Lemma warmup_schedule_raise_inv (step warmup_steps max_steps : Z) :
  (warmup_schedule step warmup_steps max_steps = Raise ZeroDivisionError
   <-> (max_steps = 0 \/ (step <= warmup_steps /\ warmup_steps = 0))%Z)
  /\ (forall e : exn,
        warmup_schedule step warmup_steps max_steps = Raise e -> e = ZeroDivisionError).
Proof.
  unfold warmup_schedule, int_truediv, float_div_int.
  destruct (max_steps =? 0)%Z eqn:Hm; cbn [bind].
  - apply Z.eqb_eq in Hm. split.
    + split; [intros _; now left | reflexivity].
    + intros e H. now injection H as <-.
  - apply Z.eqb_neq in Hm.
    destruct (step <=? warmup_steps)%Z eqn:Hle.
    + apply Z.leb_le in Hle.
      destruct (warmup_steps =? 0)%Z eqn:Hw; cbn [bind].
      * apply Z.eqb_eq in Hw. split.
        -- split; [intros _; right; now split | reflexivity].
        -- intros e H. now injection H as <-.
      * apply Z.eqb_neq in Hw. split.
        -- split; [discriminate | intros [H | [_ H]]; contradiction].
        -- discriminate.
    + apply Z.leb_gt in Hle. split.
      * split; [discriminate | intros [H | [H _]]; [contradiction | lia]].
      * discriminate.
Qed.

(** X1: On the integers that binary64 holds exactly (below [2^53] in
    magnitude) [warmup_schedule] raises exactly on its two zero
    denominators, [max_steps = 0], or [warmup_steps = 0] at a step that
    takes the warm-up branch, and the exception is always a division by
    zero.  Beyond the range of floats it raises OverflowError: a [step] of
    magnitude [2^1024] or more does not convert. *)
Theorem warmup_schedule_raises_iff (step warmup_steps max_steps : Z) :
  ((Z.abs step < 2 ^ 53)%Z -> (Z.abs max_steps < 2 ^ 53)%Z ->
   (Schedule64.warmup_schedule step warmup_steps max_steps = Raise ZeroDivisionError
    <-> (max_steps = 0 \/ (step <= warmup_steps /\ warmup_steps = 0))%Z)
   /\ (forall e : exn,
         Schedule64.warmup_schedule step warmup_steps max_steps = Raise e ->
         e = ZeroDivisionError))
  /\ ((2 ^ 1024 <= Z.abs step)%Z ->
      Schedule64.warmup_schedule step warmup_steps max_steps = Raise OverflowError).
Proof.
  split.
  - intros Hs Hm. rewrite (warmup_schedule_exact step warmup_steps max_steps Hs Hm).
    apply warmup_schedule_raise_inv.
  - intros Hbig. unfold Schedule64.warmup_schedule, Schedule64.cosine_argument.
    replace (Schedule64.converts step) with false; [reflexivity |].
    symmetry. unfold Schedule64.converts. apply Z.ltb_ge.
    assert (Hc : (Schedule64.float_overflow <=? 2 ^ 1024)%Z = true)
      by (vm_compute; reflexivity).
    apply Z.leb_le in Hc. lia.
Qed.

Lemma warmup_schedule_raises_iff_witness :
  Schedule64.warmup_schedule 0 0 10 = Raise ZeroDivisionError
  /\ Schedule64.warmup_schedule (10 ^ 400) 5 10 = Raise OverflowError.
Proof.
  destruct (warmup_schedule_raises_iff 0 0 10) as [Hin _].
  destruct Hin as [Hiff _]; [reflexivity | reflexivity |].
  destruct (warmup_schedule_raises_iff (10 ^ 400) 5 10) as [_ Hout].
  split.
  - apply Hiff. right. split; [lia | reflexivity].
  - apply Hout. apply Z.leb_le. vm_compute. reflexivity.
Defined.

(** X2: From step 0 on, a factor that is returned lies between 0 and 1: the
    learning rate never exceeds the base rate and is never negative. *)
Theorem warmup_schedule_range (step warmup_steps max_steps : Z) (f : R) :
  (0 <= step)%Z ->
  warmup_schedule step warmup_steps max_steps = Ok f ->
  0 <= f <= 1.
Proof.
  intros Hs H.
  destruct (warmup_schedule_ok_inv _ _ _ _ H) as [Hm Hw].
  rewrite warmup_schedule_defined in H by assumption.
  injection H as <-. unfold factor_spec.
  pose proof (cosine_term_range step max_steps) as Hc.
  destruct (step <=? warmup_steps)%Z eqn:Hle; [| exact Hc].
  apply Z.leb_le in Hle.
  assert (HW : 0 < IZR warmup_steps) by (apply IZR_lt; lia).
  assert (HS : 0 <= IZR step) by (apply IZR_le; lia).
  assert (HSW : IZR step <= IZR warmup_steps) by (apply IZR_le; lia).
  assert (Hq : 0 <= IZR step / IZR warmup_steps <= 1).
  { split.
    - apply Rmult_le_pos; [exact HS | left; now apply Rinv_0_lt_compat].
    - apply Rmult_le_reg_r with (IZR warmup_steps); [exact HW |].
      unfold Rdiv. rewrite Rmult_assoc, Rinv_l by lra. lra. }
  nra.
Qed.

Lemma warmup_schedule_range_witness : 0 <= factor_spec 1 2 3 <= 1.
Proof.
  apply (warmup_schedule_range 1 2 3 (factor_spec 1 2 3)); [lia |].
  apply warmup_schedule_defined; [lia | left; lia].
Defined.





End ScheduleMore.

(** ** The masks together: padding keys, full rows, normalisation *)

Section MaskMore.

Import Tensor.
Local Open Scope R_scope.

(** Row [i] of any matrix of the causal mask of [x]. *)
Lemma causal_row_of_mask (pad : Z) (n_heads : nat) (x : list (list Z)) (k i : nat)
  (mat : list (list bool)) (mask_row : list bool) :
  nth_error (fst (Masks._make_mask pad n_heads x)) k = Some mat ->
  nth_error mat i = Some mask_row ->
  forall j : nat, (j < size1 x)%nat -> nth j mask_row false = (i <? j)%nat.
Proof.
  unfold Masks._make_mask. cbn [fst]. rewrite causal_mask_copies.
  intros Hmat Hrow.
  assert (Hk : (k < size0 x * n_heads)%nat).
  { assert (Hn : nth_error (repeat (causal_matrix (size1 x) (size1 x))
                              (size0 x * n_heads)) k <> None) by congruence.
    apply nth_error_Some in Hn. now rewrite repeat_length in Hn. }
  rewrite nth_error_repeat in Hmat by exact Hk. injection Hmat as <-.
  now apply causal_matrix_row with (r := size1 x).
Qed.

(** Row [n] of the padding mask of [x] flags the padding tokens of row [n]. *)
Lemma padding_row_of_mask (pad : Z) (n_heads : nat) (x : list (list Z)) (n : nat)
  (row : list Z) (pad_row : list bool) :
  nth_error x n = Some row ->
  nth_error (snd (Masks._make_mask pad n_heads x)) n = Some pad_row ->
  pad_row = map (fun tok => (tok =? pad)%Z) row.
Proof.
  unfold Masks._make_mask. cbn [snd]. rewrite nth_error_map.
  intros -> H. cbn in H. now injection H as <-.
Qed.

Lemma nth_pad_flag (pad : Z) (row : list Z) (j : nat) (tok : Z) :
  nth_error row j = Some tok ->
  nth j (map (fun t => (t =? pad)%Z) row) false = (tok =? pad)%Z.
Proof.
  intros H. apply nth_error_nth. rewrite nth_error_map, H. reflexivity.
Qed.

Lemma sum_map_div (z : R) (e : list R) :
  fold_right Rplus 0 (map (fun v => v / z) e) = fold_right Rplus 0 e / z.
Proof.
  induction e as [| a e IH]; cbn.
  - unfold Rdiv. now rewrite Rmult_0_l.
  - rewrite IH. unfold Rdiv. ring.
Qed.

Lemma sum_pos_of_entry (e : list R) (i : nat) (v : R) :
  Forall (fun a => 0 <= a) e -> nth_error e i = Some v -> 0 < v ->
  0 < fold_right Rplus 0 e.
Proof.
  intros HF. revert i. induction HF as [| a e Ha HF IH]; intros i Hi Hv.
  - destruct i; discriminate Hi.
  - assert (Hs : 0 <= fold_right Rplus 0 e).
    { clear IH Hi. induction HF as [| b e Hb _ IH]; cbn; [lra | lra]. }
    destruct i as [| i]; cbn in Hi |- *.
    + injection Hi as ->. lra.
    + specialize (IH i Hi Hv). lra.
Qed.

Lemma masked_exps_nonneg (mask_row pad_row : list bool) (scores : list R) :
  Forall (fun a => 0 <= a)
    (mapi (fun j s => if Masks.forbidden mask_row pad_row j then 0 else exp s) scores).
Proof.
  unfold mapi. generalize 0%nat.
  induction scores as [| s scores IH]; intros k; cbn; constructor.
  - destruct (Masks.forbidden mask_row pad_row k); [lra | left; apply exp_pos].
  - apply IH.
Qed.

(** No key is forbidden for a query that is not fully masked. *)
Lemma fully_masked_false (mask_row pad_row : list bool) (n i : nat) :
  (i < n)%nat -> Masks.forbidden mask_row pad_row i = false ->
  Masks.fully_masked mask_row pad_row n = false.
Proof.
  intros Hi Hf. unfold Masks.fully_masked.
  destruct (forallb _ _) eqn:Hall; [| reflexivity].
  rewrite forallb_forall in Hall.
  rewrite (Hall i) in Hf; [discriminate Hf |].
  apply in_seq. lia.
Qed.

(** X5: The padding mask has the shape of the batch and flags exactly the
    padding tokens.  A key that holds a padding token receives attention
    weight zero, whatever the other mask says, from every query that has a
    key to attend to; a query with every key forbidden gets not-a-number
    at this key as at every other. *)
Theorem padding_mask_blocks_pad (pad : Z) (n_heads : nat) (x : list (list Z))
  (n j : nat) (row : list Z) (tok : Z) :
  nth_error x n = Some row -> nth_error row j = Some tok ->
  length (snd (Masks._make_mask pad n_heads x)) = length x
  /\ entry2 (snd (Masks._make_mask pad n_heads x)) n j = Some (tok =? pad)%Z
  /\ (tok = pad ->
      forall (pad_row mask_row : list bool) (scores : list R),
        nth_error (snd (Masks._make_mask pad n_heads x)) n = Some pad_row ->
        (j < length scores)%nat ->
        nth_error (Masks.attention_weights mask_row pad_row scores) j
        = Some (if Masks.fully_masked mask_row pad_row (length scores)
                then NaN else Num 0)).
Proof.
  intros Hrow Htok. split; [| split].
  - unfold Masks._make_mask. cbn [snd]. apply length_map.
  - unfold entry2, Masks._make_mask. cbn [snd].
    rewrite nth_error_map, Hrow. cbn [option_map].
    rewrite nth_error_map, Htok. reflexivity.
  - intros -> pad_row mask_row scores Hpad Hj.
    apply forbidden_weight; [exact Hj |].
    rewrite (padding_row_of_mask pad n_heads x n row pad_row Hrow Hpad).
    unfold Masks.forbidden. rewrite (nth_pad_flag pad row j pad Htok).
    rewrite Z.eqb_refl. apply orb_true_r.
Qed.

Lemma padding_mask_blocks_pad_witness :
  entry2 (snd (Masks._make_mask 0 2 [[5; 0; 7]]%Z)) 0 1 = Some true
  /\ nth_error (Masks.attention_weights [false; false; false] [false; true; false]
                  [1; 2; 3]) 1 = Some (Num 0)
  /\ nth_error (Masks.attention_weights [false; true; true] [true; false; false]
                  [1; 2; 3]) 0 = Some NaN.
Proof.
  destruct (padding_mask_blocks_pad 0 2 [[5; 0; 7]]%Z 0 1 [5; 0; 7]%Z 0%Z)
    as (_ & He & Hw); [reflexivity | reflexivity |].
  split; [exact He |].
  split; [apply (Hw eq_refl [false; true; false] [false; false; false] [1; 2; 3]);
          [reflexivity | cbn; lia] |].
  destruct (padding_mask_blocks_pad 0 2 [[0; 5; 7]]%Z 0 0 [0; 5; 7]%Z 0%Z)
    as (_ & _ & Hw'); [reflexivity | reflexivity |].
  apply (Hw' eq_refl [true; false; false] [false; true; true] [1; 2; 3]);
    [reflexivity | cbn; lia].
Defined.

(** X6: A position that holds a real token may always attend to itself, so its
    row of attention weights holds numbers, and they sum to 1. *)
Theorem attention_row_sums_to_one (pad : Z) (n_heads : nat) (x : list (list Z))
  (n k i : nat) (row : list Z) (tok : Z) (mat : list (list bool))
  (mask_row pad_row : list bool) (scores : list R) :
  nth_error x n = Some row -> length row = size1 x ->
  nth_error row i = Some tok -> tok <> pad ->
  nth_error (fst (Masks._make_mask pad n_heads x)) k = Some mat ->
  nth_error mat i = Some mask_row ->
  nth_error (snd (Masks._make_mask pad n_heads x)) n = Some pad_row ->
  length scores = size1 x ->
  exists ws : list R,
    Masks.attention_weights mask_row pad_row scores = map Num ws
    /\ fold_right Rplus 0 ws = 1.
Proof.
  intros Hrow Hlen Htok Hne Hmat Hmrow Hpad Hscores.
  assert (Hi : (i < size1 x)%nat).
  { rewrite <- Hlen. apply nth_error_Some. congruence. }
  assert (Hallowed : Masks.forbidden mask_row pad_row i = false).
  { unfold Masks.forbidden.
    rewrite (causal_row_of_mask pad n_heads x k i mat mask_row Hmat Hmrow i Hi).
    rewrite Nat.ltb_irrefl. cbn [orb].
    rewrite (padding_row_of_mask pad n_heads x n row pad_row Hrow Hpad).
    rewrite (nth_pad_flag pad row i tok Htok). now apply Z.eqb_neq. }
  unfold Masks.attention_weights.
  rewrite (fully_masked_false mask_row pad_row (length scores) i)
    by (rewrite ?Hscores; assumption).
  set (e := mapi (fun j s => if Masks.forbidden mask_row pad_row j then 0 else exp s)
              scores).
  exists (map (fun v => v / fold_right Rplus 0 e) e).
  split; [now rewrite map_map |].
  rewrite sum_map_div.
  assert (Hz : 0 < fold_right Rplus 0 e).
  { destruct (nth_error scores i) as [s |] eqn:Hs.
    - apply sum_pos_of_entry with (i := i) (v := exp s);
        [apply masked_exps_nonneg | | apply exp_pos].
      unfold e. rewrite nth_error_mapi, Hs. cbn [option_map]. now rewrite Hallowed.
    - apply nth_error_None in Hs. lia. }
  field. lra.
Qed.

Lemma attention_row_sums_to_one_witness :
  exists ws : list R,
    Masks.attention_weights [false; false; true] [false; false; true] [1; 2; 3]
    = map Num ws
    /\ fold_right Rplus 0 ws = 1.
Proof.
  apply (attention_row_sums_to_one 0 1 [[5; 6; 0]]%Z 0 0 1 [5; 6; 0]%Z 6%Z
           [[false; true; true]; [false; false; true]; [false; false; false]]);
    try reflexivity.
  discriminate.
Defined.

End MaskMore.

Section MaskFullRow.

Import Tensor.

(** X7: A query has every key forbidden exactly when all the tokens up to and
    including its own position are padding: the causal mask hides the
    later keys and the padding mask the earlier ones.  This is the case of
    a sequence that starts with padding. *)
Theorem row_fully_masked_iff (pad : Z) (n_heads : nat) (x : list (list Z))
  (n k i : nat) (row : list Z) (mat : list (list bool)) (mask_row pad_row : list bool) :
  nth_error x n = Some row -> length row = size1 x -> (i < size1 x)%nat ->
  nth_error (fst (Masks._make_mask pad n_heads x)) k = Some mat ->
  nth_error mat i = Some mask_row ->
  nth_error (snd (Masks._make_mask pad n_heads x)) n = Some pad_row ->
  ((forall j : nat, (j < size1 x)%nat -> Masks.forbidden mask_row pad_row j = true)
   <-> (forall (j : nat) (tok : Z),
          (j <= i)%nat -> nth_error row j = Some tok -> tok = pad)).
Proof.
  intros Hrow Hlen Hi Hmat Hmrow Hpad.
  pose proof (causal_row_of_mask pad n_heads x k i mat mask_row Hmat Hmrow) as Hc.
  pose proof (padding_row_of_mask pad n_heads x n row pad_row Hrow Hpad) as Hp.
  subst pad_row. unfold Masks.forbidden. split.
  - intros Hall j tok Hj Htok.
    specialize (Hall j ltac:(lia)).
    rewrite Hc in Hall by lia.
    replace (i <? j)%nat with false in Hall by (symmetry; apply Nat.ltb_ge; lia).
    cbn [orb] in Hall. rewrite (nth_pad_flag pad row j tok Htok) in Hall.
    now apply Z.eqb_eq.
  - intros Hall j Hj. rewrite Hc by exact Hj.
    destruct (i <? j)%nat eqn:Hij; [reflexivity |]. cbn [orb].
    apply Nat.ltb_ge in Hij.
    destruct (nth_error row j) as [tok |] eqn:Htok.
    + rewrite (nth_pad_flag pad row j tok Htok).
      apply Z.eqb_eq. now apply (Hall j tok).
    + apply nth_error_None in Htok. lia.
Qed.

Lemma row_fully_masked_iff_witness :
  Masks.forbidden [false; false; true] [true; true; false] 0 = true
  /\ Masks.forbidden [false; false; true] [true; true; false] 1 = true
  /\ Masks.forbidden [false; false; true] [true; true; false] 2 = true.
Proof.
  assert (H : forall j : nat, (j < 3)%nat ->
            Masks.forbidden [false; false; true] [true; true; false] j = true).
  { apply (row_fully_masked_iff 0 1 [[0; 0; 7]]%Z 0 0 1 [0; 0; 7]%Z
             [[false; true; true]; [false; false; true]; [false; false; false]]
             [false; false; true] [true; true; false]);
      try reflexivity; [cbn; lia |].
    intros [| [| j]] tok Hj Htok; cbn in Htok; try lia.
    - now injection Htok as <-.
    - now injection Htok as <-. }
  split; [apply H; lia | split; apply H; lia].
Defined.

End MaskFullRow.

(** ** The positional table: when it is built, its shape, its range *)

Section PosEncMore.

Import Tensor PosEnc.
Local Open Scope R_scope.

Lemma put_stride2_Forall (P : R -> Prop) (row : list R) :
  Forall P row ->
  forall (vals : list R) (skip : bool), Forall P vals -> Forall P (put_stride2 skip row vals).
Proof.
  induction 1 as [| r row Hr _ IH]; intros vals skip Hv; [constructor |].
  destruct skip; cbn.
  - constructor; [exact Hr | now apply IH].
  - destruct Hv as [| v vals Hv Hvals]; constructor; auto.
Qed.

Lemma broadcast_to_Forall (P : R -> Prop) (n : nat) (vals : list R) :
  Forall P vals -> Forall P (broadcast_to n vals).
Proof.
  intros H. destruct vals as [| v [| v' vals]]; try exact H.
  cbn. inversion H; subst. apply Forall_forall. intros a Ha.
  apply repeat_spec in Ha. now subst a.
Qed.

(** What [init] returns, when it returns. *)
Lemma init_table (size_embed max_seq_len : nat) (dropout : R) (pe : PositionalEncoding) :
  init size_embed dropout max_seq_len = Ok pe ->
  let angles :=
    outer (arange max_seq_len)
      (map (fun a => exp (a * (- ln 10000 / INR size_embed))) (arange_by2 size_embed)) in
  _pos_encoding pe
  = map (fun rv => put_stride2 true (fst rv)
                     (broadcast_to (n_selected 1 size_embed) (snd rv)))
      (combine
         (map (fun rv => put_stride2 false (fst rv)
                           (broadcast_to (n_selected 0 size_embed) (snd rv)))
            (combine (zeros max_seq_len size_embed) (map (map sin) angles)))
         (map (map cos) angles)).
Proof.
  intros Hinit. unfold init in Hinit.
  destruct (Dropout dropout) as [d |]; [| discriminate Hinit].
  cbn [bind] in Hinit. unfold assign_cols in Hinit.
  destruct ((_ =? n_selected 0 size_embed) || _)%nat; [| discriminate Hinit].
  cbn [bind] in Hinit.
  destruct ((_ =? n_selected 1 size_embed) || _)%nat; [| discriminate Hinit].
  cbn [bind] in Hinit. injection Hinit as <-. reflexivity.
Qed.

(** X8: The constructor returns exactly when the dropout probability lies
    in [0, 1] and [size_embed] is even or 1; for every other size the
    second slice assignment raises, whatever the length of the table. *)
Theorem init_returns_iff (size_embed max_seq_len : nat) (dropout : R) :
  is_ok (init size_embed dropout max_seq_len) = true
  <-> (0 <= dropout <= 1 /\ (Nat.Even size_embed \/ size_embed = 1%nat)).
Proof.
  split.
  - intros Hok.
    destruct (init size_embed dropout max_seq_len) as [pe |] eqn:Hinit;
      [| discriminate Hok].
    destruct (init_inv _ _ _ _ Hinit) as [Hd _]. split; [exact Hd |].
    destruct (Nat.Even_or_Odd size_embed) as [He | [k Hk]]; [now left |].
    destruct k as [| k]; [right; lia |].
    subst size_embed.
    rewrite (init_odd_raises (S k) max_seq_len dropout) in Hinit by (lia || lra).
    discriminate Hinit.
  - intros [Hd [He | ->]].
    + destruct (init_even_ok size_embed max_seq_len dropout He Hd) as [pe ->].
      reflexivity.
    + destruct (init_one_ok max_seq_len dropout Hd) as [pe ->]. reflexivity.
Qed.

(** X9: A table that is built has [max_seq_len] rows of width [size_embed]. *)
Theorem init_shape (size_embed max_seq_len : nat) (dropout : R) (pe : PositionalEncoding) :
  init size_embed dropout max_seq_len = Ok pe ->
  length (_pos_encoding pe) = max_seq_len
  /\ Forall (fun row => length row = size_embed) (_pos_encoding pe).
Proof.
  intros Hinit. rewrite (init_table _ _ _ _ Hinit). cbv zeta. split.
  - unfold zeros, outer, arange.
    rewrite !length_map, !length_combine, !length_map, !length_combine.
    rewrite repeat_length, !length_map, length_seq.
    rewrite !Nat.min_id. reflexivity.
  - apply Forall_forall. intros row Hin.
    apply in_map_iff in Hin. destruct Hin as ([r1 v1] & <- & Hin).
    apply in_combine_l in Hin.
    apply in_map_iff in Hin. destruct Hin as ([r0 v0] & <- & Hin).
    apply in_combine_l in Hin. unfold zeros in Hin.
    apply repeat_spec in Hin. subst r0. cbn [fst snd].
    now rewrite !put_stride2_length, repeat_length.
Qed.

Lemma init_shape_witness :
  exists pe, init 4 0.1 3 = Ok pe /\ length (_pos_encoding pe) = 3%nat.
Proof.
  destruct (init_even_ok 4 3 0.1) as [pe Hpe]; [exists 2%nat; reflexivity | lra |].
  exists pe. split; [exact Hpe |].
  now apply (init_shape 4 3 0.1 pe).
Defined.

(** X10: Every entry of the table lies between -1 and 1. *)
Theorem init_entries_bounded (size_embed max_seq_len : nat) (dropout : R)
  (pe : PositionalEncoding) (p j : nat) (v : R) :
  init size_embed dropout max_seq_len = Ok pe ->
  entry2 (_pos_encoding pe) p j = Some v ->
  -1 <= v <= 1.
Proof.
  intros Hinit Hentry.
  assert (Hall : Forall (Forall (fun a => -1 <= a <= 1)) (_pos_encoding pe)).
  { rewrite (init_table _ _ _ _ Hinit). cbv zeta.
    apply Forall_forall. intros row Hin.
    apply in_map_iff in Hin. destruct Hin as ([r1 v1] & <- & Hin).
    pose proof (in_combine_l _ _ _ _ Hin) as Hl.
    pose proof (in_combine_r _ _ _ _ Hin) as Hr.
    apply in_map_iff in Hl. destruct Hl as ([r0 v0] & <- & Hin0).
    pose proof (in_combine_l _ _ _ _ Hin0) as Hl0.
    pose proof (in_combine_r _ _ _ _ Hin0) as Hr0.
    unfold zeros in Hl0. apply repeat_spec in Hl0. subst r0.
    apply in_map_iff in Hr. destruct Hr as (a1 & <- & _).
    apply in_map_iff in Hr0. destruct Hr0 as (a0 & <- & _).
    cbn [fst snd].
    apply put_stride2_Forall; [apply put_stride2_Forall |].
    - apply Forall_forall. intros a Ha. apply repeat_spec in Ha. subst a. lra.
    - apply broadcast_to_Forall, Forall_forall. intros a Ha.
      apply in_map_iff in Ha. destruct Ha as (t & <- & _). apply SIN_bound.
    - apply broadcast_to_Forall, Forall_forall. intros a Ha.
      apply in_map_iff in Ha. destruct Ha as (t & <- & _). apply COS_bound. }
  unfold entry2 in Hentry.
  destruct (nth_error (_pos_encoding pe) p) as [row |] eqn:Hrow; [| discriminate Hentry].
  apply nth_error_In in Hrow, Hentry.
  rewrite Forall_forall in Hall. specialize (Hall row Hrow).
  rewrite Forall_forall in Hall. now apply Hall.
Qed.

Lemma init_entries_bounded_witness :
  exists pe v, init 4 0.1 3 = Ok pe /\ entry2 (_pos_encoding pe) 2 3 = Some v
               /\ -1 <= v <= 1.
Proof.
  destruct (init_even_ok 4 3 0.1) as [pe Hpe]; [exists 2%nat; reflexivity | lra |].
  pose proof (init_row 4 3 0.1 pe 2 Hpe ltac:(lia)) as Hrow. cbv zeta in Hrow.
  destruct (entry2 (_pos_encoding pe) 2 3) as [v |] eqn:Hv.
  - exists pe, v. split; [exact Hpe |]. split; [exact Hv |].
    exact (init_entries_bounded 4 3 0.1 pe 2 3 v Hpe Hv).
  - unfold entry2 in Hv. rewrite Hrow in Hv.
    cbn -[INR IZR exp ln sin cos Rmult Rdiv Ropp] in Hv. discriminate Hv.
Defined.

End PosEncMore.

(** ** Adding the positional table: length limit and entries *)

Section PosEncSumFacts.

Import Tensor PosEnc PosEncSum.
Local Open Scope R_scope.

Lemma map_result_ok {A B : Type} (f : A -> result B) (g : A -> B) (l : list A) :
  (forall a, In a l -> f a = Ok (g a)) -> map_result f l = Ok (map g l).
Proof.
  induction l as [| a l IH]; intros H; [reflexivity |].
  cbn [map_result map]. rewrite (H a) by now left. cbn [bind].
  rewrite IH by (intros b Hb; apply H; now right). reflexivity.
Qed.

Lemma add_row_same_width (a b : list R) :
  length a = length b ->
  add_row a b = Ok (map (fun ab => fst ab + snd ab) (combine a b)).
Proof.
  intros H. unfold add_row, zip_broadcast.
  apply Nat.eqb_eq in H. rewrite H.
  now apply map_result_ok.
Qed.

Lemma add_matrix_same_shape (width : nat) (m rows : list (list R)) :
  length m = length rows ->
  Forall (fun r => length r = width) m ->
  Forall (fun r => length r = width) rows ->
  add_matrix m rows
  = Ok (map (fun rs => map (fun ab => fst ab + snd ab) (combine (fst rs) (snd rs)))
          (combine m rows)).
Proof.
  intros Hlen Hm Hrows. unfold add_matrix, zip_broadcast.
  apply Nat.eqb_eq in Hlen. rewrite Hlen.
  apply map_result_ok. intros [r s] Hin. cbn [fst snd].
  apply add_row_same_width.
  rewrite Forall_forall in Hm, Hrows.
  rewrite (Hm r (in_combine_l _ _ _ _ Hin)).
  now rewrite (Hrows s (in_combine_r _ _ _ _ Hin)).
Qed.

End PosEncSumFacts.

Section PosEncSumClaims.

Import Tensor PosEnc PosEncSum.
Local Open Scope R_scope.

(** X11: A batch whose sequences are longer than a table of two rows or more
    cannot be encoded: the sum raises. *)
Theorem forward_sum_too_long (pe : PositionalEncoding) (m : list (list R))
  (x : list (list (list R))) :
  (2 <= length (_pos_encoding pe))%nat ->
  (length (_pos_encoding pe) < length m)%nat ->
  forward_sum pe (m :: x) = Raise RuntimeError.
Proof.
  intros H2 Hlong. unfold forward_sum. cbn [size1 map_result].
  rewrite firstn_all2 by lia.
  assert (Hadd : add_matrix m (_pos_encoding pe) = Raise RuntimeError).
  { unfold add_matrix, zip_broadcast.
    replace (length m =? length (_pos_encoding pe))%nat with false
      by (symmetry; apply Nat.eqb_neq; lia).
    destruct m as [| r1 [| r2 m]]; cbn in Hlong; try lia.
    destruct (_pos_encoding pe) as [| s1 [| s2 t]]; cbn in H2; try lia.
    reflexivity. }
  rewrite Hadd. reflexivity.
Qed.

Lemma forward_sum_too_long_witness :
  forward_sum {| _dropout := 0.1; _pos_encoding := [[0; 1]; [2; 3]] |}
    [[[1; 1]; [1; 1]; [1; 1]]] = Raise RuntimeError.
Proof.
  apply (forward_sum_too_long
           {| _dropout := 0.1; _pos_encoding := [[0; 1]; [2; 3]] |}
           [[1; 1]; [1; 1]; [1; 1]] []); cbn; lia.
Defined.

(** X12: A batch of sequences of length [seq_len] no longer than the table, and
    of the table's width, is encoded: the result has the shape of the
    batch, and its entry at (b, l, e) is the entry of the batch plus the
    table's entry at (l, e), the same for every element of the batch. *)
Theorem forward_sum_entries (pe : PositionalEncoding) (x : list (list (list R)))
  (seq_len width : nat) :
  Forall (fun m => length m = seq_len /\ Forall (fun r => length r = width) m) x ->
  Forall (fun r => length r = width) (_pos_encoding pe) ->
  (seq_len <= length (_pos_encoding pe))%nat ->
  exists y,
    forward_sum pe x = Ok y
    /\ length y = length x
    /\ forall (b l e : nat) (xv tv : R),
         entry3 x b l e = Some xv ->
         entry2 (_pos_encoding pe) l e = Some tv ->
         entry3 y b l e = Some (xv + tv).
Proof.
  intros Hx Ht Hlen.
  set (rows := firstn seq_len (_pos_encoding pe)).
  set (g := fun m : list (list R) =>
              map (fun rs => map (fun ab => fst ab + snd ab) (combine (fst rs) (snd rs)))
                (combine m rows)).
  assert (Hrows_len : length rows = seq_len) by (unfold rows; rewrite length_firstn; lia).
  assert (Hrows_w : Forall (fun r => length r = width) rows).
  { unfold rows. apply Forall_forall. intros r Hr.
    rewrite Forall_forall in Ht. apply Ht.
    rewrite <- (firstn_skipn seq_len (_pos_encoding pe)).
    apply in_or_app. now left. }
  assert (Hsum : forward_sum pe x = Ok (map g x)).
  { unfold forward_sum.
    assert (Hsz : x <> [] -> size1 x = seq_len).
    { destruct x as [| m x']; [congruence |]. intros _.
      apply Forall_inv in Hx. destruct Hx as [Hm0 _]. exact Hm0. }
    apply map_result_ok. intros m Hm.
    rewrite Hsz by (intros ->; exact Hm). fold rows.
    rewrite Forall_forall in Hx. destruct (Hx m Hm) as [HmL HmW].
    apply (add_matrix_same_shape width); [congruence | exact HmW | exact Hrows_w]. }
  exists (map g x). split; [exact Hsum |]. split; [apply length_map |].
  intros b l e xv tv Hxv Htv. unfold entry3 in *.
  rewrite nth_error_map.
  destruct (nth_error x b) as [m |] eqn:Hm; [| discriminate Hxv].
  cbn [option_map]. unfold g.
  destruct (nth_error m l) as [r |] eqn:Hr; [| discriminate Hxv].
  unfold entry2 in Htv.
  destruct (nth_error (_pos_encoding pe) l) as [s |] eqn:Hs; [| discriminate Htv].
  assert (Hl : (l < seq_len)%nat).
  { apply nth_error_In in Hm. rewrite Forall_forall in Hx.
    destruct (Hx m Hm) as [<- _]. apply nth_error_Some. congruence. }
  assert (Hs' : nth_error rows l = Some s).
  { unfold rows. now rewrite nth_error_firstn, (proj2 (Nat.ltb_lt _ _) Hl). }
  rewrite nth_error_map, (nth_error_combine m rows l r s Hr Hs'). cbn [option_map fst snd].
  rewrite nth_error_map, (nth_error_combine r s e xv tv Hxv Htv). reflexivity.
Qed.

Lemma forward_sum_entries_witness :
  exists y,
    forward_sum {| _dropout := 0.1; _pos_encoding := [[0; 1]; [2; 3]; [4; 5]] |}
      [[[10; 20]; [30; 40]]] = Ok y
    /\ entry3 y 0 1 1 = Some (40 + 3).
Proof.
  destruct (forward_sum_entries
              {| _dropout := 0.1; _pos_encoding := [[0; 1]; [2; 3]; [4; 5]] |}
              [[[10; 20]; [30; 40]]] 2 2) as (y & Hy & _ & He).
  - repeat constructor.
  - repeat constructor.
  - cbn. lia.
  - exists y. split; [exact Hy |]. apply He; reflexivity.
Defined.

End PosEncSumClaims.

(** ** The loss is never negative; the sampling distribution *)

Section LossMore.

Import Loss.
Local Open Scope R_scope.

Lemma exp_le_sum_exp (col : list R) (i : nat) :
  (i < length col)%nat -> exp (nth i col 0) <= sum (map exp col).
Proof.
  revert i. induction col as [| a col IH]; intros i Hi; cbn in Hi; [lia |].
  assert (Hs : 0 <= sum (map exp col)).
  { clear. induction col as [| b col IH]; cbn; [lra |].
    pose proof (exp_pos b). unfold sum in IH. lra. }
  destruct i as [| i]; cbn.
  - unfold sum in Hs. lra.
  - specialize (IH i ltac:(lia)). pose proof (exp_pos a). unfold sum in IH. lra.
Qed.

Lemma nll_nonneg (col : list R) (t : Z) (v : R) : nll col t = Ok v -> 0 <= v.
Proof.
  unfold nll.
  destruct ((t <? 0) || (Z.of_nat (length col) <=? t))%Z eqn:Hrange; [discriminate |].
  apply orb_false_iff in Hrange. destruct Hrange as [H0 Hlen].
  apply Z.ltb_ge in H0. apply Z.leb_gt in Hlen.
  intros H. injection H as <-.
  pose proof (exp_le_sum_exp col (Z.to_nat t) ltac:(lia)) as Hle.
  pose proof (exp_pos (nth (Z.to_nat t) col 0)) as Hpos.
  assert (Hln : nth (Z.to_nat t) col 0 <= ln (sum (map exp col))).
  { rewrite <- (ln_exp (nth (Z.to_nat t) col 0)) at 1.
    destruct Hle as [Hlt | Heq].
    - left. now apply ln_increasing.
    - rewrite Heq. lra. }
  lra.
Qed.

Lemma terms_from_nonneg (ignore_index : Z) (m : list (list R)) (ts : list Z) :
  forall (l : nat) (vs : list R),
    terms_from ignore_index m l ts = Ok vs -> Forall (fun v => 0 <= v) vs.
Proof.
  induction ts as [| t ts IH]; intros l vs H; cbn in H.
  - injection H as <-. constructor.
  - destruct (t =? ignore_index)%Z; [now apply (IH (S l)) |].
    destruct (nll (column m l) t) as [v |] eqn:Hv; [| discriminate H].
    cbn [bind] in H.
    destruct (terms_from ignore_index m (S l) ts) as [rest |] eqn:Hrest;
      [| discriminate H].
    cbn [bind] in H. injection H as <-.
    constructor; [now apply nll_nonneg in Hv | now apply (IH (S l))].
Qed.

Lemma terms_nonneg (ignore_index : Z) :
  forall (input : list (list (list R))) (target : list (list Z)) (vs : list R),
    terms ignore_index input target = Ok vs -> Forall (fun v => 0 <= v) vs.
Proof.
  induction input as [| m input IH]; intros [| ts target] vs H; cbn in H;
    try discriminate H.
  - injection H as <-. constructor.
  - destruct (terms_from ignore_index m 0 ts) as [here |] eqn:Hhere; [| discriminate H].
    cbn [bind] in H.
    destruct (terms ignore_index input target) as [rest |] eqn:Hrest; [| discriminate H].
    cbn [bind] in H. injection H as <-.
    apply Forall_app. split; [now apply terms_from_nonneg in Hhere | now apply IH in Hrest].
Qed.

(** X13: Whenever the batch loss is a number it is non-negative. *)
Theorem batch_loss_nonneg (pad : Z) (y_pred : list (list (list R)))
  (y_batch : list (list Z)) (r : R) :
  batch_loss pad y_pred y_batch = Ok (Num r) -> 0 <= r.
Proof.
  unfold batch_loss, CrossEntropyLoss.
  destruct (negb (length (permute_0_2_1 y_pred) =? length y_batch)%nat); [discriminate |].
  destruct (negb (same_lengths (permute_0_2_1 y_pred) y_batch)); [discriminate |].
  destruct (terms pad (permute_0_2_1 y_pred) y_batch) as [vs |] eqn:Hvs; [| discriminate].
  cbn [bind]. apply terms_nonneg in Hvs.
  destruct vs as [| v vs]; [discriminate |].
  intros H. injection H as <-.
  assert (Hsum : 0 <= sum (v :: vs)).
  { clear -Hvs. induction Hvs as [| a l Ha _ IH]; cbn; [lra |]. unfold sum in IH. lra. }
  assert (Hn : 0 < INR (length (v :: vs))) by (apply lt_0_INR; cbn; lia).
  apply Rmult_le_pos; [exact Hsum | left; now apply Rinv_0_lt_compat].
Qed.

Lemma batch_loss_nonneg_witness :
  exists r, batch_loss 0 [[[1; 2]]] [[1%Z]] = Ok (Num r) /\ 0 <= r.
Proof.
  assert (H : batch_loss 0 [[[1; 2]]] [[1%Z]]
              = Ok (Num (sum [ln (sum [exp 1; exp 2]) - 2] / INR 1))) by reflexivity.
  eexists. split; [exact H |].
  exact (batch_loss_nonneg 0 [[[1; 2]]] [[1%Z]] _ H).
Defined.

End LossMore.

Section SamplingMore.

Import Sampling.
Local Open Scope R_scope.

Lemma sum_softmax_terms (z : R) (l : list R) :
  sum (map (fun v => exp v / z) l) = sum (map exp l) / z.
Proof.
  induction l as [| a l IH]; cbn.
  - unfold Rdiv. now rewrite Rmult_0_l.
  - unfold sum in IH. rewrite IH. unfold Rdiv. ring.
Qed.

(** X14: For every temperature and every non-empty vector of logits, line 244
    samples from a probability distribution over the vocabulary: one
    positive probability per token, summing to 1. *)
Theorem Categorical_probs_distribution (temperature : R) (logits : list R) :
  logits <> [] ->
  length (Categorical_probs temperature logits) = length logits
  /\ Forall (fun p => 0 < p) (Categorical_probs temperature logits)
  /\ sum (Categorical_probs temperature logits) = 1.
Proof.
  intros Hne.
  assert (Hne' : scaled_logits temperature logits <> []).
  { destruct logits; [congruence | discriminate]. }
  pose proof (sum_exp_pos _ Hne') as Hz.
  unfold Categorical_probs, softmax. split; [| split].
  - unfold scaled_logits. now rewrite !length_map.
  - apply Forall_forall. intros p Hp.
    apply in_map_iff in Hp. destruct Hp as (v & <- & _).
    apply Rdiv_lt_0_compat; [apply exp_pos | exact Hz].
  - rewrite sum_softmax_terms. field. lra.
Qed.

Lemma Categorical_probs_distribution_witness :
  sum (Categorical_probs 2 [0; 1; 3]) = 1.
Proof. apply (Categorical_probs_distribution 2 [0; 1; 3]). discriminate. Defined.

(** X15: At temperature 0 the logits are multiplied away and every token is
    drawn with the same probability, whatever the model predicts. *)
Theorem temperature_zero_is_uniform (logits : list R) :
  logits <> [] ->
  Categorical_probs 0 logits = repeat (1 / INR (length logits)) (length logits).
Proof.
  intros Hne. unfold Categorical_probs, softmax.
  assert (Hsum : sum (map exp (scaled_logits 0 logits)) = INR (length logits)).
  { clear Hne. induction logits as [| a l IH]; [reflexivity |].
    cbn [scaled_logits map sum fold_right length].
    fold (scaled_logits 0 l). fold (sum (map exp (scaled_logits 0 l))).
    rewrite IH, Rmult_0_l, exp_0, S_INR. ring. }
  rewrite Hsum. generalize (INR (length logits)) as z. intros z.
  clear. induction logits as [| a l IH]; [reflexivity |].
  cbn [scaled_logits map length repeat]. fold (scaled_logits 0 l).
  rewrite IH, Rmult_0_l, exp_0. reflexivity.
Qed.

Lemma temperature_zero_is_uniform_witness :
  Categorical_probs 0 [5; -2] = [1 / INR 2; 1 / INR 2].
Proof. apply (temperature_zero_is_uniform [5; -2]). discriminate. Defined.

End SamplingMore.

(** ** Generation: how many tokens *)

Section GenerateMore.

Import Model Generate.
Local Open Scope world_scope.
Context {E : Engine} {C : Collaborators}.

Lemma sample_next_appends (model : NextWordPredictionTransformer) (temperature : R)
  (ts ts' : list Z) (w w' : world) :
  sample_next model temperature ts w = (Ok ts', w') -> exists tok, ts' = ts ++ [tok].
Proof.
  unfold sample_next. intros H.
  apply bindM_inv in H. destruct H as (logits & w1 & _ & H).
  apply bindM_inv in H. destruct H as (last & w2 & _ & H).
  apply bindM_inv in H. destruct H as (tok & w3 & _ & H).
  unfold ret in H. injection H as <- _. now exists tok.
Qed.

Lemma sample_loop_extends (model : NextWordPredictionTransformer) (temperature : R)
  (n : nat) :
  forall (ts ts' : list Z) (w w' : world),
    sample_loop model temperature n ts w = (Ok ts', w') ->
    exists new, ts' = ts ++ new /\ length new = n.
Proof.
  induction n as [| n IH]; intros ts ts' w w' H; cbn [sample_loop] in H.
  - unfold ret in H. injection H as <- _. exists []. now rewrite app_nil_r.
  - apply bindM_inv in H. destruct H as (ts1 & w1 & Hnext & H).
    apply sample_next_appends in Hnext. destruct Hnext as (tok & ->).
    apply IH in H. destruct H as (new & -> & Hlen).
    exists (tok :: new). rewrite <- app_assoc. cbn. split; [reflexivity | lia].
Qed.

Lemma skipn_length_app {A : Type} (l l' : list A) : skipn (length l) (l ++ l') = l'.
Proof. induction l as [| a l IH]; [reflexivity | exact IH]. Qed.

(** X16: When the sampling loop returns, the sequence is the prompt's tokens
    followed by exactly [output_length] new tokens (none for a negative
    [output_length]), and the new tokens are what line 247 cuts off. *)
Theorem generate_appends_tokens (model : NextWordPredictionTransformer)
  (prompt : string) (output_length : Z) (temperature : R) (random_seed : Z)
  (w w' : world) (prompt_tokens token_sequence : list Z) :
  generate_tokens model prompt output_length temperature random_seed w
  = (Ok (prompt_tokens, token_sequence), w') ->
  prompt_tokens = tokenizer_call prompt
  /\ exists new,
       token_sequence = prompt_tokens ++ new
       /\ length new = Z.to_nat output_length
       /\ generated_tokens model prompt output_length temperature random_seed w
          = (Ok new, w').
Proof.
  intros H. pose proof H as H0.
  rewrite generate_tokens_prelude in H.
  apply bindM_inv in H. destruct H as (ts & w1 & Hloop & H).
  unfold ret in H. injection H as <- <- _.
  split; [reflexivity |].
  apply sample_loop_extends in Hloop. destruct Hloop as (new & Hts & Hlen).
  exists new. split; [exact Hts | split; [exact Hlen |]].
  unfold generated_tokens, bindM. rewrite H0. unfold ret. cbn [fst snd].
  now rewrite Hts, skipn_length_app.
Qed.

End GenerateMore.

Lemma generate_appends_tokens_witness :
  exists new w',
    @Generate.generated_tokens Toy.engine Toy.collaborators Toy.model "ab" 3 1%R 42
      Toy.world0 = (Ok new, w')
    /\ length new = 3%nat.
Proof.
  assert (Hrun : is_ok (fst (@Generate.generate_tokens Toy.engine Toy.collaborators
                               Toy.model "ab" 3 1%R 42 Toy.world0)) = true)
    by (lazy; reflexivity).
  destruct (@Generate.generate_tokens Toy.engine Toy.collaborators Toy.model "ab" 3 1%R 42
              Toy.world0) as [[[pt ts] | e] w'] eqn:Hgen; [| discriminate Hrun].
  destruct (@generate_appends_tokens Toy.engine Toy.collaborators Toy.model "ab" 3 1%R 42
              Toy.world0 w' pt ts Hgen) as (_ & new & _ & Hlen & Hnew).
  exists new, w'. split; [exact Hnew | exact Hlen].
Defined.

(** ** Training: the scheduler, the histories, the inputs a run needs *)

Section TrainProgress.

Import Model Train.
Local Open Scope world_scope.
Context {E : Engine} {C : Collaborators}.

(** The optimiser's learning rate is the initial rate times the schedule's
    factor at the scheduler's count. *)
Definition lr_follows (lrs_fn : Z -> result R) (t : trainer) : Prop :=
  exists f, lrs_fn (last_epoch t) = Ok f /\ lr t = (initial_lr t * f)%R.

Lemma LambdaLR_step_inv (lrs_fn : Z -> result R) (t t' : trainer) :
  LambdaLR_step lrs_fn t = Ok t' ->
  last_epoch t' = (last_epoch t + 1)%Z
  /\ initial_lr t' = initial_lr t
  /\ lr_follows lrs_fn t'.
Proof.
  unfold LambdaLR_step.
  destruct (lrs_fn (last_epoch t + 1)%Z) as [f |] eqn:Hf; [| discriminate].
  cbn [bind]. intros H. injection H as <-. cbn.
  split; [reflexivity | split; [reflexivity |]].
  exists f. cbn. now split.
Qed.

Lemma optimizer_step_inv (model : NextWordPredictionTransformer) (g : grads)
  (t t' : trainer) (w w' : world) :
  optimizer_step model g t w = (Ok t', w') ->
  last_epoch t' = last_epoch t /\ initial_lr t' = initial_lr t /\ lr t' = lr t.
Proof.
  unfold optimizer_step. intros H.
  apply bindM_inv in H. destruct H as (p & w1 & _ & H).
  destruct (adam_step (lr t) g (moments t) p) as [p' mom'].
  apply bindM_inv in H. destruct H as (u & w2 & _ & H).
  unfold ret in H. injection H as <- _. now cbn.
Qed.

Lemma _train_step_inv (x y : list (list Z)) (model : NextWordPredictionTransformer)
  (lrs_fn : Z -> result R) (clip_grads : option R) (t : trainer) (w w' : world)
  (r : float * trainer) :
  _train_step x y model lrs_fn clip_grads t w = (Ok r, w') ->
  last_epoch (snd r) = (last_epoch t + 1)%Z
  /\ initial_lr (snd r) = initial_lr t
  /\ lr_follows lrs_fn (snd r).
Proof.
  unfold _train_step. intros H.
  apply bindM_inv in H. destruct H as (u & w1 & _ & H).
  apply bindM_inv in H. destruct H as (p & w2 & _ & H).
  apply bindM_inv in H. destruct H as (g0 & w3 & _ & H).
  apply bindM_inv in H. destruct H as (y_pred & w4 & _ & H).
  apply bindM_inv in H. destruct H as (loss & w5 & _ & H).
  apply bindM_inv in H. destruct H as (t1 & w6 & Hopt & H).
  apply bindM_inv in H. destruct H as (t2 & w7 & Hstep & H).
  unfold ret in H. injection H as <- _. cbn [snd].
  apply optimizer_step_inv in Hopt. destruct Hopt as (He & Hi & _).
  apply lift_inv in Hstep. destruct Hstep as [Hstep _].
  apply LambdaLR_step_inv in Hstep. destruct Hstep as (He' & Hi' & Hf).
  split; [congruence | split; [congruence | exact Hf]].
Qed.

Lemma train_batches_inv (model : NextWordPredictionTransformer)
  (lrs_fn : Z -> result R) (clip_grads : option R) (data : list batch) :
  forall (loss_train : float) (t : trainer) (w w' : world) (r : float * trainer),
    train_batches model lrs_fn clip_grads data loss_train t w = (Ok r, w') ->
    last_epoch (snd r) = (last_epoch t + Z.of_nat (length data))%Z
    /\ initial_lr (snd r) = initial_lr t
    /\ (lr_follows lrs_fn t -> lr_follows lrs_fn (snd r)).
Proof.
  induction data as [| [x y] data IH]; intros loss_train t w w' r H;
    cbn [train_batches] in H.
  - unfold ret in H. injection H as <- _. cbn. split; [lia | now split].
  - apply bindM_inv in H. destruct H as (r1 & w1 & Hstep & H).
    apply _train_step_inv in Hstep. destruct Hstep as (He & Hi & Hf).
    apply IH in H. destruct H as (He' & Hi' & Hf').
    split; [cbn [length]; lia | split; [congruence | intros _; now apply Hf']].
Qed.

(** One pass of the epoch loop: both histories get the epoch's entry, the
    scheduler advances by one step per training batch, and the validation
    set is not empty. *)
Lemma epoch_body_progress (model : NextWordPredictionTransformer)
  (lrs_fn : Z -> result R) (clip_grads : option R)
  (train_data val_data : list batch) (epoch : Z) (s s' : progress) (w w' : world) :
  epoch_body model lrs_fn clip_grads train_data val_data epoch s w = (Ok s', w') ->
  (exists tl, train_losses s' = Py.dict_set epoch tl (train_losses s))
  /\ (exists vl, val_losses s' = Py.dict_set epoch vl (val_losses s))
  /\ last_epoch (opt s') = (last_epoch (opt s) + Z.of_nat (length train_data))%Z
  /\ initial_lr (opt s') = initial_lr (opt s)
  /\ (lr_follows lrs_fn (opt s) -> lr_follows lrs_fn (opt s'))
  /\ val_data <> [].
Proof.
  unfold epoch_body. intros H.
  apply bindM_inv in H. destruct H as (r & w1 & Htrain & H).
  apply bindM_inv in H. destruct H as (loss_val & w2 & _ & H).
  apply bindM_inv in H. destruct H as (tl & w3 & _ & H).
  apply bindM_inv in H. destruct H as (vl & w4 & Hvl & H).
  apply bindM_inv in H. destruct H as (best & w5 & _ & H).
  unfold ret in H. injection H as <- _. cbn.
  apply train_batches_inv in Htrain. destruct Htrain as (He & Hi & Hf).
  split; [now exists tl |]. split; [now exists vl |].
  split; [exact He |]. split; [exact Hi |]. split; [exact Hf |].
  apply lift_inv in Hvl. destruct Hvl as [Hvl _].
  intros ->. discriminate Hvl.
Qed.

(** The epochs that ran, in order, and what the loop leaves behind. *)
Lemma epoch_loop_progress (model : NextWordPredictionTransformer)
  (lrs_fn : Z -> result R) (clip_grads : option R) (train_data val_data : list batch) :
  forall (epochs : list Z) (s s' : progress) (w w' : world),
    epoch_loop model lrs_fn clip_grads train_data val_data epochs s w = (Ok s', w') ->
    NoDup epochs ->
    (forall e, In e epochs ->
       ~ In e (keys (val_losses s)) /\ ~ In e (keys (train_losses s))) ->
    exists done rest,
      epochs = done ++ rest
      /\ keys (val_losses s') = keys (val_losses s) ++ done
      /\ keys (train_losses s') = keys (train_losses s) ++ done
      /\ last_epoch (opt s')
         = (last_epoch (opt s) + Z.of_nat (length done) * Z.of_nat (length train_data))%Z
      /\ initial_lr (opt s') = initial_lr (opt s)
      /\ (lr_follows lrs_fn (opt s) -> lr_follows lrs_fn (opt s'))
      /\ (rest <> [] -> _early_stop (val_losses s') = true)
      /\ (epochs <> [] -> done <> [] /\ val_data <> []).
Proof.
  induction epochs as [| epoch epochs IH]; intros s s' w w' H Hnd Hfresh.
  - cbn in H. unfold ret in H. injection H as <- _.
    exists [], []. rewrite !app_nil_r. cbn.
    repeat (split; [reflexivity || lia || tauto |]). tauto.
  - cbn [epoch_loop] in H.
    apply bindM_inv in H. destruct H as (s1 & w1 & Hbody & H).
    apply epoch_body_progress in Hbody.
    destruct Hbody as ((tl & Htl) & (vl & Hvl) & He & Hi & Hf & Hval).
    destruct (Hfresh epoch ltac:(now left)) as [Hfv Hft].
    assert (Hkv : keys (val_losses s1) = keys (val_losses s) ++ [epoch]).
    { rewrite Hvl. now apply keys_dict_set_fresh. }
    assert (Hkt : keys (train_losses s1) = keys (train_losses s) ++ [epoch]).
    { rewrite Htl. now apply keys_dict_set_fresh. }
    destruct (_early_stop (val_losses s1)) eqn:Hstop.
    + unfold ret in H. injection H as <- _.
      exists [epoch], epochs. cbn [length app].
      split; [reflexivity |]. split; [exact Hkv |]. split; [exact Hkt |].
      split; [lia |]. split; [exact Hi |]. split; [exact Hf |].
      split; [intros _; exact Hstop |]. intros _. split; [discriminate | exact Hval].
    + inversion Hnd as [| ? ? Hnotin Hnd']; subst.
      apply IH in H; [| exact Hnd' |].
      * destruct H as (done & rest & Heq & Hv & Ht & Hl & Hi' & Hf' & Hr & _).
        exists (epoch :: done), rest. cbn [length app].
        split; [now rewrite Heq |].
        split; [rewrite Hv, Hkv, <- app_assoc; reflexivity |].
        split; [rewrite Ht, Hkt, <- app_assoc; reflexivity |].
        split; [lia |]. split; [congruence |].
        split; [intros H0; apply Hf', Hf, H0 |].
        split; [exact Hr |]. intros _. split; [discriminate | exact Hval].
      * intros e He'. rewrite Hkv, Hkt.
        destruct (Hfresh e ltac:(now right)) as [Hev Het].
        split; intros Hin; apply in_app_or in Hin;
          destruct Hin as [Hin | [-> | []]]; contradiction.
Qed.

End TrainProgress.

Section TrainRun.

Import Model Train.
Local Open Scope world_scope.
Context {E : Engine} {C : Collaborators}.

(** The world after line 169: only the generator has changed. *)
Definition seeded (random_seed : Z) (w : world) : world :=
  {| heap := heap w; training := training w; rng := seed_generator random_seed |}.

Lemma setup_result (train_data : list batch) (n_epochs : Z) (learning_rate : R)
  (warmup_epochs : float) (random_seed : Z) (w w1 : world)
  (st : (Z -> result R) * progress) :
  setup train_data n_epochs learning_rate warmup_epochs random_seed w = (Ok st, w1) ->
  exists n_warmup_steps : Z,
    count_warmup_steps warmup_epochs (Z.of_nat (length train_data)) = Ok n_warmup_steps
    /\ (0 <= learning_rate)%R
    /\ fst st = (fun step =>
                   Schedule64.warmup_schedule step n_warmup_steps
                     (n_epochs * Z.of_nat (length train_data)))
    /\ w1 = seeded random_seed w
    /\ train_losses (snd st) = [] /\ val_losses (snd st) = []
    /\ last_epoch (opt (snd st)) = 0%Z
    /\ initial_lr (opt (snd st)) = learning_rate
    /\ lr_follows (fst st) (opt (snd st)).
Proof.
  unfold setup. intros H.
  apply bindM_inv in H. destruct H as (u1 & w2 & Hseed & H).
  apply bindM_inv in H. destruct H as (u2 & w3 & Hdev & H).
  apply bindM_inv in H. destruct H as (optimizer & w4 & Hopt & H).
  apply bindM_inv in H. destruct H as (nw & w5 & Hnw & H).
  apply bindM_inv in H. destruct H as (lrs & w6 & Hlrs & H).
  unfold ret in H. injection H as <- <-.
  unfold manual_seed, set_rng in Hseed. injection Hseed as _ <-.
  unfold to_device, ret in Hdev. injection Hdev as _ <-.
  apply lift_inv in Hopt. destruct Hopt as [Hopt ->].
  apply lift_inv in Hnw. destruct Hnw as [Hnw ->].
  apply lift_inv in Hlrs. destruct Hlrs as [Hlrs ->].
  apply Adam_inv in Hopt. destruct Hopt as [Hlr ->].
  unfold LambdaLR in Hlrs. apply LambdaLR_step_inv in Hlrs.
  destruct Hlrs as (He & Hi & Hf). cbn [fst snd opt train_losses val_losses].
  exists nw. split; [exact Hnw |]. split; [exact Hlr |].
  split; [reflexivity |]. split; [reflexivity |].
  split; [reflexivity |]. split; [reflexivity |].
  split; [rewrite He; reflexivity |]. split; [rewrite Hi; reflexivity | exact Hf].
Qed.

Lemma warmup_schedule_at_zero (warmup_steps max_steps : Z) :
  (max_steps = 0 \/ warmup_steps = 0)%Z ->
  Schedule.warmup_schedule 0 warmup_steps max_steps = Raise ZeroDivisionError.
Proof.
  unfold Schedule.warmup_schedule, Schedule.int_truediv, Schedule.float_div_int.
  intros [-> | ->]; [reflexivity |].
  destruct (max_steps =? 0)%Z; reflexivity.
Qed.

(** Step 0 with a number of steps that converts to a float: line 115 has a
    finite argument unless [max_steps] is zero. *)
Lemma cosine_argument_at_zero (max_steps : Z) :
  Schedule64.converts max_steps = true ->
  Schedule64.cosine_argument 0 max_steps
  = if (max_steps =? 0)%Z then Raise ZeroDivisionError else Ok tt.
Proof.
  intros Hc. unfold Schedule64.cosine_argument. rewrite Hc.
  replace (Schedule64.converts 0) with true by (vm_compute; reflexivity).
  replace (Schedule64.product_overflows 0) with false by (vm_compute; reflexivity).
  reflexivity.
Qed.

Lemma schedule_at_zero (warmup_steps max_steps : Z) :
  Schedule64.converts max_steps = true ->
  Schedule64.warmup_schedule 0 warmup_steps max_steps
  = Schedule.warmup_schedule 0 warmup_steps max_steps.
Proof.
  intros Hc. unfold Schedule64.warmup_schedule.
  rewrite (cosine_argument_at_zero max_steps Hc).
  destruct (max_steps =? 0)%Z eqn:H0; [| reflexivity].
  apply Z.eqb_eq in H0. subst max_steps. reflexivity.
Qed.

(** A set-up that returns had a number of steps and a number of warm-up
    steps that are not zero. *)
Lemma setup_steps (train_data : list batch) (n_epochs : Z) (learning_rate : R)
  (warmup_epochs : float) (random_seed : Z) (w w1 : world)
  (st : (Z -> result R) * progress) :
  setup train_data n_epochs learning_rate warmup_epochs random_seed w = (Ok st, w1) ->
  exists n_warmup_steps : Z,
    count_warmup_steps warmup_epochs (Z.of_nat (length train_data)) = Ok n_warmup_steps
    /\ n_warmup_steps <> 0%Z
    /\ (n_epochs * Z.of_nat (length train_data))%Z <> 0%Z
    /\ (0 <= learning_rate)%R.
Proof.
  intros H. apply setup_result in H.
  destruct H as (nw & Hnw & Hlr & Hfn & _ & _ & _ & He & _ & (f & Hf & _)).
  exists nw. split; [exact Hnw |].
  rewrite He, Hfn in Hf. cbv beta in Hf.
  apply warmup_schedule_returns in Hf.
  destruct (Z.eq_dec (n_epochs * Z.of_nat (length train_data)) 0) as [Hz | Hz].
  { rewrite warmup_schedule_at_zero in Hf by (now left). discriminate Hf. }
  destruct (Z.eq_dec nw 0) as [Hw | Hw].
  { rewrite warmup_schedule_at_zero in Hf by (now right). discriminate Hf. }
  now repeat split.
Qed.

Lemma range_from_1_prefix (n : Z) (done rest : list Z) :
  Py.range_from_1 n = done ++ rest ->
  done = Py.range_from_1 (Z.of_nat (length done))
  /\ (length done <= Z.to_nat n)%nat.
Proof.
  unfold Py.range_from_1. intros H.
  assert (Hlen : (length done <= Z.to_nat n)%nat).
  { apply (f_equal (@length Z)) in H.
    rewrite length_map, length_seq, length_app in H. lia. }
  split; [| exact Hlen].
  rewrite Nat2Z.id.
  assert (Hfirst : done = firstn (length done) (done ++ rest)).
  { rewrite firstn_app, Nat.sub_diag, firstn_all. cbn. now rewrite app_nil_r. }
  assert (Hseq : forall k start len : nat,
             (k <= len)%nat -> firstn k (seq start len) = seq start k).
  { induction k as [| k IH]; intros start len Hk; [reflexivity |].
    destruct len as [| len]; [lia |]. cbn. now rewrite IH by lia. }
  rewrite Hfirst at 1. rewrite <- H, firstn_map.
  now rewrite Hseq by exact Hlen.
Qed.

Lemma range_from_1_fresh (n : Z) : NoDup (Py.range_from_1 n).
Proof.
  unfold Py.range_from_1.
  assert (Hnd : forall l : list nat, NoDup l -> NoDup (map Z.of_nat l)).
  { induction 1 as [| a l Ha _ IH]; cbn; constructor; [| exact IH].
    intros Hin. apply in_map_iff in Hin. destruct Hin as (b & Hb & Hin).
    apply Nat2Z.inj in Hb. now subst b. }
  apply Hnd, seq_NoDup.
Qed.

(** What [train] has when the epoch loop ends: the epochs 1 to [k] ran. *)
Lemma train_loop_progress (model : NextWordPredictionTransformer)
  (train_data val_data : list batch) (n_epochs : Z) (learning_rate : R)
  (warmup_epochs : float) (clip_grads : option R) (random_seed : Z)
  (w w' : world) (s : progress) :
  train_loop model train_data val_data n_epochs learning_rate warmup_epochs clip_grads
    random_seed w = (Ok s, w') ->
  let n_batches := Z.of_nat (length train_data) in
  exists (n_warmup_steps : Z) (k : nat),
    count_warmup_steps warmup_epochs n_batches = Ok n_warmup_steps
    /\ keys (val_losses s) = Py.range_from_1 (Z.of_nat k)
    /\ keys (train_losses s) = Py.range_from_1 (Z.of_nat k)
    /\ (k <= Z.to_nat n_epochs)%nat
    /\ last_epoch (opt s) = (Z.of_nat k * n_batches)%Z
    /\ initial_lr (opt s) = learning_rate
    /\ lr_follows
         (fun step =>
            Schedule64.warmup_schedule step n_warmup_steps (n_epochs * n_batches))
         (opt s)
    /\ ((k < Z.to_nat n_epochs)%nat -> _early_stop (val_losses s) = true)
    /\ ((1 <= n_epochs)%Z -> (1 <= k)%nat /\ val_data <> []).
Proof.
  intros H. cbv zeta. unfold train_loop in H.
  apply bindM_inv in H. destruct H as (st & w1 & Hsetup & H).
  apply setup_result in Hsetup.
  destruct Hsetup as (nw & Hnw & _ & Hfn & _ & Ht & Hv & He & Hi & Hf).
  apply epoch_loop_progress in H; [| apply range_from_1_fresh |].
  - destruct H as (done & rest & Heq & Hkv & Hkt & Hl & Hi' & Hf' & Hr & Hne).
    destruct (range_from_1_prefix n_epochs done rest Heq) as [Hdone Hlen].
    exists nw, (length done). split; [exact Hnw |].
    rewrite Hv in Hkv. rewrite Ht in Hkt. cbn [keys map app] in Hkv, Hkt.
    split; [congruence |]. split; [congruence |]. split; [exact Hlen |].
    split; [rewrite Hl, He; lia |]. split; [congruence |].
    split; [rewrite <- Hfn; now apply Hf' |].
    split.
    + intros Hlt. apply Hr. intros ->. rewrite app_nil_r in Heq.
      apply (f_equal (@length Z)) in Heq. unfold Py.range_from_1 in Heq.
      rewrite length_map, length_seq in Heq. lia.
    + intros Hn. destruct Hne as [Hd Hval].
      * unfold Py.range_from_1. destruct (Z.to_nat n_epochs) eqn:Hz; [lia | discriminate].
      * split; [destruct done; [congruence | cbn; lia] | exact Hval].
  - intros e _. rewrite Ht, Hv. cbn. tauto.
Qed.

End TrainRun.

Section TrainMode.

Import Model Train.
Local Open Scope world_scope.
Context {E : Engine} {C : Collaborators}.

Lemma _val_step_mode (x y : list (list Z)) (model : NextWordPredictionTransformer)
  (w : world) :
  training (snd (_val_step x y model w)) = false
  /\ heap (snd (_val_step x y model w)) = heap w.
Proof.
  unfold _val_step.
  assert (Hf : frame (y_pred <~ forward model x ;;
                      loss_batch <~ lift (cross_entropy PAD_TOKEN_IDX
                                            (permute_0_2_1 y_pred) y) ;;
                      ret (item loss_batch))).
  { apply frame_bind; [apply frame_forward |]. intros y_pred.
    apply frame_bind; [apply frame_lift |]. intros l. apply frame_ret. }
  unfold bindM at 1. cbn [set_training].
  destruct (Hf {| heap := heap w; training := false; rng := rng w |}) as [Hh Ht].
  cbn in Hh, Ht. now split.
Qed.

Lemma val_batches_mode (model : NextWordPredictionTransformer) (data : list batch) :
  forall (loss_val : float) (w : world),
    heap (snd (val_batches model data loss_val w)) = heap w
    /\ (data <> [] \/ training w = false ->
        is_ok (fst (val_batches model data loss_val w)) = true ->
        training (snd (val_batches model data loss_val w)) = false).
Proof.
  induction data as [| [x y] data IH]; intros loss_val w; cbn [val_batches].
  - split; [reflexivity |]. intros [H | H] _; [congruence | exact H].
  - unfold bindM. destruct (_val_step_mode x y model w) as [Hm Hh].
    destruct (_val_step x y model w) as [[l | e] w1]; cbn [fst snd] in *.
    + destruct (IH (PrimFloat.add loss_val l) w1) as [Hh1 Hm1].
      split; [congruence |]. intros _ Hok. apply Hm1; [now right | exact Hok].
    + split; [exact Hh |]. discriminate.
Qed.

Lemma epoch_body_mode (model : NextWordPredictionTransformer)
  (lrs_fn : Z -> result R) (clip_grads : option R)
  (train_data val_data : list batch) (epoch : Z) (s s' : progress) (w w' : world) :
  epoch_body model lrs_fn clip_grads train_data val_data epoch s w = (Ok s', w') ->
  training w' = false.
Proof.
  intros H. pose proof (epoch_body_progress _ _ _ _ _ _ _ _ _ _ H) as Hp.
  destruct Hp as (_ & _ & _ & _ & _ & Hval).
  unfold epoch_body in H.
  apply bindM_inv in H. destruct H as (r & w1 & _ & H).
  apply bindM_inv in H. destruct H as (loss_val & w2 & Hv & H).
  apply bindM_inv in H. destruct H as (tl & w3 & Htl & H).
  apply bindM_inv in H. destruct H as (vl & w4 & Hvl & H).
  apply bindM_inv in H. destruct H as (best & w5 & Hbest & H).
  unfold ret in H. injection H as _ <-.
  apply lift_inv in Htl, Hvl, Hbest.
  destruct Htl as [_ ->], Hvl as [_ ->], Hbest as [_ ->].
  destruct (val_batches_mode model val_data 0%float w1) as [_ Hm].
  rewrite Hv in Hm. cbn [fst snd] in Hm. apply Hm; [now left | reflexivity].
Qed.

Lemma epoch_loop_mode (model : NextWordPredictionTransformer)
  (lrs_fn : Z -> result R) (clip_grads : option R) (train_data val_data : list batch) :
  forall (epochs : list Z) (s s' : progress) (w w' : world),
    epoch_loop model lrs_fn clip_grads train_data val_data epochs s w = (Ok s', w') ->
    epochs <> [] \/ training w = false ->
    training w' = false.
Proof.
  induction epochs as [| epoch epochs IH]; intros s s' w w' H Hor.
  - cbn in H. unfold ret in H. injection H as _ <-.
    destruct Hor as [Hor | Hor]; [congruence | exact Hor].
  - cbn [epoch_loop] in H.
    apply bindM_inv in H. destruct H as (s1 & w1 & Hbody & H).
    apply epoch_body_mode in Hbody.
    destruct (_early_stop (val_losses s1)).
    + unfold ret in H. now injection H as _ <-.
    + apply IH in H; [exact H | now right].
Qed.

(** A returned [train]: the loop ended, the checkpoint was bound, and the
    restoration wrote the model's storage only. *)
Lemma train_inv (model : NextWordPredictionTransformer)
  (train_data val_data : list batch) (n_epochs : Z) (learning_rate : R)
  (warmup_epochs : float) (clip_grads : option R) (random_seed : Z)
  (w w' : world) (r : Py.dict * Py.dict) :
  train model train_data val_data n_epochs learning_rate warmup_epochs clip_grads
    random_seed w = (Ok r, w') ->
  exists (s : progress) (w1 : world),
    train_loop model train_data val_data n_epochs learning_rate warmup_epochs clip_grads
      random_seed w = (Ok s, w1)
    /\ r = (train_losses s, val_losses s)
    /\ (1 <= n_epochs)%Z
    /\ training w' = training w1
    /\ training w1 = false.
Proof.
  unfold train. intros H.
  apply bindM_inv in H. destruct H as (s & w1 & Hloop & Hfin).
  exists s, w1. split; [exact Hloop |].
  unfold finalize in Hfin.
  destruct (best_checkpoint s) as [ck |] eqn:Hbest; [| discriminate Hfin].
  cbn in Hfin. injection Hfin as <- <-.
  split; [reflexivity |].
  assert (Hn : (1 <= n_epochs)%Z).
  { destruct (Z_lt_le_dec n_epochs 1) as [Hlt | Hge]; [| exact Hge].
    exfalso. unfold train_loop in Hloop.
    apply bindM_inv in Hloop. destruct Hloop as (st & w0 & Hsetup & Hepochs).
    rewrite range_from_1_empty in Hepochs by lia. cbn in Hepochs.
    unfold ret in Hepochs. injection Hepochs as <- _.
    apply setup_inv in Hsetup. destruct Hsetup as [_ Hnone]. congruence. }
  split; [exact Hn |]. split; [reflexivity |].
  unfold train_loop in Hloop.
  apply bindM_inv in Hloop. destruct Hloop as (st & w0 & _ & Hepochs).
  apply epoch_loop_mode in Hepochs; [exact Hepochs |].
  left. destruct (range_from_1_cons n_epochs Hn) as (rest & -> & _). discriminate.
Qed.

End TrainMode.

Section TrainMore.

Import Model Train.
Local Open Scope world_scope.
Context {E : Engine} {C : Collaborators}.

Lemma train_setup_raises (model : NextWordPredictionTransformer)
  (train_data val_data : list batch) (n_epochs : Z) (learning_rate : R)
  (warmup_epochs : float) (clip_grads : option R) (random_seed : Z) (w : world)
  (n_warmup_steps : Z) :
  count_warmup_steps warmup_epochs (Z.of_nat (length train_data)) = Ok n_warmup_steps ->
  (0 <= learning_rate)%R ->
  Schedule64.converts (n_epochs * Z.of_nat (length train_data)) = true ->
  ((n_epochs * Z.of_nat (length train_data) = 0 \/ n_warmup_steps = 0)%Z) ->
  train model train_data val_data n_epochs learning_rate warmup_epochs clip_grads
    random_seed w = (Raise ZeroDivisionError, seeded random_seed w).
Proof.
  intros Hnw Hlr Hc Hz.
  unfold train, train_loop, setup, manual_seed, set_rng, to_device, lift, ret,
    LambdaLR, LambdaLR_step, bindM.
  rewrite (Adam_nonneg learning_rate Hlr), Hnw.
  cbn [last_epoch Z.add Z.opp Z.pos_sub].
  rewrite (schedule_at_zero _ _ Hc).
  rewrite warmup_schedule_at_zero by tauto. reflexivity.
Qed.

(** X17: [train] cannot start without optimiser steps and without warm-up
    steps.  Let the learning rate be non-negative and [n_steps], which is
    [n_epochs * len(train_data)], be within the range of floats.  When
    [n_steps] or the number of warm-up steps, which is
    [floor(warmup_epochs * len(train_data))] as binary64 computes it, is
    zero, the scheduler's constructor divides by zero at step 0 and [train]
    raises before the first batch, having only reseeded the generator; in
    every other case the set-up returns. *)
Theorem train_needs_steps_and_warmup (model : NextWordPredictionTransformer)
  (train_data val_data : list batch) (n_epochs : Z) (learning_rate : R)
  (warmup_epochs : float) (clip_grads : option R) (random_seed : Z) (w : world)
  (n_warmup_steps : Z) :
  let n_batches := Z.of_nat (length train_data) in
  let n_steps := (n_epochs * n_batches)%Z in
  count_warmup_steps warmup_epochs n_batches = Ok n_warmup_steps ->
  (0 <= learning_rate)%R ->
  Schedule64.converts n_steps = true ->
  ((n_steps = 0 \/ n_warmup_steps = 0)%Z ->
   train model train_data val_data n_epochs learning_rate warmup_epochs clip_grads
     random_seed w = (Raise ZeroDivisionError, seeded random_seed w))
  /\ (n_steps <> 0%Z -> n_warmup_steps <> 0%Z ->
      is_ok (fst (setup train_data n_epochs learning_rate warmup_epochs random_seed w))
      = true).
Proof.
  cbv zeta. intros Hnw Hlr Hc. split.
  - now apply train_setup_raises.
  - intros Hm Hw.
    unfold setup, manual_seed, set_rng, to_device, lift, ret,
      LambdaLR, LambdaLR_step, bindM.
    rewrite (Adam_nonneg learning_rate Hlr), Hnw.
    cbn [last_epoch Z.add Z.opp Z.pos_sub].
    rewrite (schedule_at_zero _ _ Hc).
    rewrite warmup_schedule_defined by tauto. reflexivity.
Qed.

(** X18: The learning rate that the first optimiser step uses.  With one warm-up
    step or more it is exactly 0; with a negative number of warm-up steps
    there is no warm-up and it is the base rate. *)
Theorem first_learning_rate (train_data : list batch) (n_epochs : Z) (learning_rate : R)
  (warmup_epochs : float) (random_seed : Z) (w w1 : world)
  (st : (Z -> result R) * progress) :
  setup train_data n_epochs learning_rate warmup_epochs random_seed w = (Ok st, w1) ->
  exists n_warmup_steps : Z,
    count_warmup_steps warmup_epochs (Z.of_nat (length train_data)) = Ok n_warmup_steps
    /\ ((1 <= n_warmup_steps)%Z -> lr (opt (snd st)) = 0%R)
    /\ ((n_warmup_steps < 0)%Z -> lr (opt (snd st)) = learning_rate).
Proof.
  intros H. apply setup_result in H.
  destruct H as (W & HW & _ & Hfn & _ & _ & _ & He & Hi & (f & Hf & Hlr)).
  exists W. split; [exact HW |].
  rewrite He, Hfn in Hf. cbv beta in Hf. rewrite Hi in Hlr.
  apply warmup_schedule_returns in Hf.
  destruct (warmup_schedule_ok_inv _ _ _ _ Hf) as [Hm Hw].
  rewrite warmup_schedule_defined in Hf by assumption.
  injection Hf as <-. unfold Schedule.factor_spec in Hlr.
  split; intros Hsteps.
  - destruct (0 <=? _)%Z eqn:Hle in Hlr; [| apply Z.leb_gt in Hle; lia].
    rewrite Hlr. unfold Rdiv. ring.
  - destruct (0 <=? _)%Z eqn:Hle in Hlr; [apply Z.leb_le in Hle; lia |].
    rewrite Hlr. unfold Schedule.cosine_term.
    replace (PI * 0 / IZR (n_epochs * Z.of_nat (length train_data)))%R with 0%R
      by (unfold Rdiv; ring).
    rewrite cos_0. lra.
Qed.

End TrainMore.

Lemma first_learning_rate_witness :
  exists st w1,
    @Train.setup Toy.engine Toy.data 3 1%R 1%float 42 Toy.world0 = (Ok st, w1)
    /\ @Train.lr Toy.engine (@Train.opt Toy.engine (snd st)) = 0%R.
Proof.
  assert (Hrun : is_ok (fst (@Train.setup Toy.engine Toy.data 3 1%R 1%float 42
                               Toy.world0)) = true) by evaluate_run.
  destruct (@Train.setup Toy.engine Toy.data 3 1%R 1%float 42 Toy.world0)
    as [[st | e] w1] eqn:Hsetup; [| discriminate Hrun].
  exists st, w1. split; [reflexivity |].
  destruct (@first_learning_rate Toy.engine Toy.data 3 1%R 1%float 42 Toy.world0 w1 st
              Hsetup) as (nw & Hnw & H0 & _).
  apply H0.
  assert (Hone : Train.count_warmup_steps 1%float (Z.of_nat (length Toy.data)) = Ok 1%Z)
    by (vm_compute; reflexivity).
  rewrite Hone in Hnw. injection Hnw as <-. lia.
Defined.

(** The default [warmup_epochs = 0.5] with a loader of one batch. *)
Lemma train_needs_steps_and_warmup_witness :
  @Train.train Toy.engine Toy.collaborators Toy.model Toy.data Toy.data 3 1%R 0.5%float
    None 42 Toy.world0
  = (Raise ZeroDivisionError, @seeded Toy.engine 42 Toy.world0).
Proof.
  apply (@train_needs_steps_and_warmup Toy.engine Toy.collaborators Toy.model
           Toy.data Toy.data 3 1%R 0.5%float None 42 Toy.world0 0%Z).
  - vm_compute. reflexivity.
  - lra.
  - vm_compute. reflexivity.
  - now right.
Defined.

Section TrainReturns.

Import Model Train.
Local Open Scope world_scope.
Context {E : Engine} {C : Collaborators}.

(** X19: The histories that [train] returns have one entry per completed epoch:
    both have the keys 1 to [k], in order, for some [k] between 1 and
    [n_epochs]; and when fewer epochs ran than were asked for, the stopping
    predicate holds of the validation history that is returned. *)
Theorem train_histories (model : NextWordPredictionTransformer)
  (train_data val_data : list batch) (n_epochs : Z) (learning_rate : R)
  (warmup_epochs : float) (clip_grads : option R) (random_seed : Z)
  (w w' : world) (train_losses val_losses : Py.dict) :
  train model train_data val_data n_epochs learning_rate warmup_epochs clip_grads
    random_seed w = (Ok (train_losses, val_losses), w') ->
  exists k : Z,
    (1 <= k <= n_epochs)%Z
    /\ keys train_losses = Py.range_from_1 k
    /\ keys val_losses = Py.range_from_1 k
    /\ ((k < n_epochs)%Z -> _early_stop val_losses = true).
Proof.
  intros H. apply train_inv in H.
  destruct H as (s & w1 & Hloop & Hr & Hn & _). injection Hr as -> ->.
  apply train_loop_progress in Hloop. cbv zeta in Hloop.
  destruct Hloop as (nw & k & _ & Hv & Ht & Hk & _ & _ & _ & Hstop & Hone).
  destruct (Hone Hn) as [H1 _].
  exists (Z.of_nat k). split; [lia |]. split; [exact Ht |]. split; [exact Hv |].
  intros Hlt. apply Hstop. lia.
Qed.

(** X20: A call of [train] that returns had at least one epoch to run, a
    training set and a validation set that are not empty, a learning rate
    that is not negative and a number of warm-up steps, the floor of the
    binary64 product [warmup_epochs * len(train_data)], that is not zero;
    and it leaves the model in evaluation mode. *)
Theorem train_returns_only_if (model : NextWordPredictionTransformer)
  (train_data val_data : list batch) (n_epochs : Z) (learning_rate : R)
  (warmup_epochs : float) (clip_grads : option R) (random_seed : Z)
  (w w' : world) (r : Py.dict * Py.dict) :
  train model train_data val_data n_epochs learning_rate warmup_epochs clip_grads
    random_seed w = (Ok r, w') ->
  (1 <= n_epochs)%Z
  /\ train_data <> [] /\ val_data <> []
  /\ (0 <= learning_rate)%R
  /\ (exists n_warmup_steps : Z,
        count_warmup_steps warmup_epochs (Z.of_nat (length train_data))
        = Ok n_warmup_steps
        /\ n_warmup_steps <> 0%Z)
  /\ training w' = false.
Proof.
  intros H. apply train_inv in H.
  destruct H as (s & w1 & Hloop & _ & Hn & Hm & Hm1).
  split; [exact Hn |].
  pose proof Hloop as Hp. apply train_loop_progress in Hp. cbv zeta in Hp.
  destruct Hp as (nw0 & k & _ & _ & _ & _ & _ & _ & _ & _ & Hone).
  destruct (Hone Hn) as [_ Hval].
  unfold train_loop in Hloop.
  apply bindM_inv in Hloop. destruct Hloop as (st & w0 & Hsetup & _).
  apply setup_steps in Hsetup. destruct Hsetup as (nw & Hnw & Hnz & Hsteps & Hlr).
  split; [intros ->; apply Hsteps; cbn; lia |].
  split; [exact Hval |]. split; [exact Hlr |].
  split; [exists nw; now split | congruence].
Qed.

End TrainReturns.

Lemma train_histories_witness :
  exists tl vl w' k,
    @Train.train Toy.engine Toy.collaborators Toy.model Toy.data Toy.data 3 1%R 1%float
      None 42 Toy.world0 = (Ok (tl, vl), w')
    /\ (1 <= k <= 3)%Z /\ keys vl = Py.range_from_1 k.
Proof.
  assert (Hrun : is_ok (fst (@Train.train Toy.engine Toy.collaborators Toy.model Toy.data
                               Toy.data 3 1%R 1%float None 42 Toy.world0)) = true)
    by evaluate_run.
  destruct (@Train.train Toy.engine Toy.collaborators Toy.model Toy.data Toy.data 3 1%R
              1%float None 42 Toy.world0) as [[[tl vl] | e] w'] eqn:Htrain;
    [| discriminate Hrun].
  destruct (@train_histories Toy.engine Toy.collaborators Toy.model Toy.data Toy.data 3
              1%R 1%float None 42 Toy.world0 w' tl vl Htrain) as (k & Hk & _ & Hv & _).
  exists tl, vl, w', k. split; [reflexivity | split; assumption].
Defined.

Lemma train_returns_only_if_witness :
  exists r w',
    @Train.train Toy.engine Toy.collaborators Toy.model Toy.data Toy.data 3 1%R 1%float
      None 42 Toy.world0 = (Ok r, w')
    /\ @Model.training Toy.engine w' = false.
Proof.
  assert (Hrun : is_ok (fst (@Train.train Toy.engine Toy.collaborators Toy.model Toy.data
                               Toy.data 3 1%R 1%float None 42 Toy.world0)) = true)
    by evaluate_run.
  destruct (@Train.train Toy.engine Toy.collaborators Toy.model Toy.data Toy.data 3 1%R
              1%float None 42 Toy.world0) as [[r | e] w'] eqn:Htrain;
    [| discriminate Hrun].
  exists r, w'. split; [reflexivity |].
  now apply (@train_returns_only_if Toy.engine Toy.collaborators Toy.model Toy.data
               Toy.data 3 1%R 1%float None 42 Toy.world0 w' r Htrain).
Defined.

Section TrainScheduler.

Import Model Train.
Local Open Scope world_scope.
Context {E : Engine} {C : Collaborators}.

(** X21: When the epoch loop ends, the scheduler has taken one step per training
    batch of every completed epoch, and the optimiser's learning rate is
    the base rate times the schedule's factor at that count, for the number
    of warm-up steps that line 177 computes in binary64. *)
Theorem scheduler_tracks_batches (model : NextWordPredictionTransformer)
  (train_data val_data : list batch) (n_epochs : Z) (learning_rate : R)
  (warmup_epochs : float) (clip_grads : option R) (random_seed : Z)
  (w w' : world) (s : progress) :
  train_loop model train_data val_data n_epochs learning_rate warmup_epochs clip_grads
    random_seed w = (Ok s, w') ->
  last_epoch (opt s)
  = (Z.of_nat (length (val_losses s)) * Z.of_nat (length train_data))%Z
  /\ exists (n_warmup_steps : Z) (f : R),
       count_warmup_steps warmup_epochs (Z.of_nat (length train_data))
       = Ok n_warmup_steps
       /\ Schedule64.warmup_schedule (last_epoch (opt s)) n_warmup_steps
            (n_epochs * Z.of_nat (length train_data)) = Ok f
       /\ lr (opt s) = (learning_rate * f)%R.
Proof.
  intros H. apply train_loop_progress in H. cbv zeta in H.
  destruct H as (nw & k & Hnw & Hv & _ & _ & Hl & Hi & (f & Hf & Hlr) & _).
  assert (Hk : length (val_losses s) = k).
  { rewrite <- (length_map fst). fold (keys (val_losses s)). rewrite Hv.
    unfold Py.range_from_1. now rewrite length_map, length_seq, Nat2Z.id. }
  split; [now rewrite Hk |].
  exists nw, f. split; [exact Hnw |]. split; [exact Hf | now rewrite Hlr, Hi].
Qed.

(** X22: A run that was not stopped early ends with the learning rate at
    exactly 0: the scheduler has counted [max_steps] steps, where the
    cosine term vanishes. *)
Theorem full_run_ends_at_rate_zero (model : NextWordPredictionTransformer)
  (train_data val_data : list batch) (n_epochs : Z) (learning_rate : R)
  (warmup_epochs : float) (clip_grads : option R) (random_seed : Z)
  (w w' : world) (s : progress) :
  train_loop model train_data val_data n_epochs learning_rate warmup_epochs clip_grads
    random_seed w = (Ok s, w') ->
  (1 <= n_epochs)%Z ->
  _early_stop (val_losses s) = false ->
  last_epoch (opt s) = (n_epochs * Z.of_nat (length train_data))%Z
  /\ lr (opt s) = 0%R.
Proof.
  intros H Hn Hstop. apply train_loop_progress in H. cbv zeta in H.
  destruct H as (W & k & _ & _ & _ & Hk & Hl & Hi & (f & Hf & Hlr) & Hearly & _).
  assert (Hkn : k = Z.to_nat n_epochs).
  { destruct (Nat.lt_ge_cases k (Z.to_nat n_epochs)) as [Hlt | Hge]; [| lia].
    rewrite (Hearly Hlt) in Hstop. discriminate Hstop. }
  assert (Hcount : last_epoch (opt s) = (n_epochs * Z.of_nat (length train_data))%Z).
  { rewrite Hl, Hkn, Z2Nat.id by lia. reflexivity. }
  split; [exact Hcount |].
  rewrite Hcount in Hf.
  set (M := (n_epochs * Z.of_nat (length train_data))%Z) in *. clearbody M.
  apply warmup_schedule_returns in Hf.
  destruct (warmup_schedule_ok_inv _ _ _ _ Hf) as [Hm Hw].
  rewrite warmup_schedule_defined in Hf by assumption. injection Hf as <-.
  assert (Hc : Schedule.cosine_term M M = 0%R).
  { unfold Schedule.cosine_term.
    replace (PI * IZR M / IZR M)%R with PI by (field; now apply IZR_nonzero).
    rewrite cos_PI. lra. }
  rewrite Hlr. unfold Schedule.factor_spec. rewrite Hc.
  destruct (M <=? W)%Z; ring.
Qed.

End TrainScheduler.

Lemma full_run_ends_at_rate_zero_witness :
  exists s w',
    @Train.train_loop Toy.engine Toy.collaborators Toy.model Toy.data Toy.data 3 1%R 1%float
      None 42 Toy.world0 = (Ok s, w')
    /\ @Train.lr Toy.engine (@Train.opt Toy.engine s) = 0%R.
Proof.
  assert (Hrun : is_ok (fst (@Train.train_loop Toy.engine Toy.collaborators Toy.model
                               Toy.data Toy.data 3 1%R 1%float None 42 Toy.world0)) = true)
    by evaluate_run.
  destruct (@Train.train_loop Toy.engine Toy.collaborators Toy.model Toy.data Toy.data 3
              1%R 1%float None 42 Toy.world0) as [[s | e] w'] eqn:Hloop;
    [| discriminate Hrun].
  exists s, w'. split; [reflexivity |].
  apply (@full_run_ends_at_rate_zero Toy.engine Toy.collaborators Toy.model Toy.data
           Toy.data 3 1%R 1%float None 42 Toy.world0 w' s Hloop); [lia | reflexivity].
Defined.

Lemma scheduler_tracks_batches_witness :
  exists s w',
    @Train.train_loop Toy.engine Toy.collaborators Toy.model Toy.data Toy.data 3 1%R 1%float
      None 42 Toy.world0 = (Ok s, w')
    /\ @Train.last_epoch Toy.engine (@Train.opt Toy.engine s)
       = (Z.of_nat (length (@Train.val_losses Toy.engine s)) * 1)%Z.
Proof.
  assert (Hrun : is_ok (fst (@Train.train_loop Toy.engine Toy.collaborators Toy.model
                               Toy.data Toy.data 3 1%R 1%float None 42 Toy.world0)) = true)
    by evaluate_run.
  destruct (@Train.train_loop Toy.engine Toy.collaborators Toy.model Toy.data Toy.data 3
              1%R 1%float None 42 Toy.world0) as [[s | e] w'] eqn:Hloop;
    [| discriminate Hrun].
  exists s, w'. split; [reflexivity |].
  apply (@scheduler_tracks_batches Toy.engine Toy.collaborators Toy.model Toy.data
           Toy.data 3 1%R 1%float None 42 Toy.world0 w' s Hloop).
Defined.

(** ** Training: what is written, and what the result depends on *)

Section TrainFrame.

Import Model Train.
Local Open Scope world_scope.
Context {E : Engine} {C : Collaborators}.

(** A computation that writes no storage other than [l0], whether it
    returns or raises. *)
Definition touches_only {A : Type} (l0 : loc) (c : M A) : Prop :=
  forall (w : world) (l : loc), l <> l0 -> heap (snd (c w)) l = heap w l.

Lemma touches_frame {A : Type} (l0 : loc) (c : M A) : frame c -> touches_only l0 c.
Proof. intros Hf w l _. destruct (Hf w) as [Hh _]. now rewrite Hh. Qed.

Lemma touches_set_training (l0 : loc) (b : bool) : touches_only l0 (set_training b).
Proof. intros w l _. reflexivity. Qed.

Lemma touches_store (l0 : loc) (p : params) : touches_only l0 (store l0 p).
Proof.
  intros w l Hl. cbn. unfold write.
  destruct (l =? l0)%nat eqn:He; [apply Nat.eqb_eq in He; contradiction | reflexivity].
Qed.

Lemma touches_bind {A B : Type} (l0 : loc) (c : M A) (k : A -> M B) :
  touches_only l0 c -> (forall a, touches_only l0 (k a)) -> touches_only l0 (bindM c k).
Proof.
  intros Hc Hk w l Hl. unfold bindM. specialize (Hc w l Hl).
  destruct (c w) as [[a | e] w1]; cbn [snd] in *.
  - rewrite (Hk a w1 l Hl). exact Hc.
  - exact Hc.
Qed.

Ltac touches :=
  repeat (first
    [ apply touches_store | apply touches_set_training
    | apply touches_frame;
      first [ apply frame_ret | apply frame_lift | apply frame_read | apply frame_get_rng
            | apply frame_set_rng | apply frame_forward | apply frame_is_training ]
    | apply touches_bind; [| intros ?] ]).

Lemma touches_optimizer_step (model : NextWordPredictionTransformer) (g : grads)
  (t : trainer) : touches_only (storage model) (optimizer_step model g t).
Proof.
  unfold optimizer_step. apply touches_bind; [touches |]. intros p.
  destruct (adam_step (lr t) g (moments t) p) as [p' mom']. touches.
Qed.

Lemma touches_train_step (x y : list (list Z)) (model : NextWordPredictionTransformer)
  (lrs_fn : Z -> result R) (clip_grads : option R) (t : trainer) :
  touches_only (storage model) (_train_step x y model lrs_fn clip_grads t).
Proof.
  unfold _train_step.
  do 5 (apply touches_bind; [touches | intros ?]).
  apply touches_bind; [apply touches_optimizer_step | intros ?]. touches.
Qed.

Lemma touches_train_batches (model : NextWordPredictionTransformer)
  (lrs_fn : Z -> result R) (clip_grads : option R) (data : list batch) :
  forall (loss_train : float) (t : trainer),
    touches_only (storage model)
      (train_batches model lrs_fn clip_grads data loss_train t).
Proof.
  induction data as [| [x y] data IH]; intros loss_train t; cbn [train_batches].
  - touches.
  - apply touches_bind; [apply touches_train_step | intros r; apply IH].
Qed.

Lemma touches_val_batches (l0 : loc) (model : NextWordPredictionTransformer)
  (data : list batch) (loss_val : float) :
  touches_only l0 (val_batches model data loss_val).
Proof.
  intros w l _. destruct (val_batches_mode model data loss_val w) as [Hh _].
  now rewrite Hh.
Qed.

Lemma touches_epoch_loop (model : NextWordPredictionTransformer)
  (lrs_fn : Z -> result R) (clip_grads : option R) (train_data val_data : list batch)
  (epochs : list Z) :
  forall s : progress,
    touches_only (storage model)
      (epoch_loop model lrs_fn clip_grads train_data val_data epochs s).
Proof.
  induction epochs as [| epoch epochs IH]; intros s; cbn [epoch_loop]; [touches |].
  apply touches_bind.
  - unfold epoch_body.
    apply touches_bind; [apply touches_train_batches | intros r].
    apply touches_bind; [apply touches_val_batches | intros lv]. touches.
  - intros s1. destruct (_early_stop (val_losses s1)); [touches | apply IH].
Qed.

(** X23: [train] writes the storage of the model it is given and no other:
    whatever else the store holds is the same after the call, whether the
    call returns or raises. *)
Theorem train_writes_own_storage (model : NextWordPredictionTransformer)
  (train_data val_data : list batch) (n_epochs : Z) (learning_rate : R)
  (warmup_epochs : float) (clip_grads : option R) (random_seed : Z)
  (w : world) (l : loc) :
  l <> storage model ->
  heap (snd (train model train_data val_data n_epochs learning_rate warmup_epochs
               clip_grads random_seed w)) l = heap w l.
Proof.
  revert w l.
  change (touches_only (storage model)
            (train model train_data val_data n_epochs learning_rate warmup_epochs
               clip_grads random_seed)).
  unfold train. apply touches_bind.
  - unfold train_loop. apply touches_bind.
    + unfold setup, manual_seed, to_device. touches.
    + intros st. apply touches_epoch_loop.
  - intros s. unfold finalize.
    destruct (best_checkpoint s) as [ck |].
    + unfold load_state_dict. touches.
    + intros w l _. reflexivity.
Qed.

(** X24: Validation reads the model and writes nothing: after [_val_step], and
    after the whole validation pass, every storage holds what it held, and
    [_val_step] leaves the model in evaluation mode. *)
Theorem validation_keeps_parameters (model : NextWordPredictionTransformer)
  (data : list batch) (x y : list (list Z)) (loss_val : float) (w : world) :
  heap (snd (_val_step x y model w)) = heap w
  /\ training (snd (_val_step x y model w)) = false
  /\ heap (snd (val_batches model data loss_val w)) = heap w.
Proof.
  destruct (_val_step_mode x y model w) as [Hm Hh].
  destruct (val_batches_mode model data loss_val w) as [Hb _].
  now repeat split.
Qed.

End TrainFrame.

Lemma train_writes_own_storage_witness :
  @Model.heap Toy.engine
    (snd (@Train.train Toy.engine Toy.collaborators Toy.model Toy.data Toy.data 3 1%R 1%float
            None 42 Toy.world0)) 5%nat
  = @Model.heap Toy.engine Toy.world0 5%nat.
Proof.
  apply (@train_writes_own_storage Toy.engine Toy.collaborators Toy.model Toy.data
           Toy.data 3 1%R 1%float None 42 Toy.world0 5%nat).
  discriminate.
Defined.

Section TrainDeterminism.

Import Model Train.
Local Open Scope world_scope.
Context {E : Engine} {C : Collaborators}.

(** Worlds related before a computation give equal results and worlds
    related after it. *)
Definition rel_det {A : Type} (Rin Rout : world -> world -> Prop) (c : M A) : Prop :=
  forall w1 w2, Rin w1 w2 ->
    fst (c w1) = fst (c w2) /\ Rout (snd (c w1)) (snd (c w2)).

(** The same parameters for [m]; and in addition the same generator state. *)
Definition same_params (m : NextWordPredictionTransformer) (w1 w2 : world) : Prop :=
  heap w1 (storage m) = heap w2 (storage m).

Definition same_params_rng (m : NextWordPredictionTransformer) (w1 w2 : world) : Prop :=
  heap w1 (storage m) = heap w2 (storage m) /\ rng w1 = rng w2.

Lemma rel_bind {A B : Type} (R1 R2 R3 : world -> world -> Prop) (c : M A) (k : A -> M B) :
  rel_det R1 R2 c -> (forall a, rel_det R2 R3 (k a)) ->
  (forall w1 w2, R2 w1 w2 -> R3 w1 w2) ->
  rel_det R1 R3 (bindM c k).
Proof.
  intros Hc Hk Hsub w1 w2 H. unfold bindM.
  destruct (Hc w1 w2 H) as [Hr Hw].
  destruct (c w1) as [[a1 | e1] w1'], (c w2) as [[a2 | e2] w2'];
    cbn [fst snd] in *; try discriminate.
  - injection Hr as <-. now apply Hk.
  - injection Hr as <-. split; [reflexivity | now apply Hsub].
Qed.

Lemma rel_pure {A : Type} (R : world -> world -> Prop) (r : result A) :
  rel_det R R (lift r).
Proof. intros w1 w2 H. split; [reflexivity | exact H]. Qed.

Lemma rel_of_det {A : Type} (m : NextWordPredictionTransformer) (c : M A) :
  deterministic m c -> rel_det (agree m) (same_params_rng m) c.
Proof.
  intros Hd w1 w2 H. destruct (Hd w1 w2 H) as [Hr (Hh & _ & Hg)].
  split; [exact Hr | now split].
Qed.

Lemma rel_set_training (m : NextWordPredictionTransformer) (b : bool) :
  rel_det (same_params_rng m) (agree m) (set_training b).
Proof.
  intros w1 w2 [Hh Hg]. split; [reflexivity |]. repeat split; assumption.
Qed.

Lemma det_store (m : NextWordPredictionTransformer) (p : params) :
  deterministic m (store (storage m) p).
Proof.
  intros w1 w2 (Hh & Ht & Hg). split; [reflexivity |].
  split; [| split; assumption].
  cbn. unfold write. now rewrite Nat.eqb_refl.
Qed.

Lemma det_optimizer_step (model : NextWordPredictionTransformer) (g : grads) (t : trainer) :
  deterministic model (optimizer_step model g t).
Proof.
  unfold optimizer_step. apply det_bind; [apply det_read |]. intros p.
  destruct (adam_step (lr t) g (moments t) p) as [p' mom'].
  apply det_bind; [apply det_store |]. intros _. apply det_ret.
Qed.

(** A step that first sets the mode and then runs a computation that is
    deterministic given the mode. *)
Lemma rel_after_mode {A : Type} (m : NextWordPredictionTransformer) (b : bool) (c : M A) :
  deterministic m c ->
  rel_det (same_params_rng m) (same_params_rng m) (set_training b ;;; c).
Proof.
  intros Hd. apply rel_bind with (R2 := agree m).
  - apply rel_set_training.
  - intros _. now apply rel_of_det.
  - intros w1 w2 (Hh & _ & Hg). now split.
Qed.

Lemma rel_train_step (x y : list (list Z)) (model : NextWordPredictionTransformer)
  (lrs_fn : Z -> result R) (clip_grads : option R) (t : trainer) :
  rel_det (same_params_rng model) (same_params_rng model)
    (_train_step x y model lrs_fn clip_grads t).
Proof.
  unfold _train_step. apply rel_after_mode.
  apply det_bind; [apply det_read | intros p].
  apply det_bind; [apply det_get_rng | intros g0].
  apply det_bind; [apply det_forward | intros y_pred].
  apply det_bind; [apply det_lift | intros loss].
  apply det_bind; [apply det_optimizer_step | intros t1].
  apply det_bind; [apply det_lift | intros t2]. apply det_ret.
Qed.

Lemma rel_val_step (x y : list (list Z)) (model : NextWordPredictionTransformer) :
  rel_det (same_params_rng model) (same_params_rng model) (_val_step x y model).
Proof.
  unfold _val_step. apply rel_after_mode.
  apply det_bind; [apply det_forward | intros y_pred].
  apply det_bind; [apply det_lift | intros loss]. apply det_ret.
Qed.

Lemma rel_ret {A : Type} (R : world -> world -> Prop) (a : A) : rel_det R R (ret a).
Proof. intros w1 w2 H. split; [reflexivity | exact H]. Qed.

Lemma rel_train_batches (model : NextWordPredictionTransformer)
  (lrs_fn : Z -> result R) (clip_grads : option R) (data : list batch) :
  forall (loss_train : float) (t : trainer),
    rel_det (same_params_rng model) (same_params_rng model)
      (train_batches model lrs_fn clip_grads data loss_train t).
Proof.
  induction data as [| [x y] data IH]; intros loss_train t; cbn [train_batches].
  - apply rel_ret.
  - eapply rel_bind; [apply rel_train_step | intros r; apply IH | auto].
Qed.

Lemma rel_val_batches (model : NextWordPredictionTransformer) (data : list batch) :
  forall loss_val : float,
    rel_det (same_params_rng model) (same_params_rng model)
      (val_batches model data loss_val).
Proof.
  induction data as [| [x y] data IH]; intros loss_val; cbn [val_batches].
  - apply rel_ret.
  - eapply rel_bind; [apply rel_val_step | intros l; apply IH | auto].
Qed.

Lemma rel_epoch_loop (model : NextWordPredictionTransformer)
  (lrs_fn : Z -> result R) (clip_grads : option R) (train_data val_data : list batch)
  (epochs : list Z) :
  forall s : progress,
    rel_det (same_params_rng model) (same_params_rng model)
      (epoch_loop model lrs_fn clip_grads train_data val_data epochs s).
Proof.
  induction epochs as [| epoch epochs IH]; intros s; cbn [epoch_loop]; [apply rel_ret |].
  apply rel_bind with (R2 := same_params_rng model); [| | auto].
  - unfold epoch_body.
    eapply rel_bind; [apply rel_train_batches | intros r | auto].
    eapply rel_bind; [apply rel_val_batches | intros lv | auto].
    eapply rel_bind; [apply rel_pure | intros tl | auto].
    eapply rel_bind; [apply rel_pure | intros vl | auto].
    eapply rel_bind; [apply rel_pure | intros best | auto].
    apply rel_ret.
  - intros s1. destruct (_early_stop (val_losses s1)); [apply rel_ret | apply IH].
Qed.

Lemma rel_setup (model : NextWordPredictionTransformer) (train_data : list batch)
  (n_epochs : Z) (learning_rate : R) (warmup_epochs : float) (random_seed : Z) :
  rel_det (same_params model) (same_params_rng model)
    (setup train_data n_epochs learning_rate warmup_epochs random_seed).
Proof.
  unfold setup.
  apply rel_bind with (R2 := same_params_rng model); [| | auto].
  - intros w1 w2 H. split; [reflexivity |]. split; [exact H | reflexivity].
  - intros _. eapply rel_bind; [apply rel_ret | intros _ | auto].
    eapply rel_bind; [apply rel_pure | intros optimizer | auto].
    eapply rel_bind; [apply rel_pure | intros n_warmup_steps | auto].
    eapply rel_bind; [apply rel_pure | intros lrs | auto]. apply rel_ret.
Qed.

Lemma rel_finalize (model : NextWordPredictionTransformer) (s : progress) :
  (forall ck, best_checkpoint s = Some ck -> ck_state_dict ck = storage model) ->
  rel_det (same_params_rng model) (same_params_rng model) (finalize model s).
Proof.
  intros Hgood. unfold finalize.
  destruct (best_checkpoint s) as [ck |] eqn:Hbest.
  - rewrite (Hgood ck eq_refl). unfold load_state_dict.
    intros w1 w2 [Hh Hg]. cbn. split; [reflexivity |].
    split; [| exact Hg]. cbn. unfold write. now rewrite Nat.eqb_refl.
  - intros w1 w2 H. split; [reflexivity | exact H].
Qed.

Lemma train_loop_checkpoint (model : NextWordPredictionTransformer)
  (train_data val_data : list batch) (n_epochs : Z) (learning_rate : R)
  (warmup_epochs : float) (clip_grads : option R) (random_seed : Z)
  (w w' : world) (s : progress) :
  train_loop model train_data val_data n_epochs learning_rate warmup_epochs clip_grads
    random_seed w = (Ok s, w') ->
  forall ck, best_checkpoint s = Some ck -> ck_state_dict ck = storage model.
Proof.
  intros H ck Hck. unfold train_loop in H.
  apply bindM_inv in H. destruct H as (st & w1 & Hsetup & Hepochs).
  apply setup_inv in Hsetup. destruct Hsetup as [Hempty Hnone].
  destruct (Z_lt_le_dec n_epochs 1) as [Hlt | Hge].
  - rewrite range_from_1_empty in Hepochs by lia. cbn in Hepochs.
    unfold ret in Hepochs. injection Hepochs as <- _. congruence.
  - destruct (epoch_loop_keeps_first _ _ _ _ _ _ _ _ _ _ Hge Hempty Hepochs)
      as (v & _ & Hbest).
    rewrite Hbest in Hck. now injection Hck as <-.
Qed.

(** X25: [train] reseeds the generator and sets the mode before each forward
    pass: the histories it returns, the exception it raises, and the
    parameters it leaves in the model depend on the model's parameters and
    on the arguments only, not on the state of the generator or the mode
    of the model before the call. *)
Theorem train_deterministic (model : NextWordPredictionTransformer)
  (train_data val_data : list batch) (n_epochs : Z) (learning_rate : R)
  (warmup_epochs : float) (clip_grads : option R) (random_seed : Z) (w1 w2 : world) :
  heap w1 (storage model) = heap w2 (storage model) ->
  fst (train model train_data val_data n_epochs learning_rate warmup_epochs clip_grads
         random_seed w1)
  = fst (train model train_data val_data n_epochs learning_rate warmup_epochs clip_grads
           random_seed w2)
  /\ heap (snd (train model train_data val_data n_epochs learning_rate warmup_epochs
                  clip_grads random_seed w1)) (storage model)
     = heap (snd (train model train_data val_data n_epochs learning_rate warmup_epochs
                    clip_grads random_seed w2)) (storage model).
Proof.
  intros Hw.
  assert (Hloop : rel_det (same_params model) (same_params_rng model)
                    (train_loop model train_data val_data n_epochs learning_rate
                       warmup_epochs clip_grads random_seed)).
  { unfold train_loop.
    eapply rel_bind; [apply rel_setup | intros st; apply rel_epoch_loop | auto]. }
  destruct (Hloop w1 w2 Hw) as [Hr Hrel].
  unfold train, bindM.
  destruct (train_loop model train_data val_data n_epochs learning_rate warmup_epochs
              clip_grads random_seed w1) as [[s1 | e1] u1] eqn:H1,
    (train_loop model train_data val_data n_epochs learning_rate warmup_epochs
       clip_grads random_seed w2) as [[s2 | e2] u2] eqn:H2;
    cbn [fst snd] in Hr, Hrel; try discriminate Hr.
  - injection Hr as <-.
    pose proof (rel_finalize model s1 (train_loop_checkpoint _ _ _ _ _ _ _ _ _ _ _ H1))
      as Hfin.
    destruct (Hfin u1 u2 Hrel) as [Hf [Hh _]]. now split.
  - injection Hr as <-. cbn [fst snd]. split; [reflexivity | apply Hrel].
Qed.

End TrainDeterminism.

Lemma train_deterministic_witness :
  fst (@Train.train Toy.engine Toy.collaborators Toy.model Toy.data Toy.data 3 1%R 1%float
         None 42
         (@Model.Build_world Toy.engine (fun l => if (l =? 0)%nat then 0%Z else 9%Z)
            true 7%Z))
  = fst (@Train.train Toy.engine Toy.collaborators Toy.model Toy.data Toy.data 3 1%R 1%float
           None 42 Toy.world0).
Proof.
  apply (@train_deterministic Toy.engine Toy.collaborators Toy.model Toy.data Toy.data 3
           1%R 1%float None 42
           (@Model.Build_world Toy.engine (fun l => if (l =? 0)%nat then 0%Z else 9%Z)
              true 7%Z)
           Toy.world0).
  reflexivity.
Defined.

Section ClipZero.

Import Model Train.
Local Open Scope world_scope.
Context {E : Engine} {C : Collaborators}.

Lemma train_step_clip_zero (x y : list (list Z)) (model : NextWordPredictionTransformer)
  (lrs_fn : Z -> result R) (t : trainer) :
  _train_step x y model lrs_fn (Some 0%R) t = _train_step x y model lrs_fn None t.
Proof.
  unfold _train_step, clip.
  destruct (Req_dec_T 0 0) as [_ | H]; [reflexivity | now elim H].
Qed.

Lemma train_batches_clip_zero (model : NextWordPredictionTransformer)
  (lrs_fn : Z -> result R) (data : list batch) :
  forall (loss_train : float) (t : trainer) (w : world),
    train_batches model lrs_fn (Some 0%R) data loss_train t w
    = train_batches model lrs_fn None data loss_train t w.
Proof.
  induction data as [| [x y] data IH]; intros loss_train t w; cbn [train_batches];
    [reflexivity |].
  unfold bindM. rewrite train_step_clip_zero.
  destruct (_train_step x y model lrs_fn None t w) as [[r | e] w1];
    [apply IH | reflexivity].
Qed.

Lemma bindM_pointwise (A B : Type) (c1 c2 : M A) (k1 k2 : A -> M B) (w : world) :
  c1 w = c2 w -> (forall (a : A) (w' : world), k1 a w' = k2 a w') ->
  bindM c1 k1 w = bindM c2 k2 w.
Proof.
  intros Hc Hk. unfold bindM. rewrite Hc.
  destruct (c2 w) as [[a | e] w']; [apply Hk | reflexivity].
Qed.

Lemma epoch_loop_clip_zero (model : NextWordPredictionTransformer)
  (lrs_fn : Z -> result R) (train_data val_data : list batch) (epochs : list Z) :
  forall (s : progress) (w : world),
    epoch_loop model lrs_fn (Some 0%R) train_data val_data epochs s w
    = epoch_loop model lrs_fn None train_data val_data epochs s w.
Proof.
  induction epochs as [| epoch epochs IH]; intros s w; cbn [epoch_loop]; [reflexivity |].
  apply bindM_pointwise.
  - unfold epoch_body. apply bindM_pointwise; [apply train_batches_clip_zero | reflexivity].
  - intros s1 w1. destruct (_early_stop (val_losses s1)); [reflexivity | apply IH].
Qed.

(** X26: [if clip_grads:] is false for [0.0] as it is for [None]: a clipping
    threshold of zero does not clip the gradient to zero, it switches the
    clipping off, and the run is the run without clipping. *)
Theorem clip_zero_is_no_clipping (model : NextWordPredictionTransformer)
  (train_data val_data : list batch) (n_epochs : Z) (learning_rate : R)
  (warmup_epochs : float) (random_seed : Z) (w : world) :
  train model train_data val_data n_epochs learning_rate warmup_epochs (Some 0%R)
    random_seed w
  = train model train_data val_data n_epochs learning_rate warmup_epochs None
      random_seed w.
Proof.
  unfold train. apply bindM_pointwise; [| reflexivity].
  unfold train_loop. apply bindM_pointwise; [reflexivity |].
  intros st w1. apply epoch_loop_clip_zero.
Qed.

End ClipZero.

(** ** Weight initialisation *)

Section InitWeightsFacts.

Import InitWeights.

Variable ptensor : Type.
Variable gen : Type.
Variable dim : ptensor -> nat.
Variable xavier_uniform_ : gen -> ptensor -> ptensor * gen.

(** X27: [_init_weights] keeps the number and the order of the parameters and
    leaves every parameter of one dimension or none (the biases) as it was
    constructed; when no parameter has two dimensions or more the
    generator is not used. *)
Theorem init_weights_keeps_vectors (ps : list ptensor) (g : gen) :
  length (fst (_init_weights ptensor gen dim xavier_uniform_ ps g)) = length ps
  /\ (forall (i : nat) (p : ptensor),
        nth_error ps i = Some p -> (dim p <= 1)%nat ->
        nth_error (fst (_init_weights ptensor gen dim xavier_uniform_ ps g)) i = Some p)
  /\ (Forall (fun p => (dim p <= 1)%nat) ps ->
      _init_weights ptensor gen dim xavier_uniform_ ps g = (ps, g)).
Proof.
  revert g. induction ps as [| p ps IH]; intros g.
  - split; [reflexivity |]. split; [| reflexivity].
    intros i q H. destruct i; discriminate H.
  - cbn [_init_weights].
    destruct (1 <? dim p)%nat eqn:Hd.
    + destruct (xavier_uniform_ g p) as [p' g'].
      destruct (IH g') as (Hlen & Hnth & _).
      destruct (_init_weights ptensor gen dim xavier_uniform_ ps g') as [rest g''].
      cbn [fst length] in *. split; [now rewrite Hlen |]. split.
      * intros [| i] q Hq Hdim; cbn in Hq |- *.
        -- injection Hq as <-. apply Nat.ltb_lt in Hd. lia.
        -- now apply Hnth.
      * intros HF. apply Forall_inv in HF. apply Nat.ltb_lt in Hd. lia.
    + destruct (IH g) as (Hlen & Hnth & Hall).
      destruct (_init_weights ptensor gen dim xavier_uniform_ ps g) as [rest g'].
      cbn [fst length] in *. split; [now rewrite Hlen |]. split.
      * intros [| i] q Hq Hdim; cbn in Hq |- *; [exact Hq | now apply Hnth].
      * intros HF. apply Forall_inv_tail in HF. specialize (Hall HF).
        now injection Hall as -> ->.
Qed.

End InitWeightsFacts.

Lemma init_weights_keeps_vectors_witness :
  nth_error
    (fst (InitWeights._init_weights (list (list Z)) nat
            (fun p => match p with [_] => 1%nat | _ => 2%nat end)
            (fun g p => (map (map (fun _ => Z.of_nat g)) p, S g))
            [[[1; 2]; [3; 4]]; [[5; 6]]]%Z 7%nat)) 1
  = Some [[5; 6]]%Z.
Proof.
  apply (init_weights_keeps_vectors (list (list Z)) nat
           (fun p => match p with [_] => 1%nat | _ => 2%nat end)
           (fun g p => (map (map (fun _ => Z.of_nat g)) p, S g))
           [[[1; 2]; [3; 4]]; [[5; 6]]]%Z 7%nat);
    [reflexivity | cbn; lia].
Defined.
